(** * Native bridge of the YouTube downloader service worker

    A shallow embedding of the service worker that talks to the native
    yt-dlp host (the file whose header reads "YouTube Downloader - Service
    Worker"): the module variables [nativePort], [pendingCallbacks],
    [downloadCallbacks] and [messageId], the functions that read and write
    them, and the part of the JavaScript run time they rely on (promise
    reactions run as microtasks, [setTimeout] callbacks, port events).

    Every JavaScript function is a computation in the monad [M]: it reads
    and writes a [World] and emits the calls it makes on the outside
    (chrome APIs, promise settlements) as a list of [Effect]s, oldest first.
    Calls to the console are not traced, and the [onInstalled] listener
    (default settings, options page) is left out: it never touches the
    bridge. *)

From Stdlib Require Import ZArith List String Bool Lia Sorted.
From Stdlib Require Import DecimalString.
Import ListNotations.

Local Open Scope string_scope.
Local Open Scope list_scope.
Local Open Scope Z_scope.

(** ** JavaScript values *)

(** The values that cross the two message boundaries are JSON values.  A
    plain object is kept opaque (its JSON text); numbers are the integers,
    which is all the code ever compares or creates. *)
Inductive JsVal : Type :=
| JUndefined
| JNull
| JBool (b : bool)
| JNum (n : Z)
| JStr (s : string)
| JObj (json : string).

(** ToBoolean. *)
Definition truthy (v : JsVal) : bool :=
  match v with
  | JUndefined | JNull => false
  | JBool b => b
  | JNum n => negb (n =? 0)
  | JStr s => negb (String.eqb s "")
  | JObj _ => true
  end.

(** ToString, as used by template literals and by [new Error(v)]. *)
Definition js_to_string (v : JsVal) : string :=
  match v with
  | JUndefined => "undefined"
  | JNull => "null"
  | JBool true => "true"
  | JBool false => "false"
  | JNum n => NilZero.string_of_int (Z.to_int n)
  | JStr s => s
  | JObj _ => "[object Object]"
  end.

(** [v === s] for a string literal [s]. *)
Definition strict_eq_str (v : JsVal) (s : string) : bool :=
  match v with
  | JStr s' => String.eqb s' s
  | _ => false
  end.

(** [a || b]. *)
Definition js_or (a b : JsVal) : JsVal := if truthy a then a else b.

(** The largest counter value below which [++] on a double is exact:
    2^53 + 1 rounds back to 2^53. *)
Definition MAX_EXACT : Z := 2 ^ 53.

(** [++n] on a JavaScript number holding a non-negative integer. *)
Definition js_incr (n : Z) : Z := if n <? MAX_EXACT then n + 1 else n.

(** ** JavaScript [Map]: insertion-ordered, one entry per key *)

Section JsMap.
Context {K V : Type}.
Variable eqb : K -> K -> bool.

Definition JsMap : Type := list (K * V).

Fixpoint map_has (k : K) (m : JsMap) : bool :=
  match m with
  | [] => false
  | (k', _) :: r => if eqb k k' then true else map_has k r
  end.

Fixpoint map_get (k : K) (m : JsMap) : option V :=
  match m with
  | [] => None
  | (k', v) :: r => if eqb k k' then Some v else map_get k r
  end.

(** [set] overwrites in place when the key exists and appends otherwise. *)
Fixpoint map_set (k : K) (v : V) (m : JsMap) : JsMap :=
  match m with
  | [] => [(k, v)]
  | (k', v') :: r =>
      if eqb k k' then (k, v) :: r else (k', v') :: map_set k v r
  end.

Fixpoint map_delete (k : K) (m : JsMap) : JsMap :=
  match m with
  | [] => []
  | (k', v') :: r =>
      if eqb k k' then r else (k', v') :: map_delete k r
  end.

Definition map_keys (m : JsMap) : list K := List.map fst m.

Definition map_size (m : JsMap) : nat := List.length m.
End JsMap.

Arguments JsMap : clear implicits.

(** ** Messages *)

(** A message received from the native host: the fields the worker reads. *)
Record NativeMessage : Type := mkNativeMessage {
  m_id : JsVal;
  m_error : JsVal;
  m_type : JsVal;
  m_downloadId : JsVal;
  m_progress : JsVal;
  m_filename : JsVal;
  m_ytdlpVersion : JsVal;
  m_ffmpegVersion : JsVal;
  m_path : JsVal
}.

(** A message posted to the native host: [{ id, action, ...data }]. *)
Record OutMessage : Type := mkOutMessage {
  o_id : Z;
  o_action : string;
  o_data : list (string * JsVal)
}.

(** The [startDownload] request of the popup. *)
Record DownloadOptions : Type := mkDownloadOptions {
  url : JsVal;
  format : JsVal;
  output : JsVal;
  extension : JsVal;
  subtitles : JsVal;
  audioOnly : JsVal;
  audioQuality : JsVal;
  title : JsVal
}.

(** What the extension message listener dispatches on ([request.action]). *)
Inductive Request : Type :=
| ReqTestConnection
| ReqStartDownload (options : DownloadOptions)
| ReqCancelDownload (downloadId : JsVal)
| ReqSelectDirectory
| ReqOpenFolder (path : JsVal)
| ReqOpenPopup (videoInfo : JsVal)
| ReqUnknown.

(** The object handed to [sendResponse]. *)
Inductive Response : Type :=
| RespConnected (ytdlpVersion ffmpegVersion : JsVal)   (* { connected: true, ... } *)
| RespNotConnected (error : string)                    (* { connected: false, error } *)
| RespDownloadId (downloadId : string)                 (* { downloadId } *)
| RespSuccess                                          (* { success: true } *)
| RespPath (path : JsVal)                              (* { path } *)
| RespError (error : string).                          (* { error } *)

(** How an async handler ends. *)
Inductive Completion : Type :=
| Return (r : Response)
| Throw (message : string).

(** ** Promises of [sendNativeMessage]

    [pendingCallbacks] stores the [{ resolve, reject }] pair of the promise
    that [sendNativeMessage] returns.  Each call site attaches exactly one
    reaction to that promise, so the pair is represented by the call site
    that waits on it. *)
Inductive Caller : Type :=
| CallTest (req : nat)                          (* handleTestConnection *)
| CallDownload (downloadId : string)            (* handleStartDownload, .catch *)
| CallCancel (req : nat) (downloadId : JsVal)   (* handleCancelDownload *)
| CallSelectDirectory (req : nat)               (* handleSelectDirectory *)
| CallOpenFolder (req : nat).                   (* handleOpenFolder *)

Inductive Settlement : Type :=
| Resolved (m : NativeMessage)
| Rejected (message : string).

(** Jobs of the microtask queue. *)
Inductive Microtask : Type :=
| MtAwait (c : Caller) (o : Settlement)     (* reaction of a sendNativeMessage promise *)
| MtRequest (req : nat) (c : Completion)    (* handleRequest after [await handleX()] *)
| MtSendResponse (req : nat) (r : Response). (* handleRequest().then(sendResponse) *)

(** ** Effects: the calls made on the outside *)

Inductive Effect : Type :=
| EConnectNative (host : string) (ok : bool)   (* chrome.runtime.connectNative *)
| EPortDisconnect                               (* nativePort.disconnect() *)
| EPostMessage (m : OutMessage)                 (* nativePort.postMessage *)
| ESetTimeout (id : Z) (delay : Z)              (* setTimeout(..., delay) of call id *)
| EResolve (id : Z) (m : NativeMessage)         (* callback.resolve(message) *)
| EReject (id : option Z) (message : string)    (* reject(new Error(message)) *)
| ERuntimeSend (action : string) (downloadId : JsVal) (payload : JsVal)
                                                (* chrome.runtime.sendMessage *)
| ENotification (title : string) (message : JsVal) (priority : Z)
                                                (* chrome.notifications.create *)
| EStorageSet (videoInfo : JsVal)               (* chrome.storage.session.set *)
| ESendResponse (req : nat) (r : Response).     (* sendResponse(r) *)

(** ** The world *)

Inductive Port : Type := NativePort (host : string).

(** A pending [setTimeout]: the call it belongs to, its due time, and the
    [reject] its closure captured. *)
Record Timer : Type := mkTimer {
  t_id : Z;
  t_due : Z;
  t_callback : Caller
}.

Record World : Type := mkWorld {
  (* module variables *)
  nativePort : option Port;
  pendingCallbacks : JsMap Z Caller;
  downloadCallbacks : JsMap string bool;
  messageId : Z;
  (* run time *)
  timers : list Timer;          (* the pending timeouts, oldest first *)
  microtasks : list Microtask;  (* oldest first *)
  clock : Z;                    (* milliseconds *)
  storageOps : list nat         (* requests waiting on chrome.storage.session.set *)
}.

(** What the outside decides during one handler run. *)
Record Env : Type := mkEnv {
  env_connect_ok : bool;            (* connectNative returns (true) or throws *)
  env_post_error : option string;   (* postMessage throws an Error with this message *)
  env_now : Z;                      (* Date.now() *)
  env_random : string               (* Math.random().toString(36) *)
}.

Definition NATIVE_HOST_NAME : string := "com.youtube.downloader".

(** The module state when the script starts to run. *)
Definition boot : World :=
  {| nativePort := None; pendingCallbacks := []; downloadCallbacks := [];
     messageId := 0; timers := []; microtasks := []; clock := 0;
     storageOps := [] |}.

Definition with_nativePort (p : option Port) (w : World) : World :=
  {| nativePort := p; pendingCallbacks := pendingCallbacks w;
     downloadCallbacks := downloadCallbacks w; messageId := messageId w;
     timers := timers w; microtasks := microtasks w; clock := clock w;
     storageOps := storageOps w |}.

Definition with_pendingCallbacks (m : JsMap Z Caller) (w : World) : World :=
  {| nativePort := nativePort w; pendingCallbacks := m;
     downloadCallbacks := downloadCallbacks w; messageId := messageId w;
     timers := timers w; microtasks := microtasks w; clock := clock w;
     storageOps := storageOps w |}.

Definition with_downloadCallbacks (m : JsMap string bool) (w : World) : World :=
  {| nativePort := nativePort w; pendingCallbacks := pendingCallbacks w;
     downloadCallbacks := m; messageId := messageId w;
     timers := timers w; microtasks := microtasks w; clock := clock w;
     storageOps := storageOps w |}.

Definition with_messageId (n : Z) (w : World) : World :=
  {| nativePort := nativePort w; pendingCallbacks := pendingCallbacks w;
     downloadCallbacks := downloadCallbacks w; messageId := n;
     timers := timers w; microtasks := microtasks w; clock := clock w;
     storageOps := storageOps w |}.

Definition with_timers (t : list Timer) (w : World) : World :=
  {| nativePort := nativePort w; pendingCallbacks := pendingCallbacks w;
     downloadCallbacks := downloadCallbacks w; messageId := messageId w;
     timers := t; microtasks := microtasks w; clock := clock w;
     storageOps := storageOps w |}.

Definition with_microtasks (q : list Microtask) (w : World) : World :=
  {| nativePort := nativePort w; pendingCallbacks := pendingCallbacks w;
     downloadCallbacks := downloadCallbacks w; messageId := messageId w;
     timers := timers w; microtasks := q; clock := clock w;
     storageOps := storageOps w |}.

Definition with_clock (c : Z) (w : World) : World :=
  {| nativePort := nativePort w; pendingCallbacks := pendingCallbacks w;
     downloadCallbacks := downloadCallbacks w; messageId := messageId w;
     timers := timers w; microtasks := microtasks w; clock := c;
     storageOps := storageOps w |}.

Definition with_storageOps (l : list nat) (w : World) : World :=
  {| nativePort := nativePort w; pendingCallbacks := pendingCallbacks w;
     downloadCallbacks := downloadCallbacks w; messageId := messageId w;
     timers := timers w; microtasks := microtasks w; clock := clock w;
     storageOps := l |}.

(** ** The monad: state and output *)

Definition M (A : Type) : Type := World -> A * World * list Effect.

Definition ret {A : Type} (a : A) : M A := fun w => (a, w, []).

Definition bind {A B : Type} (c : M A) (k : A -> M B) : M B :=
  fun w =>
    let '(a, w1, t1) := c w in
    let '(b, w2, t2) := k a w1 in
    (b, w2, t1 ++ t2).

Definition get : M World := fun w => (w, w, []).
Definition modify (f : World -> World) : M unit := fun w => (tt, f w, []).
Definition emit (e : Effect) : M unit := fun w => (tt, w, [e]).

Declare Scope js_scope.
Delimit Scope js_scope with js.
Notation "x <- c ;; k" := (bind c (fun x => k))
  (at level 61, c at next level, right associativity) : js_scope.
Notation "c ;; k" := (bind c (fun _ => k))
  (at level 61, right associativity) : js_scope.
Local Open Scope js_scope.

Definition when (b : bool) (c : M unit) : M unit := if b then c else ret tt.

(** [m.forEach((value, key) => f value key)]. *)
Fixpoint forEach {K V : Type} (f : V -> K -> M unit) (m : JsMap K V) : M unit :=
  match m with
  | [] => ret tt
  | (k, v) :: r => f v k ;; forEach f r
  end.

Definition world_of {A : Type} (r : A * World * list Effect) : World := snd (fst r).
Definition effects_of {A : Type} (r : A * World * list Effect) : list Effect := snd r.
Definition value_of {A : Type} (r : A * World * list Effect) : A := fst (fst r).

Definition enqueue (t : Microtask) : M unit :=
  modify (fun w => with_microtasks (microtasks w ++ [t]) w).

(** ** Keys of the two tables *)

(** [pendingCallbacks] is keyed by the numbers that [++messageId] produced;
    a lookup with any other value finds nothing. *)
Definition pending_has (v : JsVal) (m : JsMap Z Caller) : bool :=
  match v with
  | JNum n => map_has Z.eqb n m
  | _ => false
  end.

Definition pending_get (v : JsVal) (m : JsMap Z Caller) : option (Z * Caller) :=
  match v with
  | JNum n => option_map (fun c => (n, c)) (map_get Z.eqb n m)
  | _ => None
  end.

(** [downloadCallbacks] is keyed by the strings that handleStartDownload built. *)
Definition download_has (v : JsVal) (m : JsMap string bool) : bool :=
  match v with
  | JStr s => map_has String.eqb s m
  | _ => false
  end.

Definition download_delete (v : JsVal) (m : JsMap string bool) : JsMap string bool :=
  match v with
  | JStr s => map_delete String.eqb s m
  | _ => m
  end.

(** ** Settling a promise

    [resolve]/[reject] of a [sendNativeMessage] promise: the call is recorded
    and the reaction of the waiting call site is queued as a microtask.  (When
    the promise is rejected inside its executor the reaction is attached right
    after the executor returns, before anything else is queued, so the queue
    order is the same.) *)
Definition resolve (id : Z) (callback : Caller) (message : NativeMessage) : M unit :=
  emit (EResolve id message) ;;
  enqueue (MtAwait callback (Resolved message)).

Definition reject (id : option Z) (callback : Caller) (message : string) : M unit :=
  emit (EReject id message) ;;
  enqueue (MtAwait callback (Rejected message)).

(** ** Notification functions *)

Definition notifyDownloadProgress (downloadId progress : JsVal) : M unit :=
  emit (ERuntimeSend "downloadProgress" downloadId progress).

Definition notifyDownloadComplete (downloadId filename : JsVal) : M unit :=
  emit (ERuntimeSend "downloadComplete" downloadId filename) ;;
  emit (ENotification "Download Complete"
          (JStr (js_to_string filename ++ " has been downloaded successfully."))
          2).

Definition notifyDownloadError (downloadId error : JsVal) : M unit :=
  emit (ERuntimeSend "downloadError" downloadId error) ;;
  emit (ENotification "Download Failed"
          (js_or error (JStr "An error occurred during download."))
          2).

(** ** Native messaging *)

(** The listener registered on [nativePort.onDisconnect]. *)
Definition onDisconnect : M unit :=
  modify (with_nativePort None) ;;
  w <- get ;;
  forEach (fun callback id => reject (Some id) callback "Native host disconnected")
          (pendingCallbacks w) ;;
  modify (with_pendingCallbacks []) ;;
  w <- get ;;
  forEach (fun _ downloadId =>
             notifyDownloadError (JStr downloadId) (JStr "Native host connection lost"))
          (downloadCallbacks w) ;;
  modify (with_downloadCallbacks []).

(** [ok] says whether [chrome.runtime.connectNative] returns a port or throws.
    The two listeners it registers are [handleNativeMessage] and
    [onDisconnect]; the event loop below calls them. *)
Definition connectToNativeHost (ok : bool) : M bool :=
  w <- get ;;
  when (match nativePort w with Some _ => true | None => false end)
       (emit EPortDisconnect) ;;
  emit (EConnectNative NATIVE_HOST_NAME ok) ;;
  if ok then
    modify (with_nativePort (Some (NativePort NATIVE_HOST_NAME))) ;;
    ret true
  else
    ret false.

Definition handleNativeMessage (message : NativeMessage) : M unit :=
  w <- get ;;
  if truthy (m_id message) && pending_has (m_id message) (pendingCallbacks w) then
    match pending_get (m_id message) (pendingCallbacks w) with
    | Some (id, callback) =>
        modify (fun w => with_pendingCallbacks
                           (map_delete Z.eqb id (pendingCallbacks w)) w) ;;
        if truthy (m_error message) then
          reject (Some id) callback (js_to_string (m_error message))
        else
          resolve id callback message
    | None => ret tt
    end
  else
    when (strict_eq_str (m_type message) "progress" && truthy (m_downloadId message))
         (notifyDownloadProgress (m_downloadId message) (m_progress message)) ;;
    when (strict_eq_str (m_type message) "complete" && truthy (m_downloadId message))
         (notifyDownloadComplete (m_downloadId message) (m_filename message) ;;
          modify (fun w => with_downloadCallbacks
                             (download_delete (m_downloadId message)
                                              (downloadCallbacks w)) w)) ;;
    when (strict_eq_str (m_type message) "error" && truthy (m_downloadId message))
         (notifyDownloadError (m_downloadId message) (m_error message) ;;
          modify (fun w => with_downloadCallbacks
                             (download_delete (m_downloadId message)
                                              (downloadCallbacks w)) w)).

(** [setTimeout(() => { ... }, delay)] inside [sendNativeMessage]. *)
Definition setTimeout (id : Z) (callback : Caller) (delay : Z) : M unit :=
  emit (ESetTimeout id delay) ;;
  modify (fun w => with_timers
                     (timers w ++ [mkTimer id (clock w + delay) callback]) w).

(** The body of that timeout callback. *)
Definition onTimeout (t : Timer) : M unit :=
  w <- get ;;
  if map_has Z.eqb (t_id t) (pendingCallbacks w) then
    modify (fun w => with_pendingCallbacks
                       (map_delete Z.eqb (t_id t) (pendingCallbacks w)) w) ;;
    reject (Some (t_id t)) (t_callback t) "Request timed out"
  else
    ret tt.

(** [nativePort.postMessage(message)]: [None] when it returns, [Some e] when
    it throws an error with message [e]. *)
Definition postMessage (env : Env) (message : OutMessage) : M (option string) :=
  w <- get ;;
  match nativePort w with
  | None => ret (Some "Cannot read properties of null (reading 'postMessage')")
  | Some _ =>
      match env_post_error env with
      | Some e => ret (Some e)
      | None => emit (EPostMessage message) ;; ret None
      end
  end.

(** The executor of the promise that [sendNativeMessage(action, data)]
    returns; [callback] is the call site waiting on that promise. *)
Definition sendNativeMessage (env : Env) (action : string)
    (data : list (string * JsVal)) (callback : Caller) : M unit :=
  w <- get ;;
  connected <- match nativePort w with
               | Some _ => ret true
               | None => connectToNativeHost (env_connect_ok env)
               end ;;
  if negb connected then
    reject None callback "Failed to connect to native host. Please check installation."
  else
    w <- get ;;
    let id := js_incr (messageId w) in
    modify (with_messageId id) ;;
    modify (fun w => with_pendingCallbacks
                       (map_set Z.eqb id callback (pendingCallbacks w)) w) ;;
    when (negb (String.eqb action "download")) (setTimeout id callback 30000) ;;
    thrown <- postMessage env (mkOutMessage id action data) ;;
    match thrown with
    | None => ret tt
    | Some error =>
        modify (fun w => with_pendingCallbacks
                           (map_delete Z.eqb id (pendingCallbacks w)) w) ;;
        reject (Some id) callback error
    end.

(** ** Message handlers *)

(** Each async handler is split at its [await]: the part that runs at once,
    and the continuation that runs when the promise settles. *)

Definition handleTestConnection (env : Env) (req : nat) : M unit :=
  sendNativeMessage env "test" [] (CallTest req).

Definition handleTestConnection_resume (o : Settlement) : Completion :=
  match o with
  | Resolved response =>
      Return (RespConnected (m_ytdlpVersion response) (m_ffmpegVersion response))
  | Rejected message => Return (RespNotConnected message)
  end.

(** [`download_${Date.now()}_${Math.random().toString(36).substr(2, 9)}`] *)
Definition make_downloadId (env : Env) : string :=
  ("download_" ++ js_to_string (JNum (env_now env)) ++ "_"
     ++ substring 2 9 (env_random env))%string.

Definition handleStartDownload (env : Env) (options : DownloadOptions) : M Completion :=
  let downloadId := make_downloadId env in
  modify (fun w => with_downloadCallbacks
                     (map_set String.eqb downloadId true (downloadCallbacks w)) w) ;;
  sendNativeMessage env "download"
    [("downloadId", JStr downloadId); ("url", url options);
     ("format", format options); ("output", output options);
     ("extension", extension options); ("subtitles", subtitles options);
     ("audioOnly", audioOnly options); ("audioQuality", audioQuality options);
     ("title", title options)]
    (CallDownload downloadId) ;;
  emit (ENotification "Download Started"
          (JStr ("Downloading: " ++ js_to_string (title options))) 1) ;;
  ret (Return (RespDownloadId downloadId)).

(** The [.catch] attached to the download call. *)
Definition handleStartDownload_catch (downloadId : string) (o : Settlement) : M unit :=
  match o with
  | Resolved _ => ret tt
  | Rejected message =>
      notifyDownloadError (JStr downloadId) (JStr message) ;;
      modify (fun w => with_downloadCallbacks
                         (map_delete String.eqb downloadId (downloadCallbacks w)) w)
  end.

Definition handleCancelDownload (env : Env) (req : nat) (downloadId : JsVal) : M unit :=
  sendNativeMessage env "cancel" [("downloadId", downloadId)] (CallCancel req downloadId).

Definition handleCancelDownload_resume (downloadId : JsVal) (o : Settlement)
  : M Completion :=
  match o with
  | Resolved _ =>
      modify (fun w => with_downloadCallbacks
                         (download_delete downloadId (downloadCallbacks w)) w) ;;
      ret (Return RespSuccess)
  | Rejected message => ret (Throw message)
  end.

Definition handleSelectDirectory (env : Env) (req : nat) : M unit :=
  sendNativeMessage env "selectDirectory" [] (CallSelectDirectory req).

Definition handleSelectDirectory_resume (o : Settlement) : Completion :=
  match o with
  | Resolved response => Return (RespPath (m_path response))
  | Rejected message => Throw message
  end.

Definition handleOpenFolder (env : Env) (req : nat) (path : JsVal) : M unit :=
  sendNativeMessage env "openFolder" [("path", path)] (CallOpenFolder req).

Definition handleOpenFolder_resume (o : Settlement) : Completion :=
  match o with
  | Resolved _ => Return RespSuccess
  | Rejected message => Throw message
  end.

(** ** Extension message listener and the event loop *)

(** [handleRequest] of the [chrome.runtime.onMessage] listener, up to its first
    [await].  A handler that is still waiting leaves nothing in the queue; one
    that has already returned lets [handleRequest] resume in a microtask. *)
Definition handleRequest (req : nat) (request : Request) (env : Env) : M unit :=
  match request with
  | ReqTestConnection => handleTestConnection env req
  | ReqStartDownload options =>
      c <- handleStartDownload env options ;;
      enqueue (MtRequest req c)
  | ReqCancelDownload downloadId => handleCancelDownload env req downloadId
  | ReqSelectDirectory => handleSelectDirectory env req
  | ReqOpenFolder path => handleOpenFolder env req path
  | ReqOpenPopup videoInfo =>
      if truthy videoInfo then
        emit (EStorageSet videoInfo) ;;
        modify (fun w => with_storageOps (storageOps w ++ [req]) w)
      else
        enqueue (MtSendResponse req RespSuccess)
  | ReqUnknown => enqueue (MtSendResponse req (RespError "Unknown action"))
  end.

(** The reaction of the call site that waits on a [sendNativeMessage] promise.
    When that ends an async handler, [handleRequest] resumes one microtask
    later with the handler's completion. *)
Definition resume (callback : Caller) (o : Settlement) : M unit :=
  match callback with
  | CallTest req => enqueue (MtRequest req (handleTestConnection_resume o))
  | CallDownload downloadId => handleStartDownload_catch downloadId o
  | CallCancel req downloadId =>
      c <- handleCancelDownload_resume downloadId o ;;
      enqueue (MtRequest req c)
  | CallSelectDirectory req => enqueue (MtRequest req (handleSelectDirectory_resume o))
  | CallOpenFolder req => enqueue (MtRequest req (handleOpenFolder_resume o))
  end.

(** [handleRequest] after its [await]: a value is returned as it is, an error
    is caught and returned as [{ error: error.message }]. *)
Definition handleRequest_resume (c : Completion) : Response :=
  match c with
  | Return r => r
  | Throw message => RespError message
  end.

Definition runMicrotask (t : Microtask) : M unit :=
  match t with
  | MtAwait callback o => resume callback o
  | MtRequest req c => enqueue (MtSendResponse req (handleRequest_resume c))
  | MtSendResponse req r => emit (ESendResponse req r)
  end.

(** The number of microtasks a job can still give rise to, itself included. *)
Definition microtask_weight (t : Microtask) : nat :=
  match t with
  | MtAwait _ _ => 3
  | MtRequest _ _ => 2
  | MtSendResponse _ _ => 1
  end.

Definition queue_weight (q : list Microtask) : nat :=
  fold_right (fun t n => (microtask_weight t + n)%nat) 0%nat q.

Fixpoint drain (fuel : nat) : M unit :=
  match fuel with
  | O => ret tt
  | S fuel' =>
      w <- get ;;
      match microtasks w with
      | [] => ret tt
      | t :: q =>
          modify (with_microtasks q) ;;
          runMicrotask t ;;
          drain fuel'
      end
  end.

(** The microtask checkpoint at the end of every task. *)
Definition runMicrotasks : M unit :=
  w <- get ;;
  drain (queue_weight (microtasks w)).

(** What the outside can make happen. *)
Inductive Event : Type :=
| EvRequest (req : nat) (request : Request) (env : Env)
                                   (* a chrome.runtime message from the UI *)
| EvNativeMessage (message : NativeMessage)   (* nativePort.onMessage *)
| EvDisconnect                                 (* nativePort.onDisconnect *)
| EvTimer (id : Z)                             (* the timeout of call id is run *)
| EvElapse (ms : Z)                            (* time passes *)
| EvKeepAlive                                  (* the 25 s setInterval callback *)
| EvStorageDone (req : nat) (error : option string).
                                   (* chrome.storage.session.set settles *)

(** The oldest timer of call [id] that is due, and the timers that remain. *)
Fixpoint take_due_timer (id now : Z) (l : list Timer) : option (Timer * list Timer) :=
  match l with
  | [] => None
  | t :: r =>
      if (t_id t =? id) && (t_due t <=? now) then Some (t, r)
      else match take_due_timer id now r with
           | Some (t', r') => Some (t', t :: r')
           | None => None
           end
  end.

Fixpoint remove_nat (n : nat) (l : list nat) : option (list nat) :=
  match l with
  | [] => None
  | x :: r =>
      if Nat.eqb x n then Some r
      else option_map (cons x) (remove_nat n r)
  end.

(** The [setInterval] callback that keeps the service worker alive: it only
    logs the number of active downloads, and the console is not traced. *)
Definition keepAlive : M unit :=
  w <- get ;;
  when (Nat.ltb 0 (map_size (downloadCallbacks w))) (ret tt).

(** The task that an event starts.  An event the platform cannot deliver in
    the current world (a port event without a port, a timer that is not due)
    does nothing. *)
Definition dispatch (e : Event) : M unit :=
  match e with
  | EvRequest req request env => handleRequest req request env
  | EvNativeMessage message =>
      w <- get ;;
      match nativePort w with
      | Some _ => handleNativeMessage message
      | None => ret tt
      end
  | EvDisconnect =>
      w <- get ;;
      match nativePort w with
      | Some _ => onDisconnect
      | None => ret tt
      end
  | EvTimer id =>
      w <- get ;;
      match take_due_timer id (clock w) (timers w) with
      | Some (t, rest) => modify (with_timers rest) ;; onTimeout t
      | None => ret tt
      end
  | EvElapse ms =>
      modify (fun w => with_clock (clock w + Z.max 0 ms) w)
  | EvKeepAlive => keepAlive
  | EvStorageDone req error =>
      w <- get ;;
      match remove_nat req (storageOps w) with
      | Some rest =>
          modify (with_storageOps rest) ;;
          enqueue (MtSendResponse req
                     (match error with
                      | None => RespSuccess
                      | Some message => RespError message
                      end))
      | None => ret tt
      end
  end.

(** One turn of the event loop: the task, then the microtask checkpoint. *)
Definition step (e : Event) : M unit :=
  dispatch e ;; runMicrotasks.

(** Running the script: the module variables are initialised and the last
    statement calls [connectToNativeHost()]. *)
Definition startup (ok : bool) : M unit :=
  connectToNativeHost ok ;; runMicrotasks.

Fixpoint run_events (es : list Event) : M unit :=
  match es with
  | [] => ret tt
  | e :: r => step e ;; run_events r
  end.

(** The life of the service worker: start, then the events in order. *)
Definition run (ok : bool) (es : list Event) : World * list Effect :=
  let r := (startup ok ;; run_events es) boot in
  (world_of r, effects_of r).

(** ** Observations on worlds and traces *)

(** A world the service worker can be in between two tasks. *)
Definition reachable (w : World) : Prop :=
  exists ok es, w = fst (run ok es).

(** The call whose promise an effect settles. *)
Definition settled_id (e : Effect) : option Z :=
  match e with
  | EResolve id _ => Some id
  | EReject (Some id) _ => Some id
  | _ => None
  end.

Definition settled_ids (t : list Effect) : list Z :=
  flat_map (fun e => match settled_id e with Some id => [id] | None => [] end) t.

Definition is_settlement (e : Effect) : bool :=
  match e with
  | EResolve _ _ | EReject _ _ => true
  | _ => false
  end.

Definition settlements (t : list Effect) : list Effect := filter is_settlement t.

(** What reaches the observers: the popup and the desktop notifications. *)
Definition is_observer_effect (e : Effect) : bool :=
  match e with
  | ERuntimeSend _ _ _ | ENotification _ _ _ => true
  | _ => false
  end.

Definition observer_effects (t : list Effect) : list Effect :=
  filter is_observer_effect t.

Definition is_connect (e : Effect) : bool :=
  match e with
  | EConnectNative _ _ => true
  | _ => false
  end.

Definition connect_attempts (t : list Effect) : nat :=
  List.length (filter is_connect t).

Definition is_post (e : Effect) : bool :=
  match e with
  | EPostMessage _ => true
  | _ => false
  end.

Definition posted (t : list Effect) : list Effect := filter is_post t.

(** The reasons of the error events delivered to the popup for job [d]. *)
Definition job_error_reasons (d : string) (t : list Effect) : list JsVal :=
  flat_map (fun e =>
              match e with
              | ERuntimeSend action (JStr d') reason =>
                  if String.eqb action "downloadError" && String.eqb d' d
                  then [reason] else []
              | _ => []
              end) t.

(** A job event: a [type] of progress, complete or error and a [downloadId]. *)
Definition is_job_event (m : NativeMessage) : bool :=
  (strict_eq_str (m_type m) "progress" || strict_eq_str (m_type m) "complete"
   || strict_eq_str (m_type m) "error")
  && truthy (m_downloadId m).

(** The requests that go through [sendNativeMessage]. *)
Definition is_bridge_request (r : Request) : bool :=
  match r with
  | ReqTestConnection | ReqStartDownload _ | ReqCancelDownload _
  | ReqSelectDirectory | ReqOpenFolder _ => true
  | ReqOpenPopup _ | ReqUnknown => false
  end.

Definition port_absent (w : World) : bool :=
  match nativePort w with
  | Some _ => false
  | None => true
  end.

(** The fields of a world that no microtask and no notification touches. *)
Definition Bridge : Type := option Port * JsMap Z Caller * Z * list Timer * Z.

Definition bridge_of (w : World) : Bridge :=
  (nativePort w, pendingCallbacks w, messageId w, timers w, clock w).

Definition same_bridge (w w' : World) : Prop := bridge_of w' = bridge_of w.

(** Effects that settle no call, open no port and post nothing. *)
Definition is_quiet (e : Effect) : bool :=
  match e with
  | ERuntimeSend _ _ _ | ENotification _ _ _ | ESendResponse _ _
  | EStorageSet _ => true
  | _ => false
  end.

Definition is_download_call (k : Caller) : bool :=
  match k with
  | CallDownload _ => true
  | _ => false
  end.

(** The invariant of the worlds between two tasks, while the call counter is
    below [MAX_EXACT]: the pending ids are distinct and were all handed out
    already, and a timeout belongs to a call that is not a download and that
    alone can still be pending under its id. *)
Definition timer_ok (pc : JsMap Z Caller) (mid : Z) (t : Timer) : Prop :=
  t_id t <= mid /\
  is_download_call (t_callback t) = false /\
  (forall c, map_get Z.eqb (t_id t) pc = Some c -> c = t_callback t).

Definition bridge_wf (b : Bridge) : Prop :=
  let '(_, pc, mid, tm, _) := b in
  NoDup (map_keys pc) /\
  (forall k, In k (map_keys pc) -> k <= mid) /\
  (forall t, In t tm -> timer_ok pc mid t).

Definition wf (w : World) : Prop :=
  bridge_wf (bridge_of w) /\
  NoDup (map_keys (downloadCallbacks w)) /\
  microtasks w = [].

(** The invariant of a trace: no call was settled twice, and a settled call
    is not pending any more. *)
Definition trace_ok (pc : JsMap Z Caller) (mid : Z) (t : list Effect) : Prop :=
  NoDup (settled_ids t) /\
  (forall id, In id (settled_ids t) -> id <= mid /\ map_has Z.eqb id pc = false) /\
  (forall id m, In (EResolve id m) t -> m_id m = JNum id).

(** ** Closed forms and invariants used in the proofs *)

(** What a single microtask can do: it leaves the bridge fields alone, only
    ever removes jobs, emits quiet effects, and queues strictly less work than
    it stood for. *)
Record microtask_frame (q : list Microtask) (n : nat) (w w' : World)
    (eff : list Effect) : Prop := {
  mf_bridge : same_bridge w w';
  mf_quiet : Forall (fun e => is_quiet e = true) eff;
  mf_nodup : NoDup (map_keys (downloadCallbacks w)) ->
             NoDup (map_keys (downloadCallbacks w'));
  mf_weight : (queue_weight (microtasks w') < queue_weight q + n)%nat
}.

Ltac unfold_with :=
  cbv [with_nativePort with_pendingCallbacks with_downloadCallbacks
       with_messageId with_timers with_microtasks with_clock with_storageOps].

Ltac jsimpl := cbn; unfold_with; cbn.

Arguments queue_weight : simpl never.
Arguments js_incr : simpl never.
Arguments js_to_string : simpl never.

Definition FAILED_TO_CONNECT : string :=
  "Failed to connect to native host. Please check installation.".
Definition DISCONNECTED : string := "Native host disconnected".
Definition CONNECTION_LOST : string := "Native host connection lost".
Definition TIMED_OUT : string := "Request timed out".

Definition loud (t : list Effect) : list Effect :=
  filter (fun e => negb (is_quiet e)) t.

Definition connect_effects (w : World) (ok : bool) : list Effect :=
  if port_absent w then [EConnectNative NATIVE_HOST_NAME ok] else [].

Definition port_after_connect (w : World) : option Port :=
  match nativePort w with
  | Some p => Some p
  | None => Some (NativePort NATIVE_HOST_NAME)
  end.

Definition timer_effects (action : string) (id : Z) : list Effect :=
  if String.eqb action "download" then [] else [ESetTimeout id 30000].

Definition timers_after (action : string) (id now : Z) (callback : Caller)
    (l : list Timer) : list Timer :=
  if String.eqb action "download" then l
  else l ++ [mkTimer id (now + 30000) callback].

Definition reject_all_effects (pc : JsMap Z Caller) : list Effect :=
  map (fun kc => EReject (Some (fst kc)) DISCONNECTED) pc.

Definition reject_all_microtasks (pc : JsMap Z Caller) : list Microtask :=
  map (fun kc => MtAwait (snd kc) (Rejected DISCONNECTED)) pc.

Definition connection_lost_effects (dc : JsMap string bool) : list Effect :=
  flat_map (fun db =>
              [ERuntimeSend "downloadError" (JStr (fst db)) (JStr CONNECTION_LOST);
               ENotification "Download Failed" (JStr CONNECTION_LOST) 2]) dc.

Definition settlement_of (m : NativeMessage) : Settlement :=
  if truthy (m_error m) then Rejected (js_to_string (m_error m)) else Resolved m.

Definition settle_effect (id : Z) (m : NativeMessage) : Effect :=
  if truthy (m_error m) then EReject (Some id) (js_to_string (m_error m))
  else EResolve id m.

Definition is_event (m : NativeMessage) (kind : string) : bool :=
  strict_eq_str (m_type m) kind && truthy (m_downloadId m).

Definition event_effects (m : NativeMessage) : list Effect :=
  (if is_event m "progress"
   then [ERuntimeSend "downloadProgress" (m_downloadId m) (m_progress m)] else [])
  ++ (if is_event m "complete"
      then [ERuntimeSend "downloadComplete" (m_downloadId m) (m_filename m);
            ENotification "Download Complete"
              (JStr (js_to_string (m_filename m)
                       ++ " has been downloaded successfully.")) 2]
      else [])
  ++ (if is_event m "error"
      then [ERuntimeSend "downloadError" (m_downloadId m) (m_error m);
            ENotification "Download Failed"
              (js_or (m_error m) (JStr "An error occurred during download.")) 2]
      else []).

Definition table_after_event (m : NativeMessage) (dc : JsMap string bool)
  : JsMap string bool :=
  let dc1 := if is_event m "complete" then download_delete (m_downloadId m) dc else dc in
  if is_event m "error" then download_delete (m_downloadId m) dc1 else dc1.

(** The call that a request makes on the native host. *)
Definition request_call (req : nat) (r : Request) (env : Env)
  : option (string * list (string * JsVal) * Caller) :=
  match r with
  | ReqTestConnection => Some ("test", [], CallTest req)
  | ReqStartDownload options =>
      let downloadId := make_downloadId env in
      Some ("download",
            [("downloadId", JStr downloadId); ("url", url options);
             ("format", format options); ("output", output options);
             ("extension", extension options); ("subtitles", subtitles options);
             ("audioOnly", audioOnly options); ("audioQuality", audioQuality options);
             ("title", title options)],
            CallDownload downloadId)
  | ReqCancelDownload downloadId =>
      Some ("cancel", [("downloadId", downloadId)], CallCancel req downloadId)
  | ReqSelectDirectory => Some ("selectDirectory", [], CallSelectDirectory req)
  | ReqOpenFolder path => Some ("openFolder", [("path", path)], CallOpenFolder req)
  | ReqOpenPopup _ | ReqUnknown => None
  end.

(** One turn of the event loop, seen from the bridge: the new bridge fields
    and the effects that are not quiet. *)
Inductive bridge_trans (w : World) : Bridge -> Event -> list Effect -> Prop :=
| BT_quiet (e : Event) :
    match e with
    | EvRequest _ r _ => is_bridge_request r = false
    | EvNativeMessage m =>
        nativePort w = None \/
        truthy (m_id m) && pending_has (m_id m) (pendingCallbacks w) = false
    | EvDisconnect => nativePort w = None
    | EvTimer id => take_due_timer id (clock w) (timers w) = None
    | EvElapse _ => False
    | EvKeepAlive | EvStorageDone _ _ => True
    end ->
    bridge_trans w (bridge_of w) e []
| BT_elapse (ms : Z) :
    bridge_trans w
      (nativePort w, pendingCallbacks w, messageId w, timers w, clock w + Z.max 0 ms)
      (EvElapse ms) []
| BT_noconnect (req : nat) (r : Request) (env : Env) :
    is_bridge_request r = true ->
    nativePort w = None -> env_connect_ok env = false ->
    bridge_trans w (bridge_of w) (EvRequest req r env)
      [EConnectNative NATIVE_HOST_NAME false; EReject None FAILED_TO_CONNECT]
| BT_sent (req : nat) (r : Request) (env : Env) action data k :
    request_call req r env = Some (action, data, k) ->
    is_download_call k = String.eqb action "download" ->
    port_absent w && negb (env_connect_ok env) = false ->
    env_post_error env = None ->
    bridge_trans w
      (port_after_connect w,
       map_set Z.eqb (js_incr (messageId w)) k (pendingCallbacks w),
       js_incr (messageId w),
       timers_after action (js_incr (messageId w)) (clock w) k (timers w),
       clock w)
      (EvRequest req r env)
      (connect_effects w true ++ timer_effects action (js_incr (messageId w))
         ++ [EPostMessage (mkOutMessage (js_incr (messageId w)) action data)])
| BT_threw (req : nat) (r : Request) (env : Env) action data k err :
    request_call req r env = Some (action, data, k) ->
    is_download_call k = String.eqb action "download" ->
    port_absent w && negb (env_connect_ok env) = false ->
    env_post_error env = Some err ->
    bridge_trans w
      (port_after_connect w,
       map_delete Z.eqb (js_incr (messageId w))
         (map_set Z.eqb (js_incr (messageId w)) k (pendingCallbacks w)),
       js_incr (messageId w),
       timers_after action (js_incr (messageId w)) (clock w) k (timers w),
       clock w)
      (EvRequest req r env)
      (connect_effects w true ++ timer_effects action (js_incr (messageId w))
         ++ [EReject (Some (js_incr (messageId w))) err])
| BT_response (m : NativeMessage) (n : Z) (c : Caller) :
    m_id m = JNum n -> n <> 0 ->
    map_get Z.eqb n (pendingCallbacks w) = Some c ->
    bridge_trans w
      (nativePort w, map_delete Z.eqb n (pendingCallbacks w), messageId w,
       timers w, clock w)
      (EvNativeMessage m) [settle_effect n m]
| BT_disconnect :
    bridge_trans w (None, [], messageId w, timers w, clock w)
      EvDisconnect (reject_all_effects (pendingCallbacks w))
| BT_timeout (id : Z) (t : Timer) (rest : list Timer) :
    take_due_timer id (clock w) (timers w) = Some (t, rest) ->
    map_has Z.eqb (t_id t) (pendingCallbacks w) = true ->
    bridge_trans w
      (nativePort w, map_delete Z.eqb (t_id t) (pendingCallbacks w), messageId w,
       rest, clock w)
      (EvTimer id) [EReject (Some (t_id t)) TIMED_OUT]
| BT_stale_timer (id : Z) (t : Timer) (rest : list Timer) :
    take_due_timer id (clock w) (timers w) = Some (t, rest) ->
    map_has Z.eqb (t_id t) (pendingCallbacks w) = false ->
    bridge_trans w
      (nativePort w, pendingCallbacks w, messageId w, rest, clock w)
      (EvTimer id) [].

(** ** Sample inputs *)

Definition env0 : Env := mkEnv true None 1700000000000 "0.4fzyo82mvyr".

Definition options0 : DownloadOptions :=
  mkDownloadOptions (JStr "https://www.youtube.com/watch?v=abc") (JStr "best")
    (JStr "~/Downloads") (JStr "mp4") (JBool false) (JBool false) JNull
    (JStr "A video").

(** ["download_1700000000000_4fzyo82mv"] *)
Definition job0 : string := make_downloadId env0.

(** A correlated response [{ id, error }]. *)
Definition response (id : Z) (error : JsVal) : NativeMessage :=
  mkNativeMessage (JNum id) error JUndefined JUndefined JUndefined JUndefined
    JUndefined JUndefined JUndefined.

(** A reply to the test call: [{ id, ytdlpVersion, ffmpegVersion }]. *)
Definition test_response (id : Z) (ytdlp ffmpeg : string) : NativeMessage :=
  mkNativeMessage (JNum id) JUndefined JUndefined JUndefined JUndefined JUndefined
    (JStr ytdlp) (JStr ffmpeg) JUndefined.

(** A progress event [{ type: 'progress', downloadId, progress }]. *)
Definition progress_event (downloadId : string) (progress : string) : NativeMessage :=
  mkNativeMessage JUndefined JUndefined (JStr "progress") (JStr downloadId)
    (JObj progress) JUndefined JUndefined JUndefined JUndefined.

(** Start a download, cancel it, and let the worker acknowledge the cancel. *)
Definition cancelled_run : list Event :=
  [EvRequest 0 (ReqStartDownload options0) env0;
   EvRequest 1 (ReqCancelDownload (JStr job0)) env0;
   EvNativeMessage (response 2 JUndefined)].

Definition is_response (e : Effect) : bool :=
  match e with
  | ESendResponse _ _ => true
  | _ => false
  end.

(** What the UI was answered. *)
Definition responses (t : list Effect) : list Effect := filter is_response t.

(** Start a download, cancel it, and let the worker refuse the cancel. *)
Definition refused_cancel_run : list Event :=
  [EvRequest 0 (ReqStartDownload options0) env0;
   EvRequest 1 (ReqCancelDownload (JStr job0)) env0;
   EvNativeMessage (response 2 (JStr "No such download"))].

(** Start a download, cancel it, and let the cancel call time out. *)
Definition timed_out_cancel_run : list Event :=
  [EvRequest 0 (ReqStartDownload options0) env0;
   EvRequest 1 (ReqCancelDownload (JStr job0)) env0;
   EvElapse 30000;
   EvTimer 2].

(** "The request carries a target resource locator and a label." *)
Definition carries_locator_and_label (options : DownloadOptions) : bool :=
  truthy (url options) && truthy (title options).

(** A start request with neither a url nor a title. *)
Definition options_without_url_and_title : DownloadOptions :=
  mkDownloadOptions JUndefined (JStr "best") (JStr "~/Downloads") (JStr "mp4")
    (JBool false) (JBool false) JNull JUndefined.

(** The payload of the download call. *)
Definition download_data (downloadId : string) (options : DownloadOptions)
  : list (string * JsVal) :=
  [("downloadId", JStr downloadId); ("url", url options);
   ("format", format options); ("output", output options);
   ("extension", extension options); ("subtitles", subtitles options);
   ("audioOnly", audioOnly options); ("audioQuality", audioQuality options);
   ("title", title options)].

(** The error event of job [downloadId] with reason [message]. *)
Definition job_error_effects (downloadId message : string) : list Effect :=
  [ERuntimeSend "downloadError" (JStr downloadId) (JStr message);
   ENotification "Download Failed"
     (js_or (JStr message) (JStr "An error occurred during download.")) 2].

(** A test call, a download, the answer to the test call, the same answer
    again, and a disconnect. *)
Definition duplicate_response_run : list Event :=
  [EvRequest 0 ReqTestConnection env0;
   EvRequest 1 (ReqStartDownload options0) env0;
   EvNativeMessage (test_response 1 "2024.01.01" "6.1");
   EvNativeMessage (test_response 1 "2024.01.01" "6.1");
   EvDisconnect].

(** A test call followed by 30 seconds without an answer. *)
Definition unanswered_test_run : list Event :=
  [EvRequest 0 ReqTestConnection env0; EvElapse 30000].

(** The host cannot be launched: connectNative throws. *)
Definition env_no_host : Env := mkEnv false None 1700000000000 "0.4fzyo82mvyr".

(** What [handleTestConnection] answers when its call settles with [o]. *)
Definition test_answer (o : Settlement) : Response :=
  match o with
  | Resolved response =>
      RespConnected (m_ytdlpVersion response) (m_ffmpegVersion response)
  | Rejected message => RespNotConnected message
  end.

(** The write to the port throws. *)
Definition env_post_throws : Env :=
  mkEnv true (Some "Attempting to use a disconnected port object")
    1700000000000 "0.4fzyo82mvyr".

(** The ids of the messages written to the port, oldest first. *)
Definition posted_ids (t : list Effect) : list Z :=
  flat_map (fun e => match e with EPostMessage m => [o_id m] | _ => [] end) t.

(** A terminal job event [{ type, downloadId }] with a file name or a reason. *)
Definition terminal_event (type downloadId : string) (detail : JsVal) : NativeMessage :=
  mkNativeMessage JUndefined detail (JStr type) (JStr downloadId) JUndefined detail
    JUndefined JUndefined JUndefined.

(** Two downloads in flight. *)
Definition env1 : Env := mkEnv true None 1700000000500 "0.9k2j5h7d1qw".

Definition job1 : string := make_downloadId env1.

Definition two_jobs_run : list Event :=
  [EvRequest 0 (ReqStartDownload options0) env0;
   EvRequest 1 (ReqStartDownload options0) env1].

(** The ledger of a run: the ids written to the port grow strictly, all of
    them were handed out by the counter, and a call is pending exactly when
    its request was written and it has not been settled. *)
Definition ledger_ok (pc : JsMap Z Caller) (mid : Z) (t : list Effect) : Prop :=
  0 <= mid /\
  StronglySorted Z.lt (posted_ids t) /\
  (forall id, In id (posted_ids t) -> 1 <= id <= mid) /\
  (forall id, map_has Z.eqb id pc = true <->
              In id (posted_ids t) /\ ~ In id (settled_ids t)).

(** A test call that is answered, and the 30 seconds after it. *)
Definition answered_test_run : list Event :=
  [EvRequest 0 ReqTestConnection env0;
   EvNativeMessage (test_response 1 "2024.01.01" "6.1");
   EvElapse 30000].

(** What [handleSelectDirectory] makes the listener answer when its call
    settles with [o]. *)
Definition select_answer (o : Settlement) : Response :=
  match o with
  | Resolved response => RespPath (m_path response)
  | Rejected message => RespError message
  end.

(** What [handleOpenFolder] makes the listener answer when its call settles
    with [o]. *)
Definition open_answer (o : Settlement) : Response :=
  match o with
  | Resolved _ => RespSuccess
  | Rejected message => RespError message
  end.

(** The answer to the directory dialog: [{ id, path }]. *)
Definition path_response (id : Z) (path : string) : NativeMessage :=
  mkNativeMessage (JNum id) JUndefined JUndefined JUndefined JUndefined JUndefined
    JUndefined JUndefined (JStr path).

(** ** The popup (popup.js) and the options page (options.js)

    The two pages that send the requests above and receive the answers and
    the job notifications.  Of the DOM only what the functions below write is
    kept: the [hidden] class of the elements, the classes and texts of the
    connection status, and the values assigned to the texts. *)

(** The fields that the pages read from an answer of the service worker. *)
Definition response_error (r : Response) : JsVal :=
  match r with
  | RespNotConnected e | RespError e => JStr e
  | _ => JUndefined
  end.

Definition response_connected (r : Response) : JsVal :=
  match r with
  | RespConnected _ _ => JBool true
  | RespNotConnected _ => JBool false
  | _ => JUndefined
  end.

Definition response_ytdlpVersion (r : Response) : JsVal :=
  match r with
  | RespConnected v _ => v
  | _ => JUndefined
  end.

Definition response_ffmpegVersion (r : Response) : JsVal :=
  match r with
  | RespConnected _ v => v
  | _ => JUndefined
  end.

(** How the promise of [sendToServiceWorker] ends. *)
Inductive UiResult : Type :=
| UiResolved (response : option Response)
| UiRejected (message : string).

(** The callback that [sendToServiceWorker] passes to
    [chrome.runtime.sendMessage]: [lastError] is [chrome.runtime.lastError]
    (its message), [response] is what the listener answered, if anything. *)
Definition sendToServiceWorker (lastError : option string) (response : option Response)
  : UiResult :=
  match lastError with
  | Some message => UiRejected message
  | None =>
      match response with
      | Some r =>
          if truthy (response_error r)
          then UiRejected (js_to_string (response_error r))
          else UiResolved response
      | None => UiResolved None
      end
  end.

(** [classList.toggle(token, force)]: without a force (or with [undefined])
    the token is flipped, otherwise it is set to the truth of [force]. *)
Definition classList_toggle (present : bool) (force : JsVal) : bool :=
  match force with
  | JUndefined => negb present
  | _ => truthy force
  end.

(** [!v] *)
Definition js_not (v : JsVal) : JsVal := JBool (negb (truthy v)).

(** The connection status of the popup's settings dialog. *)
Record StatusView : Type := mkStatusView {
  class_connected : bool;
  class_disconnected : bool;
  statusText : string;
  ytdlpVersionText : JsVal;
  ffmpegVersionText : JsVal
}.

Definition updateConnectionStatus (connected ytdlpVersion ffmpegVersion : JsVal)
    (v : StatusView) : StatusView :=
  {| class_connected := classList_toggle (class_connected v) connected;
     class_disconnected := classList_toggle (class_disconnected v) (js_not connected);
     statusText := if truthy connected then "Connected" else "Disconnected";
     ytdlpVersionText :=
       if truthy ytdlpVersion then ytdlpVersion else ytdlpVersionText v;
     ffmpegVersionText :=
       if truthy ffmpegVersion then ffmpegVersion else ffmpegVersionText v |}.

(** [testNativeConnection] of the popup, from the answer on: what it returns
    and what it displays.  Reading a field of an absent response throws, which
    lands in the catch branch like a rejection. *)
Definition testNativeConnection (lastError : option string) (response : option Response)
    (v : StatusView) : JsVal * StatusView :=
  match sendToServiceWorker lastError response with
  | UiResolved (Some r) =>
      (response_connected r,
       updateConnectionStatus (response_connected r) (response_ytdlpVersion r)
         (response_ffmpegVersion r) v)
  | UiResolved None | UiRejected _ =>
      (JBool false, updateConnectionStatus (JBool false) JNull JNull v)
  end.

(** The host status of the options page. *)
Record OptionsView : Type := mkOptionsView {
  hostStatusText : string;
  hostStatusClass : string;
  optionsYtdlpText : JsVal;
  optionsFfmpegText : JsVal
}.

(** [testConnection] of the options page, from the answer on; [inl] is a
    rejected [chrome.runtime.sendMessage]. *)
Definition testConnection (answer : string + option Response) (v : OptionsView)
  : bool * OptionsView :=
  match answer with
  | inl _ =>
      (false,
       mkOptionsView "Error" "status-badge disconnected"
         (optionsYtdlpText v) (optionsFfmpegText v))
  | inr (Some r) =>
      if truthy (response_connected r) then
        (true,
         mkOptionsView "Connected" "status-badge connected"
           (js_or (response_ytdlpVersion r) (JStr "Unknown"))
           (js_or (response_ffmpegVersion r) (JStr "Unknown")))
      else
        (false,
         mkOptionsView "Disconnected" "status-badge disconnected" (JStr "--") (JStr "--"))
  | inr None =>
      (false,
       mkOptionsView "Disconnected" "status-badge disconnected" (JStr "--") (JStr "--"))
  end.

Definition is_resolved (o : Settlement) : bool :=
  match o with
  | Resolved _ => true
  | Rejected _ => false
  end.

(** The six views of the popup. *)
Definition popup_states : list string :=
  ["loadingState"; "notYoutubeState"; "videoInfoState"; "progressState";
   "successState"; "errorState"].

(** [showState(stateName)]; [hidden] tells which elements carry the class
    [hidden]. *)
Definition showState (stateName : string) (hidden : string -> bool) : string -> bool :=
  fold_left
    (fun (h : string -> bool) s =>
       fun x => if String.eqb x s then negb (String.eqb s stateName) else h x)
    popup_states hidden.

(** The variables and elements of the popup that the functions below write. *)
Record PopupState : Type := mkPopupState {
  currentVideoInfo : JsVal;
  isDownloading : bool;
  currentDownloadId : JsVal;
  hidden : string -> bool;
  errorMessageText : JsVal;
  successFilenameText : JsVal
}.

(** What the popup asks of its collaborators. *)
Inductive PopupEffect : Type :=
| PUpdateProgress (progress : JsVal)      (* updateProgress(message.progress) *)
| PAddToHistory (filename : JsVal).        (* addToHistory({ ..., filename }) *)

Definition showError (message : JsVal) (st : PopupState) : PopupState :=
  mkPopupState (currentVideoInfo st) (isDownloading st) (currentDownloadId st)
    (showState "errorState" (hidden st)) message (successFilenameText st).

Definition showSuccess (filename : JsVal) (st : PopupState)
  : PopupState * list PopupEffect :=
  (mkPopupState (currentVideoInfo st) (isDownloading st) (currentDownloadId st)
     (showState "successState" (hidden st)) (errorMessageText st) filename,
   if truthy (currentVideoInfo st) then [PAddToHistory filename] else []).

Definition clear_currentDownloadId (st : PopupState) : PopupState :=
  mkPopupState (currentVideoInfo st) (isDownloading st) JNull (hidden st)
    (errorMessageText st) (successFilenameText st).

(** The popup's [chrome.runtime.onMessage] listener, on a notification
    [{ action, downloadId, ... }] of the service worker; [payload] is the
    [progress], [filename] or [error] of the notification. *)
Definition popupOnMessage (action : string) (downloadId payload : JsVal)
    (st : PopupState) : PopupState * list PopupEffect :=
  if String.eqb action "downloadProgress" then
    (st, [PUpdateProgress payload])
  else if String.eqb action "downloadComplete" then
    let '(st', eff) := showSuccess payload st in
    (clear_currentDownloadId st', eff)
  else if String.eqb action "downloadError" then
    (clear_currentDownloadId (showError payload st), [])
  else (st, []).

(** [cancelDownload] of the popup up to its [await]: the [downloadId] of the
    cancel request it sends, if it sends one. *)
Definition cancelDownload_request (st : PopupState) : option JsVal :=
  if truthy (currentDownloadId st) then Some (currentDownloadId st) else None.

(** [cancelDownload] from the answer on ([None] when nothing was sent). *)
Definition cancelDownload_finish (result : option UiResult) (st : PopupState)
  : PopupState :=
  match result with
  | Some (UiResolved _) =>
      mkPopupState (currentVideoInfo st) (isDownloading st) JNull
        (showState "videoInfoState" (hidden st))
        (errorMessageText st) (successFilenameText st)
  | Some (UiRejected _) | None => clear_currentDownloadId st
  end.

(** [addToHistory]: the list written back to the store, given the stored one
    ([None] when there is none yet) and the new entry with its timestamp. *)
Definition addToHistory {A : Type} (item : A) (stored : option (list A)) : list A :=
  let history := item :: match stored with Some h => h | None => [] end in
  if Nat.ltb 50 (List.length history) then firstn 50 history else history.

(** A popup that tracks [job0] and shows its progress. *)
Definition popup0 : PopupState :=
  mkPopupState (JObj "{videoId}") false (JStr job0)
    (showState "progressState" (fun _ => true)) JUndefined JUndefined.

Definition status0 : StatusView :=
  mkStatusView false true "Disconnected" (JStr "--") (JStr "--").

Definition is_port_teardown (e : Effect) : bool :=
  match e with
  | EPortDisconnect => true
  | _ => false
  end.

(** How often [nativePort.disconnect()] was called. *)
Definition port_teardowns (t : list Effect) : nat :=
  List.length (filter is_port_teardown t).

(** ** Starting a download from the popup *)

Definition response_downloadId (r : Response) : JsVal :=
  match r with
  | RespDownloadId d => JStr d
  | _ => JUndefined
  end.

(** The message of the TypeError of [response.downloadId] on an undefined
    response. *)
Definition UNDEFINED_RESPONSE : string :=
  "Cannot read properties of undefined (reading 'downloadId')".

Definition with_isDownloading (b : bool) (st : PopupState) : PopupState :=
  mkPopupState (currentVideoInfo st) b (currentDownloadId st) (hidden st)
    (errorMessageText st) (successFilenameText st).

(** [startDownload] of the popup up to the request it sends.  [built] is the
    outcome of reading the selected format from the drop-downs: the download
    options, or the message of the error thrown while reading them.  The
    result is [None] when the function returns at once; otherwise the state
    at the first [await] (or at the end, when nothing is sent) and the
    options of the request sent, if one is sent.  The download button and the
    progress texts are left out. *)
Definition startDownload_begin (built : string + DownloadOptions) (st : PopupState)
  : option (PopupState * option DownloadOptions) :=
  if isDownloading st || negb (truthy (currentVideoInfo st)) then None
  else
    match built with
    | inl message =>
        Some (with_isDownloading false
                (showError (JStr message) (with_isDownloading true st)), None)
    | inr options =>
        Some (mkPopupState (currentVideoInfo st) true (currentDownloadId st)
                (showState "progressState" (hidden st))
                (errorMessageText st) (successFilenameText st),
              Some options)
    end.

(** [startDownload] from the answer on. *)
Definition startDownload_finish (result : UiResult) (st : PopupState) : PopupState :=
  match result with
  | UiResolved (Some r) =>
      mkPopupState (currentVideoInfo st) false (response_downloadId r) (hidden st)
        (errorMessageText st) (successFilenameText st)
  | UiResolved None =>
      with_isDownloading false (showError (JStr UNDEFINED_RESPONSE) st)
  | UiRejected message =>
      with_isDownloading false (showError (JStr message) st)
  end.

(** ** The storage module

    The settings store: [chrome.storage.local] behind getters that fall back
    to [DEFAULT_SETTINGS].  A value read from the store is a copy; the value
    of a default is the object of [DEFAULT_SETTINGS] itself, which matters
    for the one default that is an array.  The keys are the members of
    [STORAGE_KEYS]. *)
Module Storage.

(** [{ ...item, timestamp }] *)
Record HistoryEntry : Type := mkHistoryEntry {
  entry_item : JsVal;
  entry_timestamp : Z
}.

(** The values that the module keeps: the settings are strings and
    booleans, the history is an array of entries. *)
Inductive Value : Type :=
| VBool (b : bool)
| VStr (s : string)
| VArray (items : list HistoryEntry).

(** [local] is the content of [chrome.storage.local]; [defaultHistory] is
    the content of the array object [DEFAULT_SETTINGS.downloadHistory]. *)
Record Store : Type := mkStore {
  local : JsMap string Value;
  defaultHistory : list HistoryEntry
}.

(** The members of [STORAGE_KEYS]. *)
Inductive Key : Type :=
| DOWNLOAD_PATH
| AUTO_SELECT_BEST
| REMEMBER_QUALITY
| DEFAULT_SUBTITLES
| DEFAULT_VIDEO_FORMAT
| DEFAULT_AUDIO_FORMAT
| LAST_QUALITY
| LAST_FORMAT
| LAST_AUDIO_QUALITY
| DOWNLOAD_HISTORY.

(** [STORAGE_KEYS.k]: the name under which the store keeps the setting. *)
Definition STORAGE_KEYS (k : Key) : string :=
  match k with
  | DOWNLOAD_PATH => "downloadPath"
  | AUTO_SELECT_BEST => "autoSelectBest"
  | REMEMBER_QUALITY => "rememberQuality"
  | DEFAULT_SUBTITLES => "defaultSubtitles"
  | DEFAULT_VIDEO_FORMAT => "defaultVideoFormat"
  | DEFAULT_AUDIO_FORMAT => "defaultAudioFormat"
  | LAST_QUALITY => "lastQuality"
  | LAST_FORMAT => "lastFormat"
  | LAST_AUDIO_QUALITY => "lastAudioQuality"
  | DOWNLOAD_HISTORY => "downloadHistory"
  end.

(** The members in the order of [Object.values(STORAGE_KEYS)]. *)
Definition all_keys : list Key :=
  [DOWNLOAD_PATH; AUTO_SELECT_BEST; REMEMBER_QUALITY; DEFAULT_SUBTITLES;
   DEFAULT_VIDEO_FORMAT; DEFAULT_AUDIO_FORMAT; LAST_QUALITY; LAST_FORMAT;
   LAST_AUDIO_QUALITY; DOWNLOAD_HISTORY].

Definition DEFAULT_SETTINGS (s : Store) : JsMap string Value :=
  [(STORAGE_KEYS DOWNLOAD_PATH, VStr "~/Downloads");
   (STORAGE_KEYS AUTO_SELECT_BEST, VBool true);
   (STORAGE_KEYS REMEMBER_QUALITY, VBool false);
   (STORAGE_KEYS DEFAULT_SUBTITLES, VBool false);
   (STORAGE_KEYS DEFAULT_VIDEO_FORMAT, VStr "mp4");
   (STORAGE_KEYS DEFAULT_AUDIO_FORMAT, VStr "mp3-320");
   (STORAGE_KEYS LAST_QUALITY, VStr "best");
   (STORAGE_KEYS LAST_FORMAT, VStr "mp4");
   (STORAGE_KEYS LAST_AUDIO_QUALITY, VStr "mp3-320");
   (STORAGE_KEYS DOWNLOAD_HISTORY, VArray (defaultHistory s))].

(** What a getter returns: a copy read from the store, or the entry of
    [DEFAULT_SETTINGS] itself ([None] is [undefined]). *)
Inductive Got : Type :=
| GotStored (v : Value)
| GotDefault (v : option Value).

Definition got_value (g : Got) : option Value :=
  match g with
  | GotStored v => Some v
  | GotDefault v => v
  end.

(** [get(key)]; [ok] tells whether [chrome.storage.local.get] resolves. *)
Definition get (key : Key) (ok : bool) (s : Store) : Got :=
  if ok then
    match map_get String.eqb (STORAGE_KEYS key) (local s) with
    | Some v => GotStored v
    | None => GotDefault (map_get String.eqb (STORAGE_KEYS key) (DEFAULT_SETTINGS s))
    end
  else GotDefault (map_get String.eqb (STORAGE_KEYS key) (DEFAULT_SETTINGS s)).

(** [getMultiple(keys)]: the [output] object. *)
Definition getMultiple (keys : list Key) (ok : bool) (s : Store)
  : JsMap string (option Value) :=
  if ok then
    fold_left
      (fun output key =>
         map_set String.eqb (STORAGE_KEYS key)
           (match map_get String.eqb (STORAGE_KEYS key) (local s) with
            | Some v => Some v
            | None => map_get String.eqb (STORAGE_KEYS key) (DEFAULT_SETTINGS s)
            end) output)
      keys []
  else
    fold_left
      (fun output key =>
         map_set String.eqb (STORAGE_KEYS key)
           (map_get String.eqb (STORAGE_KEYS key) (DEFAULT_SETTINGS s)) output)
      keys [].

Definition getAll (ok : bool) (s : Store) : JsMap string (option Value) :=
  getMultiple all_keys ok s.

(** [chrome.storage.local.set(data)] when it resolves. *)
Definition local_set (data : JsMap string Value) (m : JsMap string Value)
  : JsMap string Value :=
  fold_left (fun m kv => map_set String.eqb (fst kv) (snd kv) m) data m.

(** [set(key, value)]; [ok] tells whether [chrome.storage.local.set]
    resolves. *)
Definition set (key : Key) (value : Value) (ok : bool) (s : Store) : bool * Store :=
  if ok then
    (true, mkStore (local_set [(STORAGE_KEYS key, value)] (local s)) (defaultHistory s))
  else (false, s).

Definition setMultiple (data : JsMap string Value) (ok : bool) (s : Store)
  : bool * Store :=
  if ok then (true, mkStore (local_set data (local s)) (defaultHistory s))
  else (false, s).

Definition resetToDefaults (ok : bool) (s : Store) : bool * Store :=
  if ok then (true, mkStore (local_set (DEFAULT_SETTINGS s) (local s)) (defaultHistory s))
  else (false, s).

(** [history.unshift(entry)] followed by [history.splice(50)] when the
    array has more than 50 elements. *)
Definition unshift_capped (entry : HistoryEntry) (history : list HistoryEntry)
  : list HistoryEntry :=
  let history := entry :: history in
  if Nat.ltb 50 (List.length history) then firstn 50 history else history.

(** [addToHistory(item)]; [now] is [Date.now()], [ok_get] and [ok_set] tell
    whether the read and the write of the store resolve.  The array that
    [get] returned is changed in place: when it is the default itself, the
    default changes with it.  A value that is no array has no [unshift],
    which throws into the catch branch. *)
Definition addToHistory (item : JsVal) (now : Z) (ok_get ok_set : bool) (s : Store)
  : bool * Store :=
  match get DOWNLOAD_HISTORY ok_get s with
  | GotStored (VArray history) =>
      let history := unshift_capped (mkHistoryEntry item now) history in
      (true, snd (set DOWNLOAD_HISTORY (VArray history) ok_set s))
  | GotDefault (Some (VArray history)) =>
      let history := unshift_capped (mkHistoryEntry item now) history in
      (true, snd (set DOWNLOAD_HISTORY (VArray history) ok_set
                    (mkStore (local s) history)))
  | _ => (false, s)
  end.

Definition clearHistory (ok : bool) (s : Store) : bool * Store :=
  set DOWNLOAD_HISTORY (VArray []) ok s.

Definition getHistory (ok : bool) (s : Store) : Got :=
  get DOWNLOAD_HISTORY ok s.

(** The module as loaded, over a store with the given content. *)
Definition loaded (content : JsMap string Value) : Store := mkStore content [].

End Storage.

(** ** Choosing the download directory on the options page *)

Definition response_path (r : Response) : JsVal :=
  match r with
  | RespPath p => p
  | _ => JUndefined
  end.

(** [selectDirectory] of the options page, from the answer on ([inl] is a
    rejected [chrome.runtime.sendMessage]): the value of the path field
    afterwards and the [saveSettings] calls made. *)
Definition selectDirectory (answer : string + option Response) (downloadPathValue : JsVal)
  : JsVal * list (string * JsVal) :=
  match answer with
  | inr (Some response) =>
      if truthy (response_path response)
      then (response_path response, [("downloadPath", response_path response)])
      else (downloadPathValue, [])
  | _ => (downloadPathValue, [])
  end.

(** What [handleCancelDownload] makes the listener answer when its call
    settles with [o]. *)
Definition cancel_answer (o : Settlement) : Response :=
  match o with
  | Resolved _ => RespSuccess
  | Rejected message => RespError message
  end.

(** What the call site behind a pending entry answers when the call settles
    with [o]: the request that made the call gets the answer of its handler;
    the download call answers nobody, its request was answered when the call
    was made. *)
Definition caller_answer (c : Caller) (o : Settlement) : list Effect :=
  match c with
  | CallTest req => [ESendResponse req (test_answer o)]
  | CallDownload _ => []
  | CallCancel req _ => [ESendResponse req (cancel_answer o)]
  | CallSelectDirectory req => [ESendResponse req (select_answer o)]
  | CallOpenFolder req => [ESendResponse req (open_answer o)]
  end.

(** The requests whose call carries the timeout: every request that goes to
    the native host, except the start of a download. *)
Definition is_timed_request (r : Request) : bool :=
  match r with
  | ReqTestConnection | ReqCancelDownload _ | ReqSelectDirectory | ReqOpenFolder _ => true
  | ReqStartDownload _ | ReqOpenPopup _ | ReqUnknown => false
  end.

(** What the service worker sends to the popup, in the order it is sent: the
    job notifications and the answers to the popup's requests. *)
Definition is_sent_to_popup (e : Effect) : bool :=
  match e with
  | ERuntimeSend _ _ _ | ESendResponse _ _ => true
  | _ => false
  end.

Definition sent_to_popup (t : list Effect) : list Effect := filter is_sent_to_popup t.

(** ** Facts about the monad *)

Lemma world_of_bind {A B : Type} (c : M A) (k : A -> M B) (w : World) :
  world_of (bind c k w) = world_of (k (value_of (c w)) (world_of (c w))).
Proof.
  unfold bind, world_of, value_of.
  destruct (c w) as [[a w1] t1]; simpl.
  destruct (k a w1) as [[b w2] t2]; reflexivity.
Qed.

Lemma effects_of_bind {A B : Type} (c : M A) (k : A -> M B) (w : World) :
  effects_of (bind c k w) =
  effects_of (c w) ++ effects_of (k (value_of (c w)) (world_of (c w))).
Proof.
  unfold bind, effects_of, world_of, value_of.
  destruct (c w) as [[a w1] t1]; simpl.
  destruct (k a w1) as [[b w2] t2]; reflexivity.
Qed.

Lemma value_of_bind {A B : Type} (c : M A) (k : A -> M B) (w : World) :
  value_of (bind c k w) = value_of (k (value_of (c w)) (world_of (c w))).
Proof.
  unfold bind, world_of, value_of.
  destruct (c w) as [[a w1] t1]; simpl.
  destruct (k a w1) as [[b w2] t2]; reflexivity.
Qed.

Lemma same_bridge_refl (w : World) : same_bridge w w.
Proof. reflexivity. Qed.

Lemma same_bridge_trans (w1 w2 w3 : World) :
  same_bridge w1 w2 -> same_bridge w2 w3 -> same_bridge w1 w3.
Proof. unfold same_bridge; congruence. Qed.

(** ** Facts about [Map] *)

Section JsMapFacts.
Context {K V : Type}.
Variable eqb : K -> K -> bool.
Hypothesis eqb_spec : forall a b, reflect (a = b) (eqb a b).

Lemma map_has_In (k : K) (m : JsMap K V) :
  map_has eqb k m = true <-> In k (map_keys m).
Proof.
  induction m as [|[k' v'] r IH]; simpl.
  - split; [discriminate | tauto].
  - destruct (eqb_spec k k') as [->|ne].
    + split; auto.
    + rewrite IH. split; [auto | intros [e|i]; [congruence | exact i]].
Qed.

Lemma map_has_false (k : K) (m : JsMap K V) :
  map_has eqb k m = false <-> ~ In k (map_keys m).
Proof.
  rewrite <- map_has_In. destruct (map_has eqb k m); split; congruence.
Qed.

Lemma map_get_has (k : K) (m : JsMap K V) :
  map_has eqb k m = match map_get eqb k m with Some _ => true | None => false end.
Proof.
  induction m as [|[k' v'] r IH]; simpl; [reflexivity|].
  destruct (eqb k k'); auto.
Qed.

Lemma map_delete_absent (k : K) (m : JsMap K V) :
  map_has eqb k m = false -> map_delete eqb k m = m.
Proof.
  induction m as [|[k' v'] r IH]; simpl; [reflexivity|].
  destruct (eqb k k'); [discriminate|]. intros H; now rewrite IH.
Qed.

Lemma map_delete_set_absent (k : K) (v : V) (m : JsMap K V) :
  map_has eqb k m = false -> map_delete eqb k (map_set eqb k v m) = m.
Proof.
  induction m as [|[k' v'] r IH]; simpl.
  - intros _. destruct (eqb_spec k k); [reflexivity | congruence].
  - destruct (eqb k k') eqn:E; [discriminate|]. intros H.
    simpl. rewrite E. now rewrite IH.
Qed.

Lemma map_set_absent (k : K) (v : V) (m : JsMap K V) :
  map_has eqb k m = false -> map_set eqb k v m = m ++ [(k, v)].
Proof.
  induction m as [|[k' v'] r IH]; simpl; [reflexivity|].
  destruct (eqb k k'); [discriminate|]. intros H; now rewrite IH.
Qed.

Lemma map_keys_delete_incl (k k' : K) (m : JsMap K V) :
  In k' (map_keys (map_delete eqb k m)) -> In k' (map_keys m).
Proof.
  induction m as [|[k0 v0] r IH]; simpl; [tauto|].
  destruct (eqb k k0); simpl; [auto|]. intros [e|i]; auto.
Qed.

Lemma map_keys_set (k k' : K) (v : V) (m : JsMap K V) :
  In k' (map_keys (map_set eqb k v m)) <-> k' = k \/ In k' (map_keys m).
Proof.
  induction m as [|[k0 v0] r IH]; simpl.
  - split; [intros [e|[]]; auto | intros [e|[]]; auto].
  - destruct (eqb_spec k k0) as [->|ne]; simpl.
    + split; [intros [e|i]; auto | intros [e|[e|i]]; auto].
    + rewrite IH. split; [intros [e|[e|i]]; auto | intros [e|[e|i]]; auto].
Qed.

Lemma map_delete_NoDup (k : K) (m : JsMap K V) :
  NoDup (map_keys m) -> NoDup (map_keys (map_delete eqb k m)).
Proof.
  induction m as [|[k0 v0] r IH]; simpl; [auto|].
  intros H; inversion H as [|? ? Hn Hr]; subst.
  destruct (eqb k k0); simpl; [assumption|].
  constructor; [|auto].
  intros Hi; apply Hn. eapply map_keys_delete_incl; eassumption.
Qed.

Lemma map_set_NoDup (k : K) (v : V) (m : JsMap K V) :
  NoDup (map_keys m) -> NoDup (map_keys (map_set eqb k v m)).
Proof.
  induction m as [|[k0 v0] r IH]; simpl.
  - intros _. constructor; [simpl; tauto | constructor].
  - intros H; inversion H as [|? ? Hn Hr]; subst.
    destruct (eqb_spec k k0) as [->|ne]; simpl.
    + constructor; assumption.
    + constructor; [|auto].
      rewrite map_keys_set. intros [e|i]; [congruence | contradiction].
Qed.

Lemma map_delete_removes (k : K) (m : JsMap K V) :
  NoDup (map_keys m) -> map_has eqb k (map_delete eqb k m) = false.
Proof.
  induction m as [|[k0 v0] r IH]; simpl; [reflexivity|].
  intros H; inversion H as [|? ? Hn Hr]; subst.
  destruct (eqb_spec k k0) as [->|ne]; simpl.
  - now apply map_has_false.
  - destruct (eqb_spec k k0); [congruence | auto].
Qed.

Lemma map_get_delete_other (k k' : K) (m : JsMap K V) :
  k' <> k -> map_get eqb k' (map_delete eqb k m) = map_get eqb k' m.
Proof.
  intros ne. induction m as [|[k0 v0] r IH]; simpl; [reflexivity|].
  destruct (eqb_spec k k0) as [->|ne0]; simpl.
  - destruct (eqb_spec k' k0); [congruence | reflexivity].
  - destruct (eqb k' k0); auto.
Qed.

Lemma map_get_delete_same (k : K) (m : JsMap K V) :
  NoDup (map_keys m) -> map_get eqb k (map_delete eqb k m) = None.
Proof.
  intros H. pose proof (map_delete_removes k m H) as E.
  rewrite map_get_has in E. destruct (map_get eqb k (map_delete eqb k m)); congruence.
Qed.

Lemma map_get_set_other (k k' : K) (v : V) (m : JsMap K V) :
  k' <> k -> map_get eqb k' (map_set eqb k v m) = map_get eqb k' m.
Proof.
  intros ne. induction m as [|[k0 v0] r IH]; simpl.
  - destruct (eqb_spec k' k); [congruence | reflexivity].
  - destruct (eqb_spec k k0) as [->|ne0]; simpl.
    + destruct (eqb_spec k' k0); [congruence | reflexivity].
    + destruct (eqb k' k0); auto.
Qed.

Lemma map_get_set_same (k : K) (v : V) (m : JsMap K V) :
  map_get eqb k (map_set eqb k v m) = Some v.
Proof.
  induction m as [|[k0 v0] r IH]; simpl.
  - destruct (eqb_spec k k); [reflexivity | congruence].
  - destruct (eqb_spec k k0) as [->|ne0]; simpl.
    + destruct (eqb_spec k0 k0); [reflexivity | congruence].
    + destruct (eqb_spec k k0); [congruence | auto].
Qed.

Lemma map_has_set_same (k : K) (v : V) (m : JsMap K V) :
  map_has eqb k (map_set eqb k v m) = true.
Proof. rewrite map_get_has, map_get_set_same. reflexivity. Qed.
End JsMapFacts.

(** ** The microtask checkpoint *)

Lemma queue_weight_app (q : list Microtask) (t : Microtask) :
  queue_weight (q ++ [t]) = (queue_weight q + microtask_weight t)%nat.
Proof.
  unfold queue_weight. induction q as [|x q IH]; simpl; [lia|]. rewrite IH. lia.
Qed.

Lemma download_delete_NoDup (v : JsVal) (m : JsMap string bool) :
  NoDup (map_keys m) -> NoDup (map_keys (download_delete v m)).
Proof.
  destruct v; simpl; auto. apply map_delete_NoDup.
Qed.

Lemma runMicrotask_frame (t : Microtask) (w : World) :
  microtask_frame (microtasks w) (microtask_weight t) w
    (world_of (runMicrotask t w)) (effects_of (runMicrotask t w)).
Proof.
  destruct w as [np pc dc mid tm mt ck so].
  destruct t as [c o|req c|req r].
  - destruct c as [req|d|req d|req|req]; destruct o as [m|msg];
      (split; jsimpl;
       [ reflexivity
       | repeat constructor
       | first [ apply download_delete_NoDup
               | apply (map_delete_NoDup String.eqb)
               | exact (fun H => H) ]
       | rewrite ?queue_weight_app; cbn [microtask_weight]; lia ]).
  - split; jsimpl;
      [ reflexivity | constructor | auto
      | rewrite queue_weight_app; cbn [microtask_weight]; lia ].
  - split; jsimpl;
      [ reflexivity | repeat constructor | auto | cbn [microtask_weight]; lia ].
Qed.

Lemma drain_frame (fuel : nat) (w : World) :
  (queue_weight (microtasks w) <= fuel)%nat ->
  same_bridge w (world_of (drain fuel w)) /\
  Forall (fun e => is_quiet e = true) (effects_of (drain fuel w)) /\
  (NoDup (map_keys (downloadCallbacks w)) ->
   NoDup (map_keys (downloadCallbacks (world_of (drain fuel w))))) /\
  microtasks (world_of (drain fuel w)) = [].
Proof.
  revert w. induction fuel as [|fuel IH]; intros w Hle.
  - simpl. destruct (microtasks w) as [|t q] eqn:E.
    + repeat split; auto using same_bridge_refl.
    + exfalso.
      change (queue_weight (t :: q)) with (microtask_weight t + queue_weight q)%nat in Hle.
      destruct t; simpl in Hle; lia.
  - simpl. rewrite world_of_bind, effects_of_bind. cbn [get value_of world_of fst snd].
    destruct (microtasks w) as [|t q] eqn:E.
    + cbn. repeat split; auto using same_bridge_refl.
    + rewrite !world_of_bind, !effects_of_bind.
      cbn [modify value_of world_of effects_of fst snd app].
      set (w0 := with_microtasks q w).
      pose proof (runMicrotask_frame t w0) as F.
      assert (Eq : microtasks w0 = q) by (destruct w; reflexivity).
      rewrite Eq in F. destruct F as [Fb Fq Fn Fw].
      set (w1 := world_of (runMicrotask t w0)) in *.
      destruct (IH w1) as (Hb & Hq & Hn & Hm).
      { change (queue_weight (t :: q))
          with (microtask_weight t + queue_weight q)%nat in Hle.
        subst w1. lia. }
      split; [|split; [|split]].
      * eapply same_bridge_trans; [|exact Hb].
        eapply same_bridge_trans; [|exact Fb].
        destruct w; reflexivity.
      * change (effects_of (get w)) with (@nil Effect). simpl.
        apply Forall_app; split; assumption.
      * intros H. apply Hn, Fn. destruct w; exact H.
      * exact Hm.
Qed.

(** The checkpoint always terminates with an empty queue. *)
Lemma runMicrotasks_frame (w : World) :
  same_bridge w (world_of (runMicrotasks w)) /\
  Forall (fun e => is_quiet e = true) (effects_of (runMicrotasks w)) /\
  (NoDup (map_keys (downloadCallbacks w)) ->
   NoDup (map_keys (downloadCallbacks (world_of (runMicrotasks w))))) /\
  microtasks (world_of (runMicrotasks w)) = [].
Proof.
  unfold runMicrotasks. rewrite world_of_bind, effects_of_bind.
  cbn [get value_of world_of effects_of fst snd app].
  apply drain_frame. lia.
Qed.

(** ** What a task does to the bridge *)

(** The three ways [sendNativeMessage] can go, in closed form. *)
Lemma sendNativeMessage_eq (env : Env) (action : string)
    (data : list (string * JsVal)) (k : Caller) (w : World) :
  sendNativeMessage env action data k w =
  if port_absent w && negb (env_connect_ok env) then
    (tt, with_microtasks (microtasks w ++ [MtAwait k (Rejected FAILED_TO_CONNECT)]) w,
     [EConnectNative NATIVE_HOST_NAME false; EReject None FAILED_TO_CONNECT])
  else
    let id := js_incr (messageId w) in
    match env_post_error env with
    | None =>
        (tt,
         mkWorld (port_after_connect w) (map_set Z.eqb id k (pendingCallbacks w))
           (downloadCallbacks w) id (timers_after action id (clock w) k (timers w))
           (microtasks w) (clock w) (storageOps w),
         connect_effects w true ++ timer_effects action id
           ++ [EPostMessage (mkOutMessage id action data)])
    | Some err =>
        (tt,
         mkWorld (port_after_connect w)
           (map_delete Z.eqb id (map_set Z.eqb id k (pendingCallbacks w)))
           (downloadCallbacks w) id (timers_after action id (clock w) k (timers w))
           (microtasks w ++ [MtAwait k (Rejected err)]) (clock w) (storageOps w),
         connect_effects w true ++ timer_effects action id
           ++ [EReject (Some id) err])
    end.
Proof.
  destruct w as [np pc dc mid tm mt ck so].
  destruct env as [cok perr now rnd].
  unfold sendNativeMessage, setTimeout, postMessage, connectToNativeHost, reject,
    timers_after, timer_effects, connect_effects, port_after_connect, port_absent.
  destruct np as [p|]; [|destruct cok]; destruct perr as [err|];
    destruct (String.eqb action "download"); reflexivity.
Qed.

Lemma with_microtasks_same (w : World) : with_microtasks (microtasks w) w = w.
Proof. destruct w; reflexivity. Qed.

Lemma forEach_reject (pc : JsMap Z Caller) (w : World) :
  forEach (fun callback id => reject (Some id) callback DISCONNECTED) pc w =
  (tt, with_microtasks (microtasks w ++ reject_all_microtasks pc) w,
   reject_all_effects pc).
Proof.
  revert w. induction pc as [|[id c] r IH]; intros w.
  - simpl. rewrite app_nil_r, with_microtasks_same. reflexivity.
  - cbn [forEach]. unfold bind at 1.
    replace (reject (Some id) c DISCONNECTED w)
      with (tt, with_microtasks (microtasks w ++ [MtAwait c (Rejected DISCONNECTED)]) w,
            [EReject (Some id) DISCONNECTED])
      by (destruct w; reflexivity).
    rewrite IH. destruct w; jsimpl. rewrite <- app_assoc. reflexivity.
Qed.

Lemma forEach_connection_lost (dc : JsMap string bool) (w : World) :
  forEach (fun (_ : bool) downloadId =>
             notifyDownloadError (JStr downloadId) (JStr CONNECTION_LOST)) dc w =
  (tt, w, connection_lost_effects dc).
Proof.
  revert w. induction dc as [|[d b] r IH]; intros w; [reflexivity|].
  cbn [forEach]. unfold bind at 1.
  replace (notifyDownloadError (JStr d) (JStr CONNECTION_LOST) w)
    with (tt, w, [ERuntimeSend "downloadError" (JStr d) (JStr CONNECTION_LOST);
                  ENotification "Download Failed" (JStr CONNECTION_LOST) 2])
    by reflexivity.
  rewrite IH. reflexivity.
Qed.

(** A disconnect in closed form: every pending call is rejected, every job is
    told that the connection is lost, and both tables are cleared. *)
Lemma onDisconnect_eq (w : World) :
  onDisconnect w =
  (tt,
   mkWorld None [] [] (messageId w) (timers w)
     (microtasks w ++ reject_all_microtasks (pendingCallbacks w))
     (clock w) (storageOps w),
   reject_all_effects (pendingCallbacks w)
     ++ connection_lost_effects (downloadCallbacks w)).
Proof.
  destruct w as [np pc dc mid tm mt ck so].
  unfold onDisconnect.
  unfold bind at 1. cbn [modify]. unfold bind at 1. cbn [get].
  unfold bind at 1. rewrite forEach_reject.
  unfold bind at 1. cbn [modify]. unfold bind at 1. cbn [get].
  unfold bind at 1.
  rewrite forEach_connection_lost.
  jsimpl. rewrite app_nil_r. reflexivity.
Qed.

Lemma pending_match (v : JsVal) (pc : JsMap Z Caller) :
  truthy v && pending_has v pc = true ->
  exists n c, v = JNum n /\ n <> 0 /\ map_get Z.eqb n pc = Some c.
Proof.
  destruct v as [| |b|n|s|j]; simpl; rewrite ?andb_false_r; try discriminate.
  intros H. apply andb_prop in H as [Hn Hh].
  rewrite (map_get_has Z.eqb) in Hh.
  destruct (map_get Z.eqb n pc) as [c|] eqn:E; [|discriminate].
  exists n, c. repeat split; auto.
  intros ->. discriminate.
Qed.

(** A message that carries the id of a pending call settles that call. *)
Lemma handleNativeMessage_response (m : NativeMessage) (w : World) (n : Z) (c : Caller) :
  m_id m = JNum n -> n <> 0 -> map_get Z.eqb n (pendingCallbacks w) = Some c ->
  handleNativeMessage m w =
  (tt,
   with_microtasks (microtasks w ++ [MtAwait c (settlement_of m)])
     (with_pendingCallbacks (map_delete Z.eqb n (pendingCallbacks w)) w),
   [settle_effect n m]).
Proof.
  intros Hid Hn Hg. destruct w as [np pc dc mid tm mt ck so]. simpl in Hg.
  unfold handleNativeMessage, settlement_of, settle_effect.
  unfold bind at 1. cbn [get pendingCallbacks].
  rewrite Hid. cbn [truthy pending_has pending_get].
  rewrite (map_get_has Z.eqb), Hg.
  destruct (Z.eqb_spec n 0) as [|_]; [contradiction|].
  cbn [negb andb option_map].
  destruct (truthy (m_error m)); reflexivity.
Qed.

(** Any other message is treated as a job event, whatever the job table says. *)
Lemma handleNativeMessage_event (m : NativeMessage) (w : World) :
  truthy (m_id m) && pending_has (m_id m) (pendingCallbacks w) = false ->
  handleNativeMessage m w =
  (tt, with_downloadCallbacks (table_after_event m (downloadCallbacks w)) w,
   event_effects m).
Proof.
  intros H. destruct w as [np pc dc mid tm mt ck so]. simpl in H.
  unfold handleNativeMessage, event_effects, table_after_event, is_event.
  unfold bind at 1. cbn [get pendingCallbacks]. rewrite H.
  destruct (strict_eq_str (m_type m) "progress" && truthy (m_downloadId m));
    destruct (strict_eq_str (m_type m) "complete" && truthy (m_downloadId m));
    destruct (strict_eq_str (m_type m) "error" && truthy (m_downloadId m));
    reflexivity.
Qed.

Lemma onTimeout_eq (t : Timer) (w : World) :
  onTimeout t w =
  if map_has Z.eqb (t_id t) (pendingCallbacks w) then
    (tt,
     with_microtasks (microtasks w ++ [MtAwait (t_callback t) (Rejected TIMED_OUT)])
       (with_pendingCallbacks (map_delete Z.eqb (t_id t) (pendingCallbacks w)) w),
     [EReject (Some (t_id t)) TIMED_OUT])
  else (tt, w, []).
Proof.
  destruct w as [np pc dc mid tm mt ck so].
  unfold onTimeout. unfold bind at 1. cbn [get pendingCallbacks].
  destruct (map_has Z.eqb (t_id t) pc); reflexivity.
Qed.

Lemma loud_app (a b : list Effect) : loud (a ++ b) = loud a ++ loud b.
Proof. apply filter_app. Qed.

Lemma loud_quiet (t : list Effect) :
  Forall (fun e => is_quiet e = true) t -> loud t = [].
Proof.
  induction 1 as [|e t He _ IH]; [reflexivity|].
  unfold loud in *; simpl. rewrite He; simpl. exact IH.
Qed.

Lemma loud_all (t : list Effect) :
  Forall (fun e => is_quiet e = false) t -> loud t = t.
Proof.
  induction 1 as [|e t He _ IH]; [reflexivity|].
  unfold loud in *; simpl. rewrite He; simpl. now rewrite IH.
Qed.

Lemma event_effects_quiet (m : NativeMessage) :
  Forall (fun e => is_quiet e = true) (event_effects m).
Proof.
  unfold event_effects.
  destruct (is_event m "progress"), (is_event m "complete"), (is_event m "error");
    repeat constructor.
Qed.

Lemma connection_lost_effects_quiet (dc : JsMap string bool) :
  Forall (fun e => is_quiet e = true) (connection_lost_effects dc).
Proof.
  induction dc as [|[d b] r IH]; simpl; repeat constructor. exact IH.
Qed.

Lemma reject_all_effects_loud (pc : JsMap Z Caller) :
  loud (reject_all_effects pc) = reject_all_effects pc.
Proof.
  apply loud_all. induction pc as [|[k c] r IH]; simpl; constructor; auto.
Qed.

(** A turn of the loop differs from its task by a microtask checkpoint, which
    the bridge does not see. *)
Lemma step_bridge (e : Event) (w : World) :
  bridge_of (world_of (step e w)) = bridge_of (world_of (dispatch e w)) /\
  loud (effects_of (step e w)) = loud (effects_of (dispatch e w)) /\
  microtasks (world_of (step e w)) = [] /\
  (NoDup (map_keys (downloadCallbacks (world_of (dispatch e w)))) ->
   NoDup (map_keys (downloadCallbacks (world_of (step e w))))).
Proof.
  unfold step. rewrite world_of_bind, effects_of_bind, loud_app.
  destruct (runMicrotasks_frame (world_of (dispatch e w))) as (Hb & Hq & Hn & Hm).
  repeat split; auto.
  rewrite (loud_quiet _ Hq). apply app_nil_r.
Qed.

Lemma connect_effects_loud (w : World) (ok : bool) :
  Forall (fun e => is_quiet e = false) (connect_effects w ok).
Proof. unfold connect_effects. destruct (port_absent w); repeat constructor. Qed.

Lemma timer_effects_loud (action : string) (id : Z) :
  Forall (fun e => is_quiet e = false) (timer_effects action id).
Proof.
  unfold timer_effects. destruct (String.eqb action "download"); repeat constructor.
Qed.

Lemma request_call_kind (req : nat) (r : Request) (env : Env) action data k :
  request_call req r env = Some (action, data, k) ->
  is_download_call k = String.eqb action "download" /\ is_bridge_request r = true.
Proof.
  destruct r; simpl; intros H; inversion H; subst; split; reflexivity.
Qed.

Lemma request_call_none (req : nat) (r : Request) (env : Env) :
  request_call req r env = None <-> is_bridge_request r = false.
Proof. destruct r; simpl; split; congruence. Qed.

(** A bridge request is its call on the host, up to quiet effects. *)
Lemma handleRequest_send (req : nat) (r : Request) (env : Env) (w : World)
    action data k :
  request_call req r env = Some (action, data, k) ->
  bridge_of (world_of (handleRequest req r env w)) =
    bridge_of (world_of (sendNativeMessage env action data k w)) /\
  loud (effects_of (handleRequest req r env w)) =
    loud (effects_of (sendNativeMessage env action data k w)).
Proof.
  destruct r; simpl; intros H; inversion H; subst; clear H;
    try (split; reflexivity).
  unfold handleStartDownload.
  rewrite !world_of_bind, !effects_of_bind, !loud_app.
  cbn [modify emit ret enqueue value_of world_of effects_of fst snd app loud filter
       is_quiet negb].
  rewrite !sendNativeMessage_eq.
  destruct w as [np pc dc mid tm mt ck so].
  unfold port_absent, port_after_connect, connect_effects; jsimpl.
  destruct np; [|destruct (env_connect_ok env)]; destruct (env_post_error env);
    jsimpl; rewrite ?app_nil_r; split; reflexivity.
Qed.

Lemma send_bridge_trans (req : nat) (r : Request) (env : Env) (w : World)
    action data k :
  request_call req r env = Some (action, data, k) ->
  bridge_trans w (bridge_of (world_of (sendNativeMessage env action data k w)))
    (EvRequest req r env)
    (loud (effects_of (sendNativeMessage env action data k w))).
Proof.
  intros Hc. destruct (request_call_kind _ _ _ _ _ _ Hc) as [Hk Hb].
  rewrite sendNativeMessage_eq.
  destruct (port_absent w && negb (env_connect_ok env)) eqn:Hp.
  - apply andb_prop in Hp as [Hp Hok].
    assert (nativePort w = None)
      by (unfold port_absent in Hp; destruct (nativePort w); congruence).
    assert (env_connect_ok env = false) by (destruct (env_connect_ok env); auto; discriminate).
    replace (bridge_of (world_of (tt, with_microtasks
               (microtasks w ++ [MtAwait k (Rejected FAILED_TO_CONNECT)]) w,
               [EConnectNative NATIVE_HOST_NAME false; EReject None FAILED_TO_CONNECT])))
      with (bridge_of w) by (destruct w; reflexivity).
    apply BT_noconnect; assumption.
  - cbv zeta. destruct (env_post_error env) as [err|] eqn:He.
    + cbv [effects_of world_of fst snd bridge_of nativePort pendingCallbacks messageId
           timers clock].
      rewrite loud_all by
        (repeat (apply Forall_app; split);
         auto using connect_effects_loud, timer_effects_loud; repeat constructor).
      eapply BT_threw; eassumption.
    + cbv [effects_of world_of fst snd bridge_of nativePort pendingCallbacks messageId
           timers clock].
      rewrite loud_all by
        (repeat (apply Forall_app; split);
         auto using connect_effects_loud, timer_effects_loud; repeat constructor).
      eapply BT_sent; eassumption.
Qed.

Lemma keepAlive_eq (w : World) : keepAlive w = (tt, w, []).
Proof.
  unfold keepAlive, bind, get, when.
  destruct (Nat.ltb 0 (map_size (downloadCallbacks w))); reflexivity.
Qed.

Lemma dispatch_bridge_trans (e : Event) (w : World) :
  bridge_trans w (bridge_of (world_of (dispatch e w))) e
    (loud (effects_of (dispatch e w))).
Proof.
  destruct e as [req r env|m| |id|ms| |req err]; cbn [dispatch].
  - destruct (request_call req r env) as [[[action data] k]|] eqn:Hc.
    + destruct (handleRequest_send req r env w _ _ _ Hc) as [-> ->].
      now apply send_bridge_trans.
    + apply request_call_none in Hc.
      destruct r; try discriminate; destruct w as [np pc dc mid tm mt ck so].
      * simpl. destruct (truthy videoInfo); exact (BT_quiet _ (EvRequest req (ReqOpenPopup videoInfo) env) Hc).
      * exact (BT_quiet _ (EvRequest req ReqUnknown env) Hc).
  - rewrite world_of_bind, effects_of_bind.
    cbn [get value_of world_of effects_of fst snd app].
    destruct (nativePort w) eqn:Hp;
      [|exact (BT_quiet w (EvNativeMessage m) (or_introl Hp))].
    destruct (truthy (m_id m) && pending_has (m_id m) (pendingCallbacks w)) eqn:Hm.
    + destruct (pending_match _ _ Hm) as (n & c & Hid & Hn & Hg).
      rewrite (handleNativeMessage_response m w n c Hid Hn Hg).
      replace (loud _) with [settle_effect n m]
        by (unfold settle_effect; cbn; destruct (truthy (m_error m)); reflexivity).
      replace (bridge_of _)
        with (nativePort w, map_delete Z.eqb n (pendingCallbacks w), messageId w,
              timers w, clock w) by (destruct w; reflexivity).
      eapply BT_response; eassumption.
    + rewrite (handleNativeMessage_event m w Hm).
      cbn [effects_of world_of fst snd]. rewrite (loud_quiet _ (event_effects_quiet m)).
      replace (bridge_of _) with (bridge_of w) by (destruct w; reflexivity).
      exact (BT_quiet w (EvNativeMessage m) (or_intror Hm)).
  - rewrite world_of_bind, effects_of_bind.
    cbn [get value_of world_of effects_of fst snd app].
    destruct (nativePort w) eqn:Hp; [|exact (BT_quiet w EvDisconnect Hp)].
    rewrite onDisconnect_eq. cbn [effects_of world_of fst snd].
    rewrite loud_app, reject_all_effects_loud,
      (loud_quiet _ (connection_lost_effects_quiet _)), app_nil_r.
    apply BT_disconnect.
  - rewrite world_of_bind, effects_of_bind.
    cbn [get value_of world_of effects_of fst snd app].
    destruct (take_due_timer id (clock w) (timers w)) as [[t rest]|] eqn:Ht;
      [|exact (BT_quiet w (EvTimer id) Ht)].
    rewrite world_of_bind, effects_of_bind.
    cbn [modify value_of world_of effects_of fst snd app].
    rewrite onTimeout_eq.
    replace (pendingCallbacks (with_timers rest w)) with (pendingCallbacks w)
      by (destruct w; reflexivity).
    destruct (map_has Z.eqb (t_id t) (pendingCallbacks w)) eqn:Hh.
    + replace (bridge_of _)
        with (nativePort w, map_delete Z.eqb (t_id t) (pendingCallbacks w),
              messageId w, rest, clock w) by (destruct w; reflexivity).
      eapply BT_timeout; eassumption.
    + replace (bridge_of _)
        with (nativePort w, pendingCallbacks w, messageId w, rest, clock w)
        by (destruct w; reflexivity).
      eapply BT_stale_timer; eassumption.
  - replace (bridge_of _)
      with (nativePort w, pendingCallbacks w, messageId w, timers w,
            clock w + Z.max 0 ms) by (destruct w; reflexivity).
    apply BT_elapse.
  - rewrite keepAlive_eq. exact (BT_quiet w EvKeepAlive I).
  - rewrite world_of_bind, effects_of_bind.
    cbn [get value_of world_of effects_of fst snd app].
    destruct (remove_nat req (storageOps w)) as [rest|];
      [|exact (BT_quiet w (EvStorageDone req err) I)].
    replace (bridge_of _) with (bridge_of w) by (destruct w; reflexivity).
    exact (BT_quiet w (EvStorageDone req err) I).
Qed.

(** Every turn of the event loop is one of the bridge transitions. *)
Lemma step_bridge_trans (e : Event) (w : World) :
  bridge_trans w (bridge_of (world_of (step e w))) e (loud (effects_of (step e w))).
Proof.
  destruct (step_bridge e w) as (-> & -> & _). apply dispatch_bridge_trans.
Qed.

(** ** Invariants of the event loop *)

Lemma js_incr_exact (n : Z) : n < MAX_EXACT -> js_incr n = n + 1.
Proof.
  unfold js_incr. intros H. destruct (Z.ltb_spec n MAX_EXACT); [reflexivity | lia].
Qed.

Lemma js_incr_mono (n : Z) : n <= js_incr n.
Proof. unfold js_incr. destruct (n <? MAX_EXACT); lia. Qed.

Lemma take_due_timer_spec (id now : Z) (l : list Timer) (t : Timer) (rest : list Timer) :
  take_due_timer id now l = Some (t, rest) ->
  In t l /\ t_id t = id /\ t_due t <= now /\ (forall t', In t' rest -> In t' l).
Proof.
  revert rest. induction l as [|x l IH]; simpl; intros rest H; [discriminate|].
  destruct ((t_id x =? id) && (t_due x <=? now)) eqn:E.
  - inversion H; subst. apply andb_prop in E as [E1 E2].
    apply Z.eqb_eq in E1. apply Z.leb_le in E2. repeat split; auto.
  - destruct (take_due_timer id now l) as [[t' r']|]; [|discriminate].
    inversion H; subst. destruct (IH r' eq_refl) as (Hi & Hid & Hd & Hr).
    repeat split; auto. intros t' [->|Hin]; auto.
Qed.

Lemma settled_ids_app (a b : list Effect) :
  settled_ids (a ++ b) = settled_ids a ++ settled_ids b.
Proof. apply flat_map_app. Qed.

Lemma settled_ids_loud (t : list Effect) : settled_ids (loud t) = settled_ids t.
Proof.
  induction t as [|e t IH]; [reflexivity|].
  unfold loud in *; simpl. destruct e as [| | | | |[i|]| | | |]; simpl; now rewrite ?IH.
Qed.

Lemma In_loud (e : Effect) (t : list Effect) :
  In e t -> is_quiet e = false -> In e (loud t).
Proof. intros Hi Hq. apply filter_In. split; [assumption | now rewrite Hq]. Qed.

Lemma settled_ids_connect_timer (w : World) (ok : bool) (action : string) (id : Z)
    (last : Effect) :
  settled_ids (connect_effects w ok ++ timer_effects action id ++ [last]) =
  settled_ids [last].
Proof.
  unfold connect_effects, timer_effects.
  destruct (port_absent w), (String.eqb action "download"); reflexivity.
Qed.

Lemma settled_ids_reject_all (pc : JsMap Z Caller) :
  settled_ids (reject_all_effects pc) = map_keys pc.
Proof.
  induction pc as [|[k c] r IH]; [reflexivity|].
  change (settled_ids (reject_all_effects ((k, c) :: r)))
    with (k :: settled_ids (reject_all_effects r)).
  rewrite IH. reflexivity.
Qed.

Lemma settled_ids_settle_effect (n : Z) (m : NativeMessage) :
  settled_ids [settle_effect n m] = [n].
Proof. unfold settle_effect. destruct (truthy (m_error m)); reflexivity. Qed.

Lemma bridge_trans_messageId (w : World) np' pc' mid' tm' ck' e l :
  bridge_trans w (np', pc', mid', tm', ck') e l -> messageId w <= mid'.
Proof.
  intros H; inversion H; subst; try apply js_incr_mono; lia.
Qed.

Lemma fresh_id_absent (pc : JsMap Z Caller) (mid : Z) :
  (forall k, In k (map_keys pc) -> k <= mid) ->
  map_has Z.eqb (mid + 1) pc = false.
Proof.
  intros Hle. apply (map_has_false Z.eqb Z.eqb_spec).
  intros Hin. apply Hle in Hin. lia.
Qed.

Lemma map_get_In_keys (k : Z) (c : Caller) (pc : JsMap Z Caller) :
  map_get Z.eqb k pc = Some c -> In k (map_keys pc).
Proof.
  intros H. apply (map_has_In Z.eqb Z.eqb_spec).
  rewrite (map_get_has Z.eqb), H. reflexivity.
Qed.

Lemma timer_ok_delete (pc : JsMap Z Caller) (mid n : Z) (t : Timer) :
  NoDup (map_keys pc) -> timer_ok pc mid t ->
  timer_ok (map_delete Z.eqb n pc) mid t.
Proof.
  intros Hnd (H1 & H2 & H3). repeat split; auto.
  intros c Hc. destruct (Z.eq_dec (t_id t) n) as [E|E].
  - rewrite E, (map_get_delete_same Z.eqb Z.eqb_spec) in Hc by assumption. discriminate.
  - rewrite (map_get_delete_other Z.eqb Z.eqb_spec) in Hc by assumption. auto.
Qed.

Lemma timers_after_ok (pc' : JsMap Z Caller) (mid : Z) action now k tm :
  is_download_call k = String.eqb action "download" ->
  (forall t, In t tm -> timer_ok pc' (mid + 1) t) ->
  (forall c, map_get Z.eqb (mid + 1) pc' = Some c -> c = k) ->
  forall t, In t (timers_after action (mid + 1) now k tm) -> timer_ok pc' (mid + 1) t.
Proof.
  intros Hk Hold Hnew t. unfold timers_after.
  destruct (String.eqb action "download"); [apply Hold|].
  intros Hin. apply in_app_or in Hin as [Hin|[<-|[]]]; [now apply Hold|].
  repeat split; simpl; auto. lia.
Qed.

(** The bridge invariant survives every turn taken below [MAX_EXACT]. *)
Lemma bridge_trans_wf (w : World) np' pc' mid' tm' ck' e l :
  bridge_wf (bridge_of w) -> messageId w < MAX_EXACT ->
  bridge_trans w (np', pc', mid', tm', ck') e l ->
  bridge_wf (np', pc', mid', tm', ck').
Proof.
  intros (Hnd & Hle & Htm) Hmax H.
  pose proof (fresh_id_absent _ _ Hle) as Hfresh.
  pose proof (js_incr_exact _ Hmax) as Hid.
  inversion H; subst; unfold bridge_wf; rewrite ?Hid.
  - split; [|split]; assumption.
  - split; [|split]; assumption.
  - split; [|split]; assumption.
  - (* sent *)
    split; [apply (map_set_NoDup Z.eqb Z.eqb_spec); assumption|].
    split.
    + intros k0 Hin. apply (map_keys_set Z.eqb Z.eqb_spec) in Hin as [->|Hin];
        [lia | apply Hle in Hin; lia].
    + eapply timers_after_ok; [eassumption| |].
      * intros t Ht. destruct (Htm t Ht) as (H1 & H2 & H3).
        repeat split; auto; [lia|].
        intros c Hc. rewrite (map_get_set_other Z.eqb Z.eqb_spec) in Hc by lia. auto.
      * intros c Hc. rewrite (map_get_set_same Z.eqb Z.eqb_spec) in Hc. congruence.
  - (* threw *)
    rewrite (map_delete_set_absent Z.eqb Z.eqb_spec) by assumption.
    split; [assumption|]. split; [intros k0 Hin; apply Hle in Hin; lia|].
    eapply timers_after_ok; [eassumption| |].
    + intros t Ht. destruct (Htm t Ht) as (H1 & H2 & H3).
      repeat split; auto; lia.
    + intros c Hc. apply map_get_In_keys in Hc. apply Hle in Hc. lia.
  - (* response *)
    split; [apply (map_delete_NoDup Z.eqb); assumption|].
    split; [intros k0 Hin; apply map_keys_delete_incl in Hin; auto|].
    intros t Ht. apply timer_ok_delete; auto.
  - (* disconnect *)
    split; [constructor|]. split; [intros k0 []|].
    intros t Ht. destruct (Htm t Ht) as (H1 & H2 & H3).
    repeat split; auto. intros c Hc; discriminate.
  - (* timeout *)
    match goal with
    | Hd : take_due_timer _ _ _ = Some _ |- _ =>
        destruct (take_due_timer_spec _ _ _ _ _ Hd) as (_ & _ & _ & Hrest)
    end.
    split; [apply (map_delete_NoDup Z.eqb); assumption|].
    split; [intros k0 Hin; apply map_keys_delete_incl in Hin; auto|].
    intros t' Ht. apply timer_ok_delete; auto.
  - (* stale timer *)
    match goal with
    | Hd : take_due_timer _ _ _ = Some _ |- _ =>
        destruct (take_due_timer_spec _ _ _ _ _ Hd) as (_ & _ & _ & Hrest)
    end.
    split; [|split]; auto.
Qed.

(** What one turn settles: distinct calls, each pending before the turn or
    created by it, none of them pending afterwards; and what stays pending
    was pending before or was created by the turn. *)
Lemma bridge_trans_settled (w : World) np' pc' mid' tm' ck' e l :
  bridge_wf (bridge_of w) -> messageId w < MAX_EXACT ->
  bridge_trans w (np', pc', mid', tm', ck') e l ->
  NoDup (settled_ids l) /\
  (forall id, In id (settled_ids l) ->
     (In id (map_keys (pendingCallbacks w)) \/ id = messageId w + 1) /\
     map_has Z.eqb id pc' = false /\ id <= mid') /\
  (forall id, map_has Z.eqb id pc' = true ->
     map_has Z.eqb id (pendingCallbacks w) = true \/ id = messageId w + 1) /\
  (forall id m, In (EResolve id m) l -> m_id m = JNum id).
Proof.
  intros (Hnd & Hle & Htm) Hmax H.
  pose proof (fresh_id_absent _ _ Hle) as Hfresh.
  pose proof (js_incr_exact _ Hmax) as Hid.
  assert (Hdel : forall n id, map_has Z.eqb id (map_delete Z.eqb n (pendingCallbacks w)) = true ->
                  map_has Z.eqb id (pendingCallbacks w) = true).
  { intros n id Hh. apply (map_has_In Z.eqb Z.eqb_spec) in Hh.
    apply (map_has_In Z.eqb Z.eqb_spec). eapply map_keys_delete_incl; eassumption. }
  inversion H; subst; rewrite ?Hid, ?settled_ids_connect_timer,
    ?settled_ids_settle_effect, ?settled_ids_reject_all.
  - (* quiet *)
    split; [constructor|]. split; [intros id []|]. split; [auto|intros id m []].
  - (* elapse *)
    split; [constructor|]. split; [intros id []|]. split; [auto|intros id m []].
  - (* no connection *)
    split; [constructor|]. split; [intros id []|]. split; [auto|].
    intros id m [E|[E|[]]]; discriminate.
  - (* sent *)
    split; [constructor|]. split; [intros id []|]. split.
    + intros id Hh. apply (map_has_In Z.eqb Z.eqb_spec) in Hh.
      apply (map_keys_set Z.eqb Z.eqb_spec) in Hh as [->|Hin]; [now right|left].
      now apply (map_has_In Z.eqb Z.eqb_spec).
    + intros id m Hin. unfold connect_effects, timer_effects in Hin.
      destruct (port_absent w), (String.eqb action "download"); simpl in Hin;
        repeat (destruct Hin as [Hin|Hin]; [discriminate|]); contradiction.
  - (* threw *)
    rewrite (map_delete_set_absent Z.eqb Z.eqb_spec) by assumption.
    split; [repeat constructor; simpl; tauto|]. split.
    + intros id [<-|[]]. repeat split; auto; lia.
    + split; [auto|].
      intros id m Hin. unfold connect_effects, timer_effects in Hin.
      destruct (port_absent w), (String.eqb action "download"); simpl in Hin;
        repeat (destruct Hin as [Hin|Hin]; [discriminate|]); contradiction.
  - (* response *)
    split; [repeat constructor; simpl; tauto|]. split.
    + intros id [<-|[]].
      match goal with Hg : map_get _ _ _ = Some _ |- _ =>
        pose proof (map_get_In_keys _ _ _ Hg) as Hin end.
      repeat split; auto.
      apply (map_delete_removes Z.eqb Z.eqb_spec); assumption.
    + split; [intros id Hh; left; eapply Hdel; eassumption|].
      intros id m0 [E|[]]. unfold settle_effect in E.
      destruct (truthy (m_error m)); inversion E; subst. assumption.
  - (* disconnect *)
    split; [assumption|]. split.
    + intros id Hin. repeat split; auto.
    + split; [intros id Hh; discriminate|].
      intros id m Hin. unfold reject_all_effects in Hin.
      apply in_map_iff in Hin as (x & E & _). discriminate.
  - (* timeout *)
    split; [repeat constructor; simpl; tauto|]. split.
    + intros id0 [<-|[]].
      match goal with Hh : map_has _ _ _ = true |- _ =>
        apply (map_has_In Z.eqb Z.eqb_spec) in Hh end.
      repeat split; auto.
      apply (map_delete_removes Z.eqb Z.eqb_spec); assumption.
    + split; [intros id0 Hh; left; eapply Hdel; eassumption|].
      intros id0 m [E|[]]. discriminate.
  - (* stale timer *)
    split; [constructor|]. split; [intros id0 []|]. split; [auto|intros id0 m []].
Qed.

Lemma bridge_trans_trace (w : World) np' pc' mid' tm' ck' e t eff :
  bridge_wf (bridge_of w) -> messageId w < MAX_EXACT ->
  trace_ok (pendingCallbacks w) (messageId w) t ->
  bridge_trans w (np', pc', mid', tm', ck') e (loud eff) ->
  trace_ok pc' mid' (t ++ eff).
Proof.
  intros Hwf Hmax (Hnd & Hs & Hres) H.
  destruct (bridge_trans_settled _ _ _ _ _ _ _ _ Hwf Hmax H) as (Snd & Ss & Sp & Sres).
  pose proof (bridge_trans_messageId _ _ _ _ _ _ _ _ H) as Hmono.
  rewrite settled_ids_loud in Snd, Ss.
  destruct Hwf as (_ & Hle & _).
  split; [|split].
  - rewrite settled_ids_app. apply NoDup_app; auto.
    intros id Hin Hin'. destruct (Hs id Hin) as [Hle0 Hh].
    destruct (Ss id Hin') as ([Hk|He] & _); [|lia].
    apply (map_has_false Z.eqb Z.eqb_spec) in Hh. contradiction.
  - intros id Hin. rewrite settled_ids_app in Hin.
    apply in_app_or in Hin as [Hin|Hin].
    + destruct (Hs id Hin) as [Hle0 Hh]. split; [lia|].
      destruct (map_has Z.eqb id pc') eqn:E; [|reflexivity].
      destruct (Sp id E) as [Hp|He]; [congruence | lia].
    + destruct (Ss id Hin) as (_ & Hh & Hle0). auto.
  - intros id m Hin. apply in_app_or in Hin as [Hin|Hin]; [eauto|].
    apply Sres. apply In_loud; auto.
Qed.

(** The job table across a task. *)
Lemma sendNativeMessage_downloadCallbacks env action data k (w : World) :
  downloadCallbacks (world_of (sendNativeMessage env action data k w)) =
  downloadCallbacks w.
Proof.
  rewrite sendNativeMessage_eq.
  destruct (port_absent w && negb (env_connect_ok env)); [destruct w; reflexivity|].
  cbv zeta. destruct (env_post_error env); reflexivity.
Qed.

Lemma handleRequest_downloadCallbacks (req : nat) (r : Request) (env : Env) (w : World) :
  downloadCallbacks (world_of (handleRequest req r env w)) =
  match r with
  | ReqStartDownload _ =>
      map_set String.eqb (make_downloadId env) true (downloadCallbacks w)
  | _ => downloadCallbacks w
  end.
Proof.
  destruct r; cbn [handleRequest];
    unfold handleTestConnection, handleCancelDownload, handleSelectDirectory,
      handleOpenFolder;
    try apply sendNativeMessage_downloadCallbacks.
  - unfold handleStartDownload.
    rewrite !world_of_bind.
    cbn [modify emit ret enqueue value_of world_of effects_of fst snd].
    replace (downloadCallbacks (with_microtasks _ _))
      with (downloadCallbacks
              (world_of (sendNativeMessage env "download"
                 [("downloadId", JStr (make_downloadId env)); ("url", url options);
                  ("format", format options); ("output", output options);
                  ("extension", extension options); ("subtitles", subtitles options);
                  ("audioOnly", audioOnly options);
                  ("audioQuality", audioQuality options); ("title", title options)]
                 (CallDownload (make_downloadId env))
                 (with_downloadCallbacks
                    (map_set String.eqb (make_downloadId env) true
                       (downloadCallbacks w)) w)))).
    + rewrite sendNativeMessage_downloadCallbacks. destruct w; reflexivity.
    + match goal with |- downloadCallbacks ?a = downloadCallbacks (with_microtasks _ ?b) =>
        destruct b; reflexivity end.
  - destruct (truthy videoInfo); destruct w; reflexivity.
  - destruct w; reflexivity.
Qed.

Lemma table_after_event_NoDup (m : NativeMessage) (dc : JsMap string bool) :
  NoDup (map_keys dc) -> NoDup (map_keys (table_after_event m dc)).
Proof.
  unfold table_after_event.
  destruct (is_event m "complete"), (is_event m "error");
    auto using download_delete_NoDup.
Qed.

Lemma dispatch_downloadCallbacks_NoDup (e : Event) (w : World) :
  NoDup (map_keys (downloadCallbacks w)) ->
  NoDup (map_keys (downloadCallbacks (world_of (dispatch e w)))).
Proof.
  intros Hnd.
  destruct e as [req r env|m| |id|ms| |req err]; cbn [dispatch].
  - rewrite handleRequest_downloadCallbacks.
    destruct r; auto. apply (map_set_NoDup String.eqb String.eqb_spec); assumption.
  - rewrite world_of_bind. cbn [get value_of world_of fst snd].
    destruct (nativePort w); [|assumption].
    destruct (truthy (m_id m) && pending_has (m_id m) (pendingCallbacks w)) eqn:Hm.
    + destruct (pending_match _ _ Hm) as (n & c & Hid & Hn & Hg).
      rewrite (handleNativeMessage_response m w n c Hid Hn Hg).
      destruct w; assumption.
    + rewrite (handleNativeMessage_event m w Hm).
      destruct w; apply table_after_event_NoDup; assumption.
  - rewrite world_of_bind. cbn [get value_of world_of fst snd].
    destruct (nativePort w); [|assumption].
    rewrite onDisconnect_eq. constructor.
  - rewrite world_of_bind. cbn [get value_of world_of fst snd].
    destruct (take_due_timer id (clock w) (timers w)) as [[t rest]|]; [|assumption].
    rewrite world_of_bind. cbn [modify value_of world_of fst snd].
    rewrite onTimeout_eq.
    destruct (map_has Z.eqb (t_id t) (pendingCallbacks (with_timers rest w)));
      destruct w; assumption.
  - destruct w; assumption.
  - rewrite keepAlive_eq. assumption.
  - rewrite world_of_bind. cbn [get value_of world_of fst snd].
    destruct (remove_nat req (storageOps w)); destruct w; assumption.
Qed.

Lemma bridge_of_eta (w : World) :
  bridge_of w = (nativePort w, pendingCallbacks w, messageId w, timers w, clock w).
Proof. reflexivity. Qed.

(** The invariant survives every turn taken below [MAX_EXACT]. *)
Lemma step_wf (e : Event) (w : World) :
  wf w -> messageId w < MAX_EXACT -> wf (world_of (step e w)).
Proof.
  intros (Hb & Hd & Hm) Hmax.
  destruct (step_bridge e w) as (_ & _ & Hq & Hn).
  pose proof (step_bridge_trans e w) as Ht. rewrite bridge_of_eta in Ht.
  split; [|split].
  - rewrite bridge_of_eta. eapply bridge_trans_wf; eassumption.
  - apply Hn, dispatch_downloadCallbacks_NoDup, Hd.
  - exact Hq.
Qed.

Lemma step_messageId (e : Event) (w : World) :
  messageId w <= messageId (world_of (step e w)).
Proof.
  pose proof (step_bridge_trans e w) as Ht. rewrite bridge_of_eta in Ht.
  eapply bridge_trans_messageId; eassumption.
Qed.

Lemma step_trace_ok (e : Event) (w : World) (t : list Effect) :
  wf w -> messageId w < MAX_EXACT ->
  trace_ok (pendingCallbacks w) (messageId w) t ->
  trace_ok (pendingCallbacks (world_of (step e w))) (messageId (world_of (step e w)))
    (t ++ effects_of (step e w)).
Proof.
  intros (Hb & _) Hmax Ht.
  pose proof (step_bridge_trans e w) as H. rewrite bridge_of_eta in H.
  eapply bridge_trans_trace; eassumption.
Qed.

Lemma run_events_messageId (es : list Event) (w : World) :
  messageId w <= messageId (world_of (run_events es w)).
Proof.
  revert w. induction es as [|e r IH]; intros w; [apply Z.le_refl|].
  cbn [run_events]. rewrite world_of_bind.
  pose proof (step_messageId e w). specialize (IH (world_of (step e w))). lia.
Qed.

(** Along any run that stays below [MAX_EXACT], worlds and traces keep their
    invariants. *)
Lemma run_events_inv (es : list Event) (w : World) (t : list Effect) :
  wf w -> trace_ok (pendingCallbacks w) (messageId w) t ->
  messageId (world_of (run_events es w)) < MAX_EXACT ->
  wf (world_of (run_events es w)) /\
  trace_ok (pendingCallbacks (world_of (run_events es w)))
    (messageId (world_of (run_events es w))) (t ++ effects_of (run_events es w)).
Proof.
  revert w t. induction es as [|e r IH]; intros w t Hwf Ht Hmax.
  - simpl. rewrite app_nil_r. auto.
  - cbn [run_events] in *. rewrite world_of_bind in *. rewrite effects_of_bind.
    assert (Hlt : messageId w < MAX_EXACT).
    { pose proof (step_messageId e w).
      pose proof (run_events_messageId r (world_of (step e w))). lia. }
    rewrite app_assoc. apply IH; auto using step_wf, step_trace_ok.
Qed.

Lemma startup_eq (ok : bool) :
  startup ok boot =
  (tt, with_nativePort (if ok then Some (NativePort NATIVE_HOST_NAME) else None) boot,
   [EConnectNative NATIVE_HOST_NAME ok]).
Proof. destruct ok; reflexivity. Qed.

Lemma run_eq (ok : bool) (es : list Event) :
  run ok es =
  (world_of (run_events es (world_of (startup ok boot))),
   effects_of (startup ok boot) ++ effects_of (run_events es (world_of (startup ok boot)))).
Proof.
  unfold run. cbv zeta. rewrite world_of_bind, effects_of_bind. reflexivity.
Qed.

Lemma run_inv (ok : bool) (es : list Event) :
  messageId (fst (run ok es)) < MAX_EXACT ->
  wf (fst (run ok es)) /\
  trace_ok (pendingCallbacks (fst (run ok es))) (messageId (fst (run ok es)))
    (snd (run ok es)).
Proof.
  rewrite run_eq. cbn [fst snd]. intros Hmax.
  apply run_events_inv; auto; rewrite startup_eq.
  - unfold wf, bridge_wf. jsimpl.
    split; [split; [constructor | split; intros ? []] | split; [constructor | reflexivity]].
  - unfold trace_ok. jsimpl.
    split; [constructor | split; [intros ? [] | intros id m [E|[]]; discriminate]].
Qed.

Lemma reachable_wf (w : World) :
  reachable w -> messageId w < MAX_EXACT -> wf w.
Proof.
  intros (ok & es & ->) Hmax. now apply run_inv.
Qed.

(** ** Job events for jobs that are not active *)

Lemma strict_eq_str_true (v : JsVal) (s : string) :
  strict_eq_str v s = true -> v = JStr s.
Proof.
  destruct v; simpl; try discriminate. intros H. apply String.eqb_eq in H. congruence.
Qed.

Lemma download_delete_absent (v : JsVal) (dc : JsMap string bool) :
  download_has v dc = false -> download_delete v dc = dc.
Proof.
  destruct v; simpl; auto. apply map_delete_absent.
Qed.

Lemma with_downloadCallbacks_same (w : World) :
  with_downloadCallbacks (downloadCallbacks w) w = w.
Proof. destruct w; reflexivity. Qed.

(** C1, as stated, fails.  The job [job0] was started and cancelled, the
    worker acknowledged the cancel and the job is no longer in the job table;
    the progress event that arrives afterwards for [job0] is still delivered
    to the popup. *)
Lemma C1_late_event_is_delivered :
  let w := fst (run true cancelled_run) in
  let m := progress_event job0 "{percent:50}" in
  is_job_event m = true /\
  download_has (m_downloadId m) (downloadCallbacks w) = false /\
  observer_effects (effects_of (step (EvNativeMessage m) w)) =
    [ERuntimeSend "downloadProgress" (JStr job0) (JObj "{percent:50}")].
Proof. cbv zeta. repeat split; vm_compute; reflexivity. Qed.

(** C1, amended.  For a job event whose [downloadId] is not in the job
    table, [handleNativeMessage] leaves the job table as it is, but the event
    is not dropped: unless the message also carries the id of a pending call,
    the observers get the progress, completion or error notification of the
    event, exactly as for an active job, and nothing else changes. *)
Theorem C1_inactive_job_event_is_notified (w : World) (m : NativeMessage) :
  is_job_event m = true ->
  download_has (m_downloadId m) (downloadCallbacks w) = false ->
  downloadCallbacks (world_of (handleNativeMessage m w)) = downloadCallbacks w /\
  (truthy (m_id m) && pending_has (m_id m) (pendingCallbacks w) = false ->
   world_of (handleNativeMessage m w) = w /\
   (strict_eq_str (m_type m) "progress" = true ->
    effects_of (handleNativeMessage m w) =
      [ERuntimeSend "downloadProgress" (m_downloadId m) (m_progress m)]) /\
   (strict_eq_str (m_type m) "complete" = true ->
    effects_of (handleNativeMessage m w) =
      [ERuntimeSend "downloadComplete" (m_downloadId m) (m_filename m);
       ENotification "Download Complete"
         (JStr (js_to_string (m_filename m) ++ " has been downloaded successfully."))
         2]) /\
   (strict_eq_str (m_type m) "error" = true ->
    effects_of (handleNativeMessage m w) =
      [ERuntimeSend "downloadError" (m_downloadId m) (m_error m);
       ENotification "Download Failed"
         (js_or (m_error m) (JStr "An error occurred during download.")) 2])).
Proof.
  intros Hev Hdl.
  assert (Htruthy : truthy (m_downloadId m) = true)
    by (unfold is_job_event in Hev; apply andb_prop in Hev; tauto).
  assert (Htab : table_after_event m (downloadCallbacks w) = downloadCallbacks w).
  { unfold table_after_event.
    destruct (is_event m "complete"), (is_event m "error");
      rewrite ?(download_delete_absent _ _ Hdl); reflexivity. }
  split.
  - destruct (truthy (m_id m) && pending_has (m_id m) (pendingCallbacks w)) eqn:Hm.
    + destruct (pending_match _ _ Hm) as (n & c & Hid & Hn & Hg).
      rewrite (handleNativeMessage_response m w n c Hid Hn Hg).
      destruct w; reflexivity.
    + rewrite (handleNativeMessage_event m w Hm).
      cbv [world_of fst snd]. rewrite Htab. destruct w; reflexivity.
  - intros Hm. rewrite (handleNativeMessage_event m w Hm).
    cbv [world_of effects_of fst snd]. rewrite Htab, with_downloadCallbacks_same.
    unfold event_effects, is_event. rewrite Htruthy, !andb_true_r.
    split; [reflexivity|].
    repeat split; intros Ht; apply strict_eq_str_true in Ht; rewrite Ht; reflexivity.
Qed.

Lemma C1_inactive_job_event_witness :
  let w := fst (run true cancelled_run) in
  let m := progress_event job0 "{percent:50}" in
  is_job_event m = true /\
  download_has (m_downloadId m) (downloadCallbacks w) = false /\
  downloadCallbacks (world_of (handleNativeMessage m w)) = downloadCallbacks w.
Proof.
  cbv zeta. split; [reflexivity|]. split; [reflexivity|].
  apply (C1_inactive_job_event_is_notified
           (fst (run true cancelled_run)) (progress_event job0 "{percent:50}"));
    reflexivity.
Defined.

(** ** Cancelling *)

Lemma posted_connect_timer (w : World) (ok : bool) (action : string) (id : Z)
    (last : Effect) :
  posted (connect_effects w ok ++ timer_effects action id ++ [last]) = posted [last].
Proof.
  unfold connect_effects, timer_effects.
  destruct (port_absent w), (String.eqb action "download"); reflexivity.
Qed.

(** C2, as stated, fails.  No job is active, yet cancelling ["J1"] posts a
    cancel request to the worker and adds a pending call; when the worker
    acknowledges, the caller is answered with success, not with an error. *)
Lemma C2_cancel_of_unknown_job_is_sent :
  let w := fst (run true []) in
  let r := step (EvRequest 0 (ReqCancelDownload (JStr "J1")) env0) w in
  download_has (JStr "J1") (downloadCallbacks w) = false /\
  posted (effects_of r) =
    [EPostMessage (mkOutMessage 1 "cancel" [("downloadId", JStr "J1")])] /\
  pendingCallbacks w = [] /\
  pendingCallbacks (world_of r) = [(1, CallCancel 0 (JStr "J1"))] /\
  responses (effects_of (step (EvNativeMessage (response 1 JUndefined)) (world_of r))) =
    [ESendResponse 0 RespSuccess].
Proof. cbv zeta. repeat split; vm_compute; reflexivity. Qed.

(** C2, amended.  Cancelling a job identifier that is not active is not
    refused: when the channel is there (or can be opened) and the write
    succeeds, the cancel request for that identifier is posted to the worker
    and a pending call is recorded, as for an active job.  The job table is
    unchanged when the request is issued and when the call settles, and the
    caller gets success when the worker acknowledges and the error of the
    call otherwise; there is no unknown-job error. *)
Theorem C2_cancel_of_inactive_job_is_forwarded
    (w : World) (req : nat) (d : JsVal) (env : Env) :
  download_has d (downloadCallbacks w) = false ->
  port_absent w && negb (env_connect_ok env) = false ->
  env_post_error env = None ->
  posted (effects_of (handleCancelDownload env req d w)) =
    [EPostMessage (mkOutMessage (js_incr (messageId w)) "cancel" [("downloadId", d)])] /\
  map_get Z.eqb (js_incr (messageId w))
    (pendingCallbacks (world_of (handleCancelDownload env req d w))) =
    Some (CallCancel req d) /\
  downloadCallbacks (world_of (handleCancelDownload env req d w)) = downloadCallbacks w /\
  (forall (w' : World) (o : Settlement),
     download_has d (downloadCallbacks w') = false ->
     downloadCallbacks (world_of (handleCancelDownload_resume d o w')) =
       downloadCallbacks w' /\
     handleRequest_resume (value_of (handleCancelDownload_resume d o w')) =
       match o with
       | Resolved _ => RespSuccess
       | Rejected message => RespError message
       end).
Proof.
  intros Hd Hp He. unfold handleCancelDownload.
  rewrite sendNativeMessage_eq, Hp. cbv zeta. rewrite He.
  cbv [world_of effects_of fst snd pendingCallbacks downloadCallbacks].
  split; [apply posted_connect_timer|].
  split; [apply (map_get_set_same Z.eqb Z.eqb_spec)|].
  split; [reflexivity|].
  intros w' o Hd'. destruct w' as [np pc dc mid tm mt ck so]. simpl in Hd'.
  destruct o as [m|msg]; jsimpl; rewrite ?(download_delete_absent _ _ Hd');
    split; reflexivity.
Qed.

Lemma C2_cancel_of_inactive_job_witness :
  let w := fst (run true []) in
  download_has (JStr "J1") (downloadCallbacks w) = false /\
  posted (effects_of (handleCancelDownload env0 0 (JStr "J1") w)) =
    [EPostMessage (mkOutMessage (js_incr (messageId w)) "cancel"
                     [("downloadId", JStr "J1")])].
Proof.
  cbv zeta. split; [reflexivity|].
  apply (C2_cancel_of_inactive_job_is_forwarded
           (fst (run true [])) 0%nat (JStr "J1") env0); reflexivity.
Defined.

(** C3, as stated, fails.  [job0] is active and its cancel call is settled by
    a failure (the worker answers with an error, or nothing answers within
    the timeout): the caller is told the error and [job0] is still in the job
    table. *)
Lemma C3_failed_cancel_keeps_the_job :
  (let r := run true refused_cancel_run in
   settlements (snd r) = [EReject (Some 2) "No such download"] /\
   responses (snd r) =
     [ESendResponse 0 (RespDownloadId job0);
      ESendResponse 1 (RespError "No such download")] /\
   download_has (JStr job0) (downloadCallbacks (fst r)) = true) /\
  (let r := run true timed_out_cancel_run in
   settlements (snd r) = [EReject (Some 2) "Request timed out"] /\
   responses (snd r) =
     [ESendResponse 0 (RespDownloadId job0);
      ESendResponse 1 (RespError "Request timed out")] /\
   download_has (JStr job0) (downloadCallbacks (fst r)) = true).
Proof. cbv zeta. repeat split; vm_compute; reflexivity. Qed.

Lemma download_delete_removes (v : JsVal) (dc : JsMap string bool) :
  NoDup (map_keys dc) -> download_has v (download_delete v dc) = false.
Proof.
  destruct v; simpl; auto. apply (map_delete_removes String.eqb String.eqb_spec).
Qed.

Lemma runMicrotask_no_jobs (t : Microtask) (w : World) :
  downloadCallbacks w = [] -> downloadCallbacks (world_of (runMicrotask t w)) = [].
Proof.
  destruct w as [np pc dc mid tm mt ck so]. cbn [downloadCallbacks]. intros ->.
  destruct t as [c o|req c|req r]; [|reflexivity..].
  destruct c as [req|d'|req d'|req|req]; destruct o as [m|msg]; try reflexivity.
  destruct d'; reflexivity.
Qed.

Lemma drain_no_jobs (fuel : nat) (w : World) :
  downloadCallbacks w = [] -> downloadCallbacks (world_of (drain fuel w)) = [].
Proof.
  revert w. induction fuel as [|fuel IH]; intros w Hw; [exact Hw|].
  simpl. rewrite world_of_bind. cbn [get value_of world_of fst snd].
  destruct (microtasks w) as [|t q] eqn:E; [exact Hw|].
  rewrite !world_of_bind. cbn [modify value_of world_of fst snd].
  apply IH, runMicrotask_no_jobs. destruct w; exact Hw.
Qed.

(** C3, amended.  The cancel handler touches the job table in one place
    only: after its cancel call has resolved.  The request itself leaves the
    job table as it is, whether the call is sent or fails at once (no
    connection, failed write), and a failure is answered with the error.
    When the worker's response arrives for the pending cancel call, a
    response without an error removes the job and answers success, while an
    error response leaves the job table as it is and answers the error; so
    does the timeout.  A job that was active stays active when the cancel
    fails.  (A disconnect empties the whole job table by itself.) *)
Theorem C3_cancel_retires_the_job_on_success_only
    (w : World) (req : nat) (d : JsVal) (env : Env) :
  microtasks w = [] ->
  NoDup (map_keys (downloadCallbacks w)) ->
  downloadCallbacks (world_of (step (EvRequest req (ReqCancelDownload d) env) w)) =
    downloadCallbacks w /\
  (port_absent w && negb (env_connect_ok env) = true ->
   responses (effects_of (step (EvRequest req (ReqCancelDownload d) env) w)) =
     [ESendResponse req (RespError FAILED_TO_CONNECT)]) /\
  (forall message,
   port_absent w && negb (env_connect_ok env) = false ->
   env_post_error env = Some message ->
   responses (effects_of (step (EvRequest req (ReqCancelDownload d) env) w)) =
     [ESendResponse req (RespError message)]) /\
  (port_absent w && negb (env_connect_ok env) = false ->
   env_post_error env = None ->
   responses (effects_of (step (EvRequest req (ReqCancelDownload d) env) w)) = [] /\
   map_get Z.eqb (js_incr (messageId w))
     (pendingCallbacks (world_of (step (EvRequest req (ReqCancelDownload d) env) w))) =
     Some (CallCancel req d)) /\
  (forall m n,
   nativePort w <> None -> m_id m = JNum n -> n <> 0 ->
   map_get Z.eqb n (pendingCallbacks w) = Some (CallCancel req d) ->
   if truthy (m_error m) then
     downloadCallbacks (world_of (step (EvNativeMessage m) w)) = downloadCallbacks w /\
     responses (effects_of (step (EvNativeMessage m) w)) =
       [ESendResponse req (RespError (js_to_string (m_error m)))]
   else
     downloadCallbacks (world_of (step (EvNativeMessage m) w)) =
       download_delete d (downloadCallbacks w) /\
     download_has d (downloadCallbacks (world_of (step (EvNativeMessage m) w))) = false /\
     responses (effects_of (step (EvNativeMessage m) w)) =
       [ESendResponse req RespSuccess]) /\
  (forall id t rest,
   take_due_timer id (clock w) (timers w) = Some (t, rest) ->
   map_has Z.eqb (t_id t) (pendingCallbacks w) = true ->
   t_callback t = CallCancel req d ->
   downloadCallbacks (world_of (step (EvTimer id) w)) = downloadCallbacks w /\
   responses (effects_of (step (EvTimer id) w)) =
     [ESendResponse req (RespError TIMED_OUT)]) /\
  (nativePort w <> None ->
   downloadCallbacks (world_of (step EvDisconnect w)) = []).
Proof.
  intros Hmt Hnd. destruct w as [np pc dc mid tm mt ck so]. simpl in Hmt, Hnd. subst mt.
  destruct env as [cok perr now rnd].
  split; [|split; [|split; [|split; [|split; [|split]]]]].
  - unfold step, dispatch, handleRequest, handleCancelDownload, runMicrotasks,
      queue_weight.
    destruct np; [|destruct cok]; destruct perr; reflexivity.
  - unfold step, dispatch, handleRequest, handleCancelDownload, runMicrotasks,
      queue_weight, port_absent.
    intros Hp. destruct np; [discriminate|destruct cok; [discriminate|]]. reflexivity.
  - unfold step, dispatch, handleRequest, handleCancelDownload, runMicrotasks,
      queue_weight, port_absent.
    intros message Hp He. simpl in He. subst perr.
    destruct np; [|destruct cok; [|discriminate]]; reflexivity.
  - unfold step, dispatch, handleRequest, handleCancelDownload, runMicrotasks,
      queue_weight, port_absent.
    intros Hp He. simpl in He. subst perr.
    destruct np; [|destruct cok; [|discriminate]];
      (split; [reflexivity|]; jsimpl; apply (map_get_set_same Z.eqb Z.eqb_spec)).
  - intros m n Hp Hid Hn Hg. destruct np as [p|]; [|now elim Hp].
    unfold step. cbn [dispatch].
    rewrite !effects_of_bind, !world_of_bind.
    cbn [get value_of world_of effects_of fst snd nativePort app].
    rewrite (handleNativeMessage_response m _ n _ Hid Hn Hg).
    unfold settle_effect, settlement_of, runMicrotasks, queue_weight.
    destruct (truthy (m_error m)).
    + split; reflexivity.
    + split; [reflexivity|]. split; [|reflexivity].
      jsimpl. now apply download_delete_removes.
  - intros id t rest Ht Hh Hc.
    unfold step. cbn [dispatch].
    rewrite !effects_of_bind, !world_of_bind.
    cbn [get value_of world_of effects_of fst snd clock timers app].
    cbn [clock timers] in Ht. rewrite Ht.
    rewrite !effects_of_bind, !world_of_bind.
    cbn [modify value_of world_of effects_of fst snd app].
    rewrite onTimeout_eq. unfold_with. cbn [pendingCallbacks].
    cbn [pendingCallbacks] in Hh. rewrite Hh, Hc. split; reflexivity.
  - intros Hp. destruct np as [p|]; [|now elim Hp].
    unfold step. cbn [dispatch]. rewrite !world_of_bind.
    cbn [get value_of world_of fst snd nativePort].
    rewrite onDisconnect_eq. cbn [value_of world_of fst snd].
    unfold runMicrotasks. rewrite world_of_bind. cbn [get value_of world_of fst snd].
    apply drain_no_jobs. reflexivity.
Qed.

Lemma C3_cancel_retires_the_job_witness :
  let w := fst (run true [EvRequest 0 (ReqStartDownload options0) env0;
                          EvRequest 1 (ReqCancelDownload (JStr job0)) env0]) in
  microtasks w = [] /\
  NoDup (map_keys (downloadCallbacks w)) /\
  download_has (JStr job0) (downloadCallbacks w) = true /\
  download_has (JStr job0)
    (downloadCallbacks (world_of (step (EvNativeMessage (response 2 JUndefined)) w)))
    = false.
Proof.
  cbv zeta.
  assert (Hnd : NoDup (map_keys (downloadCallbacks
                 (fst (run true [EvRequest 0 (ReqStartDownload options0) env0;
                                 EvRequest 1 (ReqCancelDownload (JStr job0)) env0]))))).
  { vm_compute. repeat constructor. simpl. tauto. }
  split; [reflexivity|]. split; [exact Hnd|]. split; [reflexivity|].
  pose proof (C3_cancel_retires_the_job_on_success_only
                (fst (run true [EvRequest 0 (ReqStartDownload options0) env0;
                                EvRequest 1 (ReqCancelDownload (JStr job0)) env0]))
                1%nat (JStr job0) env0 eq_refl Hnd) as (_ & _ & _ & _ & H & _).
  specialize (H (response 2 JUndefined) 2).
  cbn [response m_error truthy] in H.
  apply H; [discriminate | reflexivity | discriminate | reflexivity].
Defined.

(** ** Starting a download *)

(** C4, as stated, fails.  A start request without a url and without a title
    is not rejected by any validation: the job is registered, the download
    request is posted to the worker with both fields undefined, and the
    caller gets the job identifier. *)
Lemma C4_request_is_not_validated :
  let r := run true [EvRequest 0 (ReqStartDownload options_without_url_and_title) env0] in
  carries_locator_and_label options_without_url_and_title = false /\
  posted (snd r) =
    [EPostMessage
       (mkOutMessage 1 "download"
          [("downloadId", JStr job0); ("url", JUndefined); ("format", JStr "best");
           ("output", JStr "~/Downloads"); ("extension", JStr "mp4");
           ("subtitles", JBool false); ("audioOnly", JBool false);
           ("audioQuality", JNull); ("title", JUndefined)])] /\
  download_has (JStr job0) (downloadCallbacks (fst r)) = true /\
  responses (snd r) = [ESendResponse 0 (RespDownloadId job0)].
Proof. cbv zeta. repeat split; vm_compute; reflexivity. Qed.

Lemma job_error_reasons_self (d message : string) :
  job_error_reasons d (job_error_effects d message) = [JStr message].
Proof.
  unfold job_error_reasons, job_error_effects. simpl.
  rewrite String.eqb_refl. reflexivity.
Qed.

(** C4, amended.  [handleStartDownload] performs no validation: whatever the
    request carries (a url and a title or not), it builds a job identifier
    from the clock and a random suffix, registers it, hands the request to
    the worker as it is, and the caller is answered with the identifier,
    never with an error.  A failure of the download call, at once or later,
    is delivered as the error event of the job and removes the job from the
    job table; it is not thrown to anyone. *)
Theorem C4_start_download_returns_the_job_id
    (w : World) (req : nat) (options : DownloadOptions) (env : Env) :
  microtasks w = [] ->
  NoDup (map_keys (downloadCallbacks w)) ->
  let id := make_downloadId env in
  let r := step (EvRequest req (ReqStartDownload options) env) w in
  responses (effects_of r) = [ESendResponse req (RespDownloadId id)] /\
  (port_absent w && negb (env_connect_ok env) = false ->
   env_post_error env = None ->
   download_has (JStr id) (downloadCallbacks (world_of r)) = true /\
   posted (effects_of r) =
     [EPostMessage (mkOutMessage (js_incr (messageId w)) "download"
                      (download_data id options))] /\
   map_get Z.eqb (js_incr (messageId w)) (pendingCallbacks (world_of r)) =
     Some (CallDownload id)) /\
  (port_absent w && negb (env_connect_ok env) = true ->
   job_error_reasons id (effects_of r) = [JStr FAILED_TO_CONNECT] /\
   download_has (JStr id) (downloadCallbacks (world_of r)) = false) /\
  (forall message,
   port_absent w && negb (env_connect_ok env) = false ->
   env_post_error env = Some message ->
   job_error_reasons id (effects_of r) = [JStr message] /\
   download_has (JStr id) (downloadCallbacks (world_of r)) = false) /\
  (forall (w' : World) (message : string),
   NoDup (map_keys (downloadCallbacks w')) ->
   let r' := resume (CallDownload id) (Rejected message) w' in
   effects_of r' = job_error_effects id message /\
   microtasks (world_of r') = microtasks w' /\
   download_has (JStr id) (downloadCallbacks (world_of r')) = false).
Proof.
  intros Hmt Hnd. cbv zeta.
  destruct w as [np pc dc mid tm mt ck so]. simpl in Hmt, Hnd. subst mt.
  destruct env as [cok perr now rnd].
  unfold step, dispatch, handleRequest, handleStartDownload, runMicrotasks,
    queue_weight, download_data, port_absent.
  cbv zeta. set (id := make_downloadId _). clearbody id.
  pose proof (map_has_set_same String.eqb String.eqb_spec id true dc) as Hset.
  assert (Hdel : map_has String.eqb id
                   (map_delete String.eqb id (map_set String.eqb id true dc)) = false).
  { apply (map_delete_removes String.eqb String.eqb_spec).
    apply (map_set_NoDup String.eqb String.eqb_spec). assumption. }
  split; [|split; [|split; [|split]]].
  - destruct np; [|destruct cok]; destruct perr; reflexivity.
  - intros Hp He. simpl in He. subst perr.
    destruct np; [|destruct cok; [|discriminate]];
      (split; [exact Hset | split; [reflexivity|]];
       jsimpl; apply (map_get_set_same Z.eqb Z.eqb_spec)).
  - intros Hp.
    destruct np; [discriminate|destruct cok; [discriminate|]].
    split; [|exact Hdel].
    unfold job_error_reasons. jsimpl. rewrite String.eqb_refl. reflexivity.
  - intros message Hp He. simpl in He. subst perr.
    destruct np; [|destruct cok; [|discriminate]];
      (split; [|exact Hdel]);
      unfold job_error_reasons; jsimpl; rewrite String.eqb_refl; reflexivity.
  - intros w' message Hnd'. destruct w' as [np' pc' dc' mid' tm' mt' ck' so'].
    simpl in Hnd'. jsimpl.
    split; [reflexivity|]. split; [reflexivity|].
    apply (map_delete_removes String.eqb String.eqb_spec). assumption.
Qed.

Lemma C4_start_download_witness :
  let w := fst (run true []) in
  microtasks w = [] /\
  responses (effects_of (step (EvRequest 0 (ReqStartDownload options_without_url_and_title) env0) w))
    = [ESendResponse 0 (RespDownloadId (make_downloadId env0))].
Proof.
  cbv zeta. split; [reflexivity|].
  apply (C4_start_download_returns_the_job_id
           (fst (run true [])) 0%nat options_without_url_and_title env0).
  - reflexivity.
  - vm_compute. constructor.
Defined.

(** ** Disconnect *)

Lemma settlements_loud (t : list Effect) : settlements (loud t) = settlements t.
Proof.
  induction t as [|e t IH]; [reflexivity|].
  unfold loud, settlements in *; simpl.
  destruct e; simpl; now rewrite ?IH.
Qed.

Lemma settlements_reject_all (pc : JsMap Z Caller) :
  settlements (reject_all_effects pc) = reject_all_effects pc.
Proof.
  induction pc as [|[k c] r IH]; [reflexivity|].
  unfold settlements in *. simpl. now rewrite IH.
Qed.

(** What holds at every disconnect: each pending call is rejected with the
    connection error, once, and the pending table is empty afterwards. *)
Lemma disconnect_rejects_every_pending_call (w : World) :
  nativePort w <> None ->
  settlements (effects_of (step EvDisconnect w)) =
    reject_all_effects (pendingCallbacks w) /\
  pendingCallbacks (world_of (step EvDisconnect w)) = [].
Proof.
  intros Hp. rewrite <- settlements_loud.
  pose proof (step_bridge_trans EvDisconnect w) as Hs. rewrite bridge_of_eta in Hs.
  inversion Hs; subst; [contradiction|].
  split; [apply settlements_reject_all | reflexivity].
Qed.

(** C5: a job whose download call is still pending when the port disconnects
    gets two error events, not one.  [job0] has just been started (the worker
    has not answered the download call) when the disconnect arrives: the
    disconnect listener reports "Native host connection lost" for it, and the
    rejected download call then reports "Native host disconnected" for the
    same job.  The pending call is rejected and both tables end up empty. *)
Theorem C5_disconnect_reports_a_starting_job_twice :
  let r := run true [EvRequest 0 (ReqStartDownload options0) env0; EvDisconnect] in
  job_error_reasons job0 (snd r) = [JStr CONNECTION_LOST; JStr DISCONNECTED] /\
  settlements (snd r) = [EReject (Some 1) DISCONNECTED] /\
  pendingCallbacks (fst r) = [] /\
  downloadCallbacks (fst r) = [].
Proof. cbv zeta. repeat split; vm_compute; reflexivity. Qed.

(** ** Correlation of calls and responses *)

Lemma pending_has_get (v : JsVal) (pc : JsMap Z Caller) (n : Z) (c : Caller) :
  v = JNum n -> map_get Z.eqb n pc = Some c -> pending_has v pc = true.
Proof.
  intros -> H. simpl. rewrite (map_get_has Z.eqb), H. reflexivity.
Qed.

(** While a call is pending the port is open, and the pending ids are
    positive. *)
Lemma bridge_trans_open (w : World) np' pc' mid' tm' ck' e l :
  bridge_trans w (np', pc', mid', tm', ck') e l ->
  0 <= messageId w ->
  (forall n, In n (map_keys (pendingCallbacks w)) -> nativePort w <> None /\ 0 < n) ->
  0 <= mid' /\ (forall n, In n (map_keys pc') -> np' <> None /\ 0 < n).
Proof.
  intros H Hm Hin.
  assert (Hpos : 0 < js_incr (messageId w))
    by (unfold js_incr, MAX_EXACT; destruct (messageId w <? 2 ^ 53) eqn:E; lia).
  assert (Hport : port_after_connect w <> None)
    by (unfold port_after_connect; destruct (nativePort w); discriminate).
  inversion H; subst; (split; [lia|]); auto.
  - intros n Hn. apply (map_keys_set Z.eqb Z.eqb_spec) in Hn.
    destruct Hn as [->|Hn]; [now split|]. split; [assumption|]. now apply Hin.
  - intros n Hn. apply (map_keys_delete_incl Z.eqb) in Hn.
    apply (map_keys_set Z.eqb Z.eqb_spec) in Hn.
    destruct Hn as [->|Hn]; [now split|]. split; [assumption|]. now apply Hin.
  - intros n' Hn'. apply (map_keys_delete_incl Z.eqb) in Hn'. now apply Hin.
  - intros n [].
  - intros n Hn. apply (map_keys_delete_incl Z.eqb) in Hn. now apply Hin.
Qed.

Lemma run_events_open (es : list Event) (w : World) :
  0 <= messageId w ->
  (forall n, In n (map_keys (pendingCallbacks w)) -> nativePort w <> None /\ 0 < n) ->
  forall n, In n (map_keys (pendingCallbacks (world_of (run_events es w)))) ->
            nativePort (world_of (run_events es w)) <> None /\ 0 < n.
Proof.
  revert w. induction es as [|e r IH]; intros w Hm Hin; [exact Hin|].
  cbn [run_events]. rewrite world_of_bind.
  pose proof (step_bridge_trans e w) as Hs. rewrite bridge_of_eta in Hs.
  destruct (bridge_trans_open _ _ _ _ _ _ _ _ Hs Hm Hin) as (Hm' & Hin').
  apply IH; assumption.
Qed.

Lemma run_open (ok : bool) (es : list Event) (n : Z) (c : Caller) :
  map_get Z.eqb n (pendingCallbacks (fst (run ok es))) = Some c ->
  nativePort (fst (run ok es)) <> None /\ 0 < n.
Proof.
  rewrite run_eq. cbn [fst]. intros Hg.
  apply run_events_open.
  - rewrite startup_eq. cbn. lia.
  - rewrite startup_eq. cbn. intros ? [].
  - apply (map_has_In Z.eqb Z.eqb_spec). rewrite (map_get_has Z.eqb), Hg. reflexivity.
Qed.

(** A response is handed to the reaction of the call that is pending under
    its id. *)
Lemma response_runs_the_pending_reaction (w : World) (m : NativeMessage) (n : Z) (c : Caller) :
  microtasks w = [] -> nativePort w <> None ->
  m_id m = JNum n -> n <> 0 ->
  map_get Z.eqb n (pendingCallbacks w) = Some c ->
  microtasks (world_of (dispatch (EvNativeMessage m) w)) = [MtAwait c (settlement_of m)] /\
  responses (effects_of (step (EvNativeMessage m) w)) = caller_answer c (settlement_of m) /\
  pendingCallbacks (world_of (step (EvNativeMessage m) w)) =
    map_delete Z.eqb n (pendingCallbacks w).
Proof.
  intros Hmt Hp Hid Hn Hg.
  destruct w as [np pc dc mid tm mt ck so]. simpl in Hmt. subst mt.
  destruct np as [p|]; [|now elim Hp].
  split; [|split].
  - cbn [dispatch]. rewrite world_of_bind.
    cbn [get value_of world_of fst snd nativePort].
    rewrite (handleNativeMessage_response m _ n _ Hid Hn Hg). reflexivity.
  - unfold step. cbn [dispatch].
    rewrite !effects_of_bind, !world_of_bind.
    cbn [get value_of world_of effects_of fst snd nativePort app].
    rewrite (handleNativeMessage_response m _ n _ Hid Hn Hg).
    unfold settle_effect, settlement_of, runMicrotasks, queue_weight.
    destruct (truthy (m_error m)); destruct c; reflexivity.
  - unfold step. cbn [dispatch].
    rewrite !world_of_bind.
    cbn [get value_of world_of fst snd nativePort].
    rewrite (handleNativeMessage_response m _ n _ Hid Hn Hg).
    unfold settlement_of, runMicrotasks, queue_weight.
    destruct (truthy (m_error m)); destruct c; reflexivity.
Qed.

(** A timeout that finds its call pending rejects through the reaction that
    its closure captured. *)
Lemma timeout_runs_the_captured_reaction (w : World) (id : Z) (t : Timer) (rest : list Timer) :
  microtasks w = [] ->
  take_due_timer id (clock w) (timers w) = Some (t, rest) ->
  map_has Z.eqb (t_id t) (pendingCallbacks w) = true ->
  microtasks (world_of (dispatch (EvTimer id) w)) =
    [MtAwait (t_callback t) (Rejected TIMED_OUT)] /\
  responses (effects_of (step (EvTimer id) w)) =
    caller_answer (t_callback t) (Rejected TIMED_OUT).
Proof.
  intros Hmt Ht Hh.
  destruct w as [np pc dc mid tm mt ck so]. simpl in Hmt. subst mt.
  cbn [clock timers] in Ht. cbn [pendingCallbacks] in Hh.
  split.
  - cbn [dispatch]. rewrite world_of_bind.
    cbn [get value_of world_of fst snd clock timers]. rewrite Ht.
    rewrite world_of_bind. cbn [modify value_of world_of fst snd].
    rewrite onTimeout_eq. unfold_with. cbn [pendingCallbacks]. rewrite Hh. reflexivity.
  - unfold step. cbn [dispatch].
    rewrite !effects_of_bind, !world_of_bind.
    cbn [get value_of world_of effects_of fst snd clock timers app]. rewrite Ht.
    rewrite !effects_of_bind, !world_of_bind.
    cbn [modify value_of world_of effects_of fst snd app].
    rewrite onTimeout_eq. unfold_with. cbn [pendingCallbacks]. rewrite Hh.
    destruct (t_callback t); reflexivity.
Qed.

(** C6.  Along every run of the service worker (below 2^53 calls, where
    [++messageId] is exact), no call is settled twice, a settled call has left
    the pending table, and a call is resolved only with a message that carries
    its own id; a message settles no call but the one whose id it carries,
    and a message whose id is not pending settles nothing and leaves the
    pending table as it is.  A call is registered under an id that is not in
    use, next to the entries that are there.  A response is handed to the
    reaction of the very call that is pending under its id: that call's
    request is answered from this message, and every other entry stays as it
    is.  Likewise the timeout of a call rejects through the reaction of that
    call, and a disconnect queues, in table order, the reaction of each
    pending call with the rejection. *)
Theorem C6_calls_settle_at_most_once_and_by_their_own_id (ok : bool) (es : list Event) :
  messageId (fst (run ok es)) < MAX_EXACT ->
  NoDup (settled_ids (snd (run ok es))) /\
  (forall id, In id (settled_ids (snd (run ok es))) ->
     map_has Z.eqb id (pendingCallbacks (fst (run ok es))) = false) /\
  (forall id m, In (EResolve id m) (snd (run ok es)) -> m_id m = JNum id) /\
  (forall m e,
     In e (settlements (effects_of (step (EvNativeMessage m) (fst (run ok es))))) ->
     exists n, m_id m = JNum n /\ settled_id e = Some n) /\
  (forall m,
     pending_has (m_id m) (pendingCallbacks (fst (run ok es))) = false ->
     settlements (effects_of (step (EvNativeMessage m) (fst (run ok es)))) = [] /\
     pendingCallbacks (world_of (step (EvNativeMessage m) (fst (run ok es)))) =
       pendingCallbacks (fst (run ok es))) /\
  (forall env action data k,
     port_absent (fst (run ok es)) && negb (env_connect_ok env) = false ->
     env_post_error env = None ->
     map_has Z.eqb (js_incr (messageId (fst (run ok es))))
       (pendingCallbacks (fst (run ok es))) = false /\
     map_get Z.eqb (js_incr (messageId (fst (run ok es))))
       (pendingCallbacks (world_of (sendNativeMessage env action data k (fst (run ok es)))))
       = Some k /\
     (forall n c,
        map_get Z.eqb n (pendingCallbacks (fst (run ok es))) = Some c ->
        map_get Z.eqb n
          (pendingCallbacks (world_of (sendNativeMessage env action data k (fst (run ok es)))))
          = Some c)) /\
  (forall m n c,
     m_id m = JNum n ->
     map_get Z.eqb n (pendingCallbacks (fst (run ok es))) = Some c ->
     microtasks (world_of (dispatch (EvNativeMessage m) (fst (run ok es)))) =
       [MtAwait c (settlement_of m)] /\
     responses (effects_of (step (EvNativeMessage m) (fst (run ok es)))) =
       caller_answer c (settlement_of m) /\
     (forall n' c',
        n' <> n ->
        map_get Z.eqb n' (pendingCallbacks (fst (run ok es))) = Some c' ->
        map_get Z.eqb n'
          (pendingCallbacks (world_of (step (EvNativeMessage m) (fst (run ok es))))) =
          Some c')) /\
  (forall id t rest c,
     take_due_timer id (clock (fst (run ok es))) (timers (fst (run ok es))) =
       Some (t, rest) ->
     map_get Z.eqb id (pendingCallbacks (fst (run ok es))) = Some c ->
     t_callback t = c /\
     microtasks (world_of (dispatch (EvTimer id) (fst (run ok es)))) =
       [MtAwait c (Rejected TIMED_OUT)] /\
     responses (effects_of (step (EvTimer id) (fst (run ok es)))) =
       caller_answer c (Rejected TIMED_OUT)) /\
  (nativePort (fst (run ok es)) <> None ->
   microtasks (world_of (dispatch EvDisconnect (fst (run ok es)))) =
     map (fun kc => MtAwait (snd kc) (Rejected DISCONNECTED))
       (pendingCallbacks (fst (run ok es)))).
Proof.
  intros Hmax. destruct (run_inv ok es Hmax) as (Hwf & Hnd & Hs & Hres).
  pose proof (run_open ok es) as Hopen.
  set (w := fst (run ok es)) in *.
  destruct Hwf as ((Hpnd & Hle & Htm) & _ & Hmt).
  split; [exact Hnd|]. split; [intros id Hin; now apply Hs|]. split; [exact Hres|].
  split; [|split; [|split; [|split; [|split]]]].
  - intros m e Hin. rewrite <- settlements_loud in Hin.
    pose proof (step_bridge_trans (EvNativeMessage m) w) as Ht.
    rewrite bridge_of_eta in Ht. inversion Ht; subst.
    + match goal with H : [] = loud _ |- _ => rewrite <- H in Hin end. destruct Hin.
    + match goal with H : [_] = loud _ |- _ => rewrite <- H in Hin end.
      exists n. split; [assumption|].
      unfold settle_effect in Hin. destruct (truthy (m_error m)); simpl in Hin;
        destruct Hin as [<-|[]]; reflexivity.
  - intros m Hno.
    pose proof (step_bridge_trans (EvNativeMessage m) w) as Ht.
    rewrite bridge_of_eta in Ht. rewrite <- settlements_loud.
    inversion Ht; subst.
    + split; auto.
    + exfalso.
      match goal with Hid : m_id m = JNum _, Hg : map_get _ _ _ = Some _ |- _ =>
        rewrite (pending_has_get _ _ _ _ Hid Hg) in Hno end.
      discriminate.
  - intros env action data k Hp He.
    assert (Hfresh : map_has Z.eqb (js_incr (messageId w)) (pendingCallbacks w) = false).
    { rewrite (js_incr_exact _ Hmax). now apply fresh_id_absent. }
    split; [exact Hfresh|].
    rewrite sendNativeMessage_eq, Hp, He. cbv zeta. cbn [world_of fst snd pendingCallbacks].
    split; [apply (map_get_set_same Z.eqb Z.eqb_spec)|].
    intros n c Hg.
    rewrite (map_get_set_other Z.eqb Z.eqb_spec); [exact Hg|].
    intros ->. rewrite (map_get_has Z.eqb), Hg in Hfresh. discriminate.
  - intros m n c Hid Hg.
    destruct (Hopen n c Hg) as (Hport & Hpos).
    assert (Hn : n <> 0) by lia.
    destruct (response_runs_the_pending_reaction w m n c Hmt Hport Hid Hn Hg)
      as (H1 & H2 & H3).
    split; [exact H1|]. split; [exact H2|].
    intros n' c' Hne Hg'. rewrite H3.
    rewrite (map_get_delete_other Z.eqb Z.eqb_spec) by assumption. exact Hg'.
  - intros id t rest c Ht Hg.
    destruct (take_due_timer_spec _ _ _ _ _ Ht) as (Hin & Hid & _).
    assert (Hc : t_callback t = c).
    { destruct (Htm t Hin) as (_ & _ & Hsame). symmetry. apply Hsame.
      rewrite Hid. exact Hg. }
    assert (Hh : map_has Z.eqb (t_id t) (pendingCallbacks w) = true)
      by (rewrite Hid, (map_get_has Z.eqb), Hg; reflexivity).
    destruct (timeout_runs_the_captured_reaction w id t rest Hmt Ht Hh) as (H1 & H2).
    rewrite Hc in H1, H2. auto.
  - intros Hp. destruct w as [np pc dc mid tm mt ck so].
    cbn [dispatch]. rewrite world_of_bind.
    cbn [get value_of world_of fst snd nativePort] in *.
    destruct np as [p|]; [|now elim Hp].
    rewrite onDisconnect_eq. cbn in Hmt. subst mt. reflexivity.
Qed.

Lemma C6_calls_settle_at_most_once_witness :
  messageId (fst (run true duplicate_response_run)) < MAX_EXACT /\
  settled_ids (snd (run true duplicate_response_run)) = [1; 2] /\
  NoDup (settled_ids (snd (run true duplicate_response_run))).
Proof.
  split; [reflexivity|]. split; [reflexivity|].
  apply (C6_calls_settle_at_most_once_and_by_their_own_id true duplicate_response_run).
  reflexivity.
Defined.

(** ** Timeouts *)

Lemma bridge_trans_keeps_download_call (w : World) np' pc' mid' tm' ck' e l n d :
  bridge_wf (bridge_of w) -> messageId w < MAX_EXACT ->
  bridge_trans w (np', pc', mid', tm', ck') e l ->
  map_get Z.eqb n (pendingCallbacks w) = Some (CallDownload d) ->
  map_has Z.eqb n pc' = false ->
  e = EvDisconnect \/ exists m, e = EvNativeMessage m /\ m_id m = JNum n.
Proof.
  intros (Hnd & Hle & Htm) Hmax H Hg Hgone.
  pose proof (fresh_id_absent _ _ Hle) as Hfresh.
  pose proof (js_incr_exact _ Hmax) as Hid.
  assert (Hhas : map_has Z.eqb n (pendingCallbacks w) = true)
    by (rewrite (map_get_has Z.eqb), Hg; reflexivity).
  assert (Hother : forall n', n' <> n ->
            map_has Z.eqb n (map_delete Z.eqb n' (pendingCallbacks w)) = true).
  { intros n' Hne. rewrite (map_get_has Z.eqb),
      (map_get_delete_other Z.eqb Z.eqb_spec), Hg by auto. reflexivity. }
  inversion H; subst; rewrite ?Hid in *; try congruence.
  - (* sent *)
    exfalso. apply (map_has_false Z.eqb Z.eqb_spec) in Hgone. apply Hgone.
    apply (map_keys_set Z.eqb Z.eqb_spec). right.
    now apply (map_has_In Z.eqb Z.eqb_spec).
  - (* threw *)
    rewrite (map_delete_set_absent Z.eqb Z.eqb_spec) in Hgone by assumption.
    congruence.
  - (* response *)
    destruct (Z.eq_dec n0 n) as [->|Hne]; [right; eauto|].
    rewrite Hother in Hgone by assumption. discriminate.
  - (* disconnect *)
    now left.
  - (* timeout *)
    exfalso.
    match goal with Hd : take_due_timer _ _ _ = Some _ |- _ =>
      destruct (take_due_timer_spec _ _ _ _ _ Hd) as (Hin & _) end.
    destruct (Htm t Hin) as (_ & Hnot & Hsame).
    destruct (Z.eq_dec (t_id t) n) as [E|Hne].
    + rewrite E in Hsame. rewrite <- (Hsame _ Hg) in Hnot. discriminate.
    + rewrite Hother in Hgone by assumption. discriminate.
Qed.

Lemma map_has_delete_iff (n id : Z) (pc : JsMap Z Caller) :
  NoDup (map_keys pc) ->
  map_has Z.eqb id (map_delete Z.eqb n pc) = true <->
  id <> n /\ map_has Z.eqb id pc = true.
Proof.
  intros Hnd. destruct (Z.eq_dec id n) as [->|Hne].
  - rewrite (map_delete_removes Z.eqb Z.eqb_spec) by assumption.
    split; [discriminate | intros [H _]; now elim H].
  - rewrite !(map_get_has Z.eqb), (map_get_delete_other Z.eqb Z.eqb_spec) by assumption.
    tauto.
Qed.

Lemma map_has_set_iff (n id : Z) (k : Caller) (pc : JsMap Z Caller) :
  map_has Z.eqb id (map_set Z.eqb n k pc) = true <->
  id = n \/ map_has Z.eqb id pc = true.
Proof.
  rewrite !(map_has_In Z.eqb Z.eqb_spec). apply (map_keys_set Z.eqb Z.eqb_spec).
Qed.

(** ** A timeout stays armed while its call is pending *)

Lemma take_due_timer_split (id now : Z) (l : list Timer) (t : Timer) (rest : list Timer) :
  take_due_timer id now l = Some (t, rest) ->
  forall x, In x l -> x = t \/ In x rest.
Proof.
  revert rest. induction l as [|y l IH]; simpl; intros rest H x Hx; [contradiction|].
  destruct ((t_id y =? id) && (t_due y <=? now)).
  - inversion H; subst. destruct Hx as [->|Hx]; auto.
  - destruct (take_due_timer id now l) as [[t' r']|]; [|discriminate].
    inversion H; subst. destruct Hx as [->|Hx]; [right; now left|].
    destruct (IH r' eq_refl x Hx) as [->|Hr]; [now left | right; now right].
Qed.

Lemma take_due_timer_some (id now : Z) (l : list Timer) (x : Timer) :
  In x l -> t_id x = id -> t_due x <= now ->
  exists t rest, take_due_timer id now l = Some (t, rest).
Proof.
  induction l as [|y l IH]; simpl; intros Hx Hid Hdue; [contradiction|].
  destruct ((t_id y =? id) && (t_due y <=? now)) eqn:E; [eauto|].
  destruct Hx as [->|Hx].
  - apply andb_false_iff in E. destruct E as [E|E]; [apply Z.eqb_neq in E | apply Z.leb_gt in E];
      lia.
  - destruct (IH Hx Hid Hdue) as (t & rest & ->). eauto.
Qed.

Lemma take_due_timer_none (id now : Z) (l : list Timer) :
  (forall x, In x l -> t_id x = id -> now < t_due x) ->
  take_due_timer id now l = None.
Proof.
  induction l as [|y l IH]; simpl; intros H; [reflexivity|].
  destruct ((t_id y =? id) && (t_due y <=? now)) eqn:E.
  - apply andb_true_iff in E. destruct E as [E1 E2].
    apply Z.eqb_eq in E1. apply Z.leb_le in E2.
    specialize (H y (or_introl eq_refl) E1). lia.
  - rewrite IH; [reflexivity|]. intros x Hx. apply H. now right.
Qed.

(** The timeout [t0] of call [t_id t0]: it is the only timeout of that call,
    and it is armed as long as the call is pending. *)
Lemma bridge_trans_keeps_timer (w : World) np' pc' mid' tm' ck' e l (t0 : Timer) :
  bridge_wf (bridge_of w) -> messageId w < MAX_EXACT ->
  bridge_trans w (np', pc', mid', tm', ck') e l ->
  t_id t0 <= messageId w ->
  (forall t, In t (timers w) -> t_id t = t_id t0 -> t = t0) ->
  (map_has Z.eqb (t_id t0) (pendingCallbacks w) = true -> In t0 (timers w)) ->
  t_id t0 <= mid' /\
  (forall t, In t tm' -> t_id t = t_id t0 -> t = t0) /\
  (map_has Z.eqb (t_id t0) pc' = true -> In t0 tm').
Proof.
  intros (Hnd & Hle & Htm) Hmax H Hid Huniq Harmed.
  pose proof (js_incr_exact _ Hmax) as Hincr.
  assert (Hafter : forall action k t,
            In t (timers_after action (js_incr (messageId w)) (clock w) k (timers w)) ->
            t_id t = t_id t0 -> t = t0).
  { intros action k t Hin Ht. unfold timers_after in Hin.
    destruct (String.eqb action "download"); [now apply Huniq|].
    apply in_app_or in Hin. destruct Hin as [Hin|[<-|[]]]; [now apply Huniq|].
    simpl in Ht. lia. }
  assert (Hkeep : forall action k,
            In t0 (timers w) ->
            In t0 (timers_after action (js_incr (messageId w)) (clock w) k (timers w))).
  { intros action k Hin. unfold timers_after.
    destruct (String.eqb action "download"); [assumption | apply in_or_app; now left]. }
  inversion H; subst; rewrite ?Hincr in *.
  - auto.
  - auto.
  - auto.
  - (* sent *)
    split; [lia|]. split; [apply Hafter|].
    intros Hh. apply Hkeep, Harmed.
    apply map_has_set_iff in Hh. destruct Hh as [E|Hh]; [lia | exact Hh].
  - (* threw *)
    split; [lia|]. split; [apply Hafter|].
    intros Hh. apply Hkeep, Harmed.
    apply map_has_delete_iff in Hh;
      [|now apply (map_set_NoDup Z.eqb Z.eqb_spec)].
    destruct Hh as (_ & Hh).
    apply map_has_set_iff in Hh. destruct Hh as [E|Hh]; [lia | exact Hh].
  - (* response *)
    split; [assumption|]. split; [assumption|].
    intros Hh. apply Harmed. apply map_has_delete_iff in Hh; tauto.
  - (* disconnect *)
    split; [assumption|]. split; [assumption|]. intros Hh. discriminate Hh.
  - (* timeout *)
    match goal with Hd : take_due_timer _ _ _ = Some _ |- _ =>
      pose proof (take_due_timer_spec _ _ _ _ _ Hd) as (_ & _ & _ & Hsub);
      pose proof (take_due_timer_split _ _ _ _ _ Hd) as Hsplit end.
    split; [assumption|]. split; [intros x Hx; apply Huniq; auto|].
    intros Hh. apply map_has_delete_iff in Hh; [|assumption].
    destruct Hh as (Hne & Hh).
    destruct (Hsplit t0 (Harmed Hh)) as [E|Hin]; [congruence | exact Hin].
  - (* stale timeout *)
    match goal with Hd : take_due_timer _ _ _ = Some _ |- _ =>
      pose proof (take_due_timer_spec _ _ _ _ _ Hd) as (_ & _ & _ & Hsub);
      pose proof (take_due_timer_split _ _ _ _ _ Hd) as Hsplit end.
    split; [assumption|]. split; [intros x Hx; apply Huniq; auto|].
    intros Hh.
    destruct (Hsplit t0 (Harmed Hh)) as [E|Hin]; [|exact Hin].
    subst t0. congruence.
Qed.

Lemma run_events_keeps_timer (es : list Event) (w : World) (t0 : Timer) :
  wf w -> messageId (world_of (run_events es w)) < MAX_EXACT ->
  t_id t0 <= messageId w ->
  (forall t, In t (timers w) -> t_id t = t_id t0 -> t = t0) ->
  (map_has Z.eqb (t_id t0) (pendingCallbacks w) = true -> In t0 (timers w)) ->
  wf (world_of (run_events es w)) /\
  (forall t, In t (timers (world_of (run_events es w))) -> t_id t = t_id t0 -> t = t0) /\
  (map_has Z.eqb (t_id t0) (pendingCallbacks (world_of (run_events es w))) = true ->
   In t0 (timers (world_of (run_events es w)))).
Proof.
  revert w. induction es as [|e r IH]; intros w Hwf Hmax Hid Huniq Harmed; [auto|].
  cbn [run_events] in *. rewrite world_of_bind in *.
  assert (Hlt : messageId w < MAX_EXACT).
  { pose proof (step_messageId e w).
    pose proof (run_events_messageId r (world_of (step e w))). lia. }
  pose proof (step_bridge_trans e w) as Hs. rewrite bridge_of_eta in Hs.
  destruct (bridge_trans_keeps_timer _ _ _ _ _ _ _ _ t0 (proj1 Hwf) Hlt Hs Hid Huniq Harmed)
    as (Hid' & Huniq' & Harmed').
  apply IH; auto using step_wf.
Qed.

(** Sending the call of a timed request arms its timeout. *)
Lemma timed_request_arms (w : World) (req : nat) (r : Request) (env : Env) :
  is_timed_request r = true ->
  port_absent w && negb (env_connect_ok env) = false ->
  env_post_error env = None ->
  exists k,
    is_download_call k = false /\
    pendingCallbacks (world_of (step (EvRequest req r env) w)) =
      map_set Z.eqb (js_incr (messageId w)) k (pendingCallbacks w) /\
    timers (world_of (step (EvRequest req r env) w)) =
      timers w ++ [mkTimer (js_incr (messageId w)) (clock w + 30000) k] /\
    messageId (world_of (step (EvRequest req r env) w)) = js_incr (messageId w) /\
    clock (world_of (step (EvRequest req r env) w)) = clock w.
Proof.
  intros Hr Hp He.
  pose proof (step_bridge_trans (EvRequest req r env) w) as Hs.
  unfold bridge_of in Hs at 1.
  inversion Hs as [e' Hq|ms|req' r' env' Hb Hport Hok
                  |req' r' env' action data k Hc Hk Hp' He'
                  |req' r' env' action data k err Hc Hk Hp' He'
                  |m n c Hid Hn Hg| |id' t' rest' Ht' Hh'|id' t' rest' Ht' Hh']; subst.
  - destruct r; discriminate.
  - unfold port_absent in Hp. rewrite Hport, Hok in Hp. discriminate.
  - exists k. destruct r; try discriminate; simpl in Hc; inversion Hc; subst;
      (split; [reflexivity|]); unfold timers_after; simpl; auto.
  - congruence.
Qed.

(** C7.  A call other than the download call arms a timeout of 30000 ms when
    it is sent; when that timeout is run (never before its due time) and the
    call is still pending, the call is rejected with "Request timed out" and
    leaves the pending table.  The timeout stays armed for as long as the
    call is pending: whatever happens after the request, if the call is still
    pending when 30000 ms have passed, its timeout is there to be run, and
    running it rejects the call; before that it cannot be run.  The download
    call arms no timeout: between two tasks a pending download call leaves
    the pending table only by a message that carries its id or by a
    disconnect, however much time passes. *)
Theorem C7_only_calls_other_than_download_time_out (w : World) :
  reachable w -> messageId w < MAX_EXACT ->
  (forall env action data k,
     String.eqb action "download" = false ->
     port_absent w && negb (env_connect_ok env) = false ->
     timers (world_of (sendNativeMessage env action data k w)) =
       timers w ++ [mkTimer (js_incr (messageId w)) (clock w + 30000) k] /\
     In (ESetTimeout (js_incr (messageId w)) 30000)
        (effects_of (sendNativeMessage env action data k w))) /\
  (forall id t rest,
     take_due_timer id (clock w) (timers w) = Some (t, rest) ->
     map_has Z.eqb id (pendingCallbacks w) = true ->
     t_due t <= clock w /\
     settlements (effects_of (step (EvTimer id) w)) = [EReject (Some id) TIMED_OUT] /\
     map_has Z.eqb id (pendingCallbacks (world_of (step (EvTimer id) w))) = false) /\
  (forall env data k,
     timers (world_of (sendNativeMessage env "download" data k w)) = timers w /\
     forall id delay,
       ~ In (ESetTimeout id delay) (effects_of (sendNativeMessage env "download" data k w))) /\
  (forall n d e,
     map_get Z.eqb n (pendingCallbacks w) = Some (CallDownload d) ->
     map_has Z.eqb n (pendingCallbacks (world_of (step e w))) = false ->
     e = EvDisconnect \/ exists m, e = EvNativeMessage m /\ m_id m = JNum n) /\
  (forall ms,
     pendingCallbacks (world_of (step (EvElapse ms) w)) = pendingCallbacks w) /\
  (forall req r env es,
     is_timed_request r = true ->
     port_absent w && negb (env_connect_ok env) = false ->
     env_post_error env = None ->
     let id := js_incr (messageId w) in
     let w1 := world_of (step (EvRequest req r env) w) in
     let w2 := world_of (run_events es w1) in
     messageId w2 < MAX_EXACT ->
     map_has Z.eqb id (pendingCallbacks w1) = true /\
     (map_has Z.eqb id (pendingCallbacks w2) = true ->
      (clock w2 < clock w + 30000 ->
       take_due_timer id (clock w2) (timers w2) = None /\
       settlements (effects_of (step (EvTimer id) w2)) = [] /\
       pendingCallbacks (world_of (step (EvTimer id) w2)) = pendingCallbacks w2) /\
      (clock w + 30000 <= clock w2 ->
       (exists t rest, take_due_timer id (clock w2) (timers w2) = Some (t, rest)) /\
       settlements (effects_of (step (EvTimer id) w2)) = [EReject (Some id) TIMED_OUT] /\
       map_has Z.eqb id (pendingCallbacks (world_of (step (EvTimer id) w2))) = false))).
Proof.
  intros Hr Hmax. destruct (reachable_wf w Hr Hmax) as (Hb & Hd & Hm).
  split; [|split; [|split; [|split; [|split]]]].
  - intros env action data k Ha Hp. rewrite sendNativeMessage_eq, Hp. cbv zeta.
    unfold timers_after, timer_effects. rewrite Ha.
    destruct (env_post_error env); cbv [world_of effects_of fst snd timers];
      (split; [reflexivity|]); apply in_or_app; right; left; reflexivity.
  - intros id t rest Ht Hh.
    destruct (take_due_timer_spec _ _ _ _ _ Ht) as (Hin & Hid & Hdue & _).
    split; [assumption|].
    pose proof (step_bridge_trans (EvTimer id) w) as Hs. rewrite bridge_of_eta in Hs.
    rewrite <- settlements_loud.
    inversion Hs as [e Hq| | | | | | |id' t' rest' Ht' Hh'|id' t' rest' Ht' Hh']; subst.
    + rewrite Ht in Hq. discriminate.
    + rewrite Ht in Ht'. inversion Ht'; subst.
      split; [reflexivity|].
      destruct Hb as (Hnd & _). apply (map_delete_removes Z.eqb Z.eqb_spec). assumption.
    + rewrite Ht in Ht'. inversion Ht'; subst. congruence.
  - intros env data k. rewrite sendNativeMessage_eq.
    destruct (port_absent w && negb (env_connect_ok env)).
    + split; [destruct w; reflexivity|]. intros id delay [E|[E|[]]]; discriminate.
    + cbv zeta. unfold connect_effects.
      destruct (env_post_error env), (port_absent w);
        (split; [reflexivity|]); intros id delay Hin; simpl in Hin;
        repeat (destruct Hin as [Hin|Hin]; [discriminate|]); contradiction.
  - intros n d e Hg Hgone.
    pose proof (step_bridge_trans e w) as Hs. rewrite bridge_of_eta in Hs.
    eapply bridge_trans_keeps_download_call; eassumption.
  - intros ms.
    pose proof (step_bridge_trans (EvElapse ms) w) as Hs. rewrite bridge_of_eta in Hs.
    inversion Hs; subst; [contradiction | congruence].
  - intros req r env es Htimed Hp He. cbv zeta. intros Hmax2.
    destruct (timed_request_arms w req r env Htimed Hp He)
      as (k & Hk & Hpc & Htm & Hmid & Hck).
    set (w1 := world_of (step (EvRequest req r env) w)) in *.
    set (id := js_incr (messageId w)) in *.
    set (t0 := mkTimer id (clock w + 30000) k).
    assert (Hwf1 : wf w1) by (apply step_wf; [split; [|split]; assumption | assumption]).
    assert (Hid : id = messageId w + 1) by (apply js_incr_exact; assumption).
    assert (Hpend1 : map_has Z.eqb id (pendingCallbacks w1) = true).
    { rewrite Hpc. apply (map_has_set_same Z.eqb Z.eqb_spec). }
    split; [exact Hpend1|].
    assert (Huniq1 : forall t, In t (timers w1) -> t_id t = t_id t0 -> t = t0).
    { intros t Hin Ht. rewrite Htm in Hin. apply in_app_or in Hin.
      destruct Hin as [Hin|[<-|[]]]; [|reflexivity].
      destruct Hb as (_ & _ & Htok). destruct (Htok t Hin) as (Hle & _).
      simpl in Ht. lia. }
    assert (Harmed1 : map_has Z.eqb (t_id t0) (pendingCallbacks w1) = true ->
                      In t0 (timers w1)).
    { intros _. rewrite Htm. apply in_or_app. right. now left. }
    assert (Hle1 : t_id t0 <= messageId w1) by (rewrite Hmid; simpl; lia).
    destruct (run_events_keeps_timer es w1 t0 Hwf1 Hmax2 Hle1 Huniq1 Harmed1)
      as (Hwf2 & Huniq2 & Harmed2).
    set (w2 := world_of (run_events es w1)) in *.
    intros Hpend2. cbn [t_id t0] in *.
    pose proof (step_bridge_trans (EvTimer id) w2) as Hs. rewrite bridge_of_eta in Hs.
    split.
    + intros Hearly.
      assert (Hnone : take_due_timer id (clock w2) (timers w2) = None).
      { apply take_due_timer_none. intros x Hx Hxid.
        rewrite (Huniq2 x Hx Hxid). simpl. exact Hearly. }
      split; [exact Hnone|]. rewrite <- settlements_loud.
      inversion Hs as [e Hq| | | | | | |id' t' rest' Ht' Hh'|id' t' rest' Ht' Hh']; subst;
        [split; reflexivity | congruence | congruence].
    + intros Hlate.
      destruct (take_due_timer_some id (clock w2) (timers w2) t0 (Harmed2 Hpend2) eq_refl Hlate)
        as (t & rest & Ht).
      split; [eauto|].
      destruct (take_due_timer_spec _ _ _ _ _ Ht) as (_ & Htid & _).
      rewrite <- settlements_loud.
      inversion Hs as [e Hq| | | | | | |id' t' rest' Ht' Hh'|id' t' rest' Ht' Hh']; subst.
      * rewrite Ht in Hq. discriminate.
      * rewrite Ht in Ht'. inversion Ht'; subst. rewrite Htid.
        split; [reflexivity|].
        destruct Hwf2 as ((Hnd2 & _) & _).
        apply (map_delete_removes Z.eqb Z.eqb_spec). assumption.
      * rewrite Ht in Ht'. inversion Ht'; subst. rewrite Htid in Hh'. congruence.
Qed.

Lemma C7_only_calls_other_than_download_witness :
  let w := fst (run true []) in
  let w2 := world_of (run_events [EvElapse 30000]
                        (world_of (step (EvRequest 0 ReqTestConnection env0) w))) in
  reachable w /\ messageId w < MAX_EXACT /\
  map_has Z.eqb 1 (pendingCallbacks w2) = true /\
  clock w + 30000 <= clock w2 /\
  settlements (effects_of (step (EvTimer 1) w2)) = [EReject (Some 1) TIMED_OUT].
Proof.
  cbv zeta.
  assert (Hr : reachable (fst (run true [])))
    by (exists true, []; reflexivity).
  assert (Hmax : messageId (fst (run true [])) < MAX_EXACT) by reflexivity.
  split; [exact Hr|]. split; [exact Hmax|]. split; [reflexivity|].
  split; [vm_compute; discriminate|].
  pose proof (C7_only_calls_other_than_download_time_out (fst (run true [])) Hr Hmax)
    as (_ & _ & _ & _ & _ & H).
  specialize (H 0%nat ReqTestConnection env0 [EvElapse 30000] eq_refl eq_refl eq_refl).
  cbv zeta in H.
  destruct (H eq_refl) as (_ & H2).
  destruct (H2 eq_refl) as (_ & H3).
  assert (Hlate : clock (fst (run true [])) + 30000 <=
                  clock (world_of (run_events [EvElapse 30000]
                           (world_of (step (EvRequest 0 ReqTestConnection env0)
                                        (fst (run true []))))))).
  { vm_compute. discriminate. }
  exact (proj1 (proj2 (H3 Hlate))).
Defined.

(** ** Testing the connection *)

(** C8.  [testConnection] always answers normally and never with a thrown
    error.  When the channel is absent and cannot be opened, or when the
    write fails, the caller is answered at once with [connected: false] and
    the error message; otherwise the call is pending, and whatever settles it
    later (a response, an error response, the timeout, a disconnect) the
    caller is answered with [connected: true] and the version fields of the
    response when the call resolved, and with [connected: false] and the
    error message when it was rejected. *)
Theorem C8_test_connection_never_throws (w : World) (req : nat) (env : Env) :
  microtasks w = [] ->
  (port_absent w && negb (env_connect_ok env) = true ->
   responses (effects_of (step (EvRequest req ReqTestConnection env) w)) =
     [ESendResponse req (RespNotConnected FAILED_TO_CONNECT)]) /\
  (forall message,
   port_absent w && negb (env_connect_ok env) = false ->
   env_post_error env = Some message ->
   responses (effects_of (step (EvRequest req ReqTestConnection env) w)) =
     [ESendResponse req (RespNotConnected message)]) /\
  (port_absent w && negb (env_connect_ok env) = false ->
   env_post_error env = None ->
   responses (effects_of (step (EvRequest req ReqTestConnection env) w)) = [] /\
   map_get Z.eqb (js_incr (messageId w))
     (pendingCallbacks (world_of (step (EvRequest req ReqTestConnection env) w))) =
     Some (CallTest req)) /\
  (forall m n,
   nativePort w <> None -> m_id m = JNum n -> n <> 0 ->
   map_get Z.eqb n (pendingCallbacks w) = Some (CallTest req) ->
   responses (effects_of (step (EvNativeMessage m) w)) =
     [ESendResponse req (test_answer (settlement_of m))]) /\
  (forall id t rest,
   take_due_timer id (clock w) (timers w) = Some (t, rest) ->
   map_has Z.eqb (t_id t) (pendingCallbacks w) = true ->
   t_callback t = CallTest req ->
   responses (effects_of (step (EvTimer id) w)) =
     [ESendResponse req (RespNotConnected TIMED_OUT)]) /\
  (forall w' o,
   microtasks w' = [MtAwait (CallTest req) o] ->
   effects_of (runMicrotasks w') = [ESendResponse req (test_answer o)]).
Proof.
  intros Hmt. destruct w as [np pc dc mid tm mt ck so]. simpl in Hmt. subst mt.
  destruct env as [cok perr now rnd].
  split; [|split; [|split; [|split; [|split]]]].
  - unfold step, dispatch, handleRequest, handleTestConnection, runMicrotasks,
      queue_weight, port_absent.
    intros Hp. destruct np; [discriminate|destruct cok; [discriminate|]]. reflexivity.
  - unfold step, dispatch, handleRequest, handleTestConnection, runMicrotasks,
      queue_weight, port_absent.
    intros message Hp He. simpl in He. subst perr.
    destruct np; [|destruct cok; [|discriminate]]; reflexivity.
  - unfold step, dispatch, handleRequest, handleTestConnection, runMicrotasks,
      queue_weight, port_absent.
    intros Hp He. simpl in He. subst perr.
    destruct np; [|destruct cok; [|discriminate]];
      (split; [reflexivity|]; jsimpl; apply (map_get_set_same Z.eqb Z.eqb_spec)).
  - intros m n Hp Hid Hn Hg. destruct np as [p|]; [|now elim Hp].
    unfold step. cbn [dispatch].
    rewrite effects_of_bind, world_of_bind, effects_of_bind.
    cbn [get value_of world_of effects_of fst snd nativePort app].
    rewrite (handleNativeMessage_response m _ n _ Hid Hn Hg).
    unfold settle_effect, settlement_of, runMicrotasks, queue_weight.
    destruct (truthy (m_error m)); reflexivity.
  - intros id t rest Ht Hh Hc.
    unfold step. cbn [dispatch].
    rewrite effects_of_bind, world_of_bind, effects_of_bind.
    cbn [get value_of world_of effects_of fst snd clock timers app].
    cbn [clock timers] in Ht. rewrite Ht.
    rewrite effects_of_bind, world_of_bind.
    cbn [modify value_of world_of effects_of fst snd app].
    rewrite onTimeout_eq. unfold_with. cbn [pendingCallbacks].
    cbn [pendingCallbacks] in Hh. rewrite Hh, Hc. reflexivity.
  - intros w' o Hq. destruct w' as [np' pc' dc' mid' tm' mt' ck' so'].
    simpl in Hq. subst mt'. destruct o as [m|message]; reflexivity.
Qed.

Lemma C8_test_connection_witness :
  let w := fst (run false []) in
  microtasks w = [] /\
  port_absent w && negb (env_connect_ok env_no_host) = true /\
  responses (effects_of (step (EvRequest 0 ReqTestConnection env_no_host) w)) =
    [ESendResponse 0 (RespNotConnected FAILED_TO_CONNECT)].
Proof.
  cbv zeta. split; [reflexivity|]. split; [reflexivity|].
  exact (proj1 (C8_test_connection_never_throws
                  (fst (run false [])) 0%nat env_no_host eq_refl) eq_refl).
Defined.

(** ** Connecting *)

Lemma connect_attempts_loud (t : list Effect) :
  connect_attempts (loud t) = connect_attempts t.
Proof.
  unfold connect_attempts. f_equal.
  induction t as [|e t IH]; [reflexivity|].
  unfold loud in *; simpl. destruct e; simpl; now rewrite ?IH.
Qed.

Lemma connect_attempts_app (a b : list Effect) :
  connect_attempts (a ++ b) = (connect_attempts a + connect_attempts b)%nat.
Proof. unfold connect_attempts. now rewrite filter_app, length_app. Qed.

Lemma connect_attempts_reject_all (pc : JsMap Z Caller) :
  connect_attempts (reject_all_effects pc) = 0%nat.
Proof. induction pc as [|[k c] r IH]; [reflexivity | exact IH]. Qed.

(** C9, as stated, fails.  The script itself calls [connectToNativeHost()]
    when the service worker starts, before any caller asks for anything; and
    when that attempt succeeded, the first operation connects nothing. *)
Lemma C9_connects_when_the_process_starts :
  snd (run true []) = [EConnectNative NATIVE_HOST_NAME true] /\
  connect_attempts (snd (run true [])) = 1%nat /\
  connect_attempts
    (effects_of (step (EvRequest 0 ReqTestConnection env0) (fst (run true [])))) = 0%nat.
Proof. repeat split; vm_compute; reflexivity. Qed.

(** C9, amended.  The worker is connected to once when the process starts.
    After that a connection is attempted only inside a caller-initiated
    bridge operation that finds the channel absent (after a disconnect or a
    failed attempt), and then exactly once; no message, disconnect, timer,
    passage of time or keep-alive tick ever connects, so there is no
    background retry. *)
Theorem C9_connects_at_startup_and_lazily_afterwards :
  (forall ok, connect_attempts (effects_of (startup ok boot)) = 1%nat) /\
  (forall w e,
     connect_attempts (effects_of (step e w)) =
     match e with
     | EvRequest _ r _ =>
         if is_bridge_request r && port_absent w then 1%nat else 0%nat
     | _ => 0%nat
     end).
Proof.
  split; [intros ok; rewrite startup_eq; reflexivity|].
  intros w e. rewrite <- connect_attempts_loud.
  pose proof (step_bridge_trans e w) as Hs. rewrite bridge_of_eta in Hs.
  inversion Hs as [e' Hq|ms|req r env Hb Hp Hok
                  |req r env action data k Hc Hk Hp He
                  |req r env action data k err Hc Hk Hp He
                  |m n c Hid Hn Hg| |id t rest Ht Hh|id t rest Ht Hh]; subst;
    try reflexivity.
  - destruct e; try reflexivity. now rewrite Hq.
  - rewrite Hb. unfold port_absent. rewrite Hp. reflexivity.
  - destruct (request_call_kind _ _ _ _ _ _ Hc) as [_ ->].
    unfold connect_effects, timer_effects.
    destruct (port_absent w), (String.eqb action "download"); reflexivity.
  - destruct (request_call_kind _ _ _ _ _ _ Hc) as [_ ->].
    unfold connect_effects, timer_effects.
    destruct (port_absent w), (String.eqb action "download"); reflexivity.
  - unfold settle_effect. destruct (truthy (m_error m)); reflexivity.
  - apply connect_attempts_reject_all.
Qed.

(** ** A write that throws *)

Lemma settlements_connect_timer (w : World) (ok : bool) (action : string) (id : Z)
    (last : Effect) :
  settlements (connect_effects w ok ++ timer_effects action id ++ [last]) =
  settlements [last].
Proof.
  unfold connect_effects, timer_effects.
  destruct (port_absent w), (String.eqb action "download"); reflexivity.
Qed.

(** C10.  When [postMessage] throws during a call, the promise of the call is
    rejected with that very error and with nothing else, and the entry that
    was just stored is deleted again: the pending table is the one from
    before the call, it has no entry under the id of the call, and the
    timeout that may have been armed for the call finds nothing to reject. *)
Theorem C10_failed_write_leaves_no_pending_entry
    (w : World) (env : Env) (action : string) (data : list (string * JsVal))
    (k : Caller) (err : string) :
  reachable w -> messageId w < MAX_EXACT ->
  port_absent w && negb (env_connect_ok env) = false ->
  env_post_error env = Some err ->
  settlements (effects_of (sendNativeMessage env action data k w)) =
    [EReject (Some (js_incr (messageId w))) err] /\
  microtasks (world_of (sendNativeMessage env action data k w)) =
    microtasks w ++ [MtAwait k (Rejected err)] /\
  pendingCallbacks (world_of (sendNativeMessage env action data k w)) =
    pendingCallbacks w /\
  pending_has (JNum (js_incr (messageId w)))
    (pendingCallbacks (world_of (sendNativeMessage env action data k w))) = false /\
  (forall t,
     t_id t = js_incr (messageId w) ->
     onTimeout t (world_of (sendNativeMessage env action data k w)) =
       (tt, world_of (sendNativeMessage env action data k w), [])).
Proof.
  intros Hr Hmax Hp He.
  destruct (reachable_wf w Hr Hmax) as ((Hnd & Hle & Htm) & _ & _).
  pose proof (fresh_id_absent _ _ Hle) as Hfresh.
  rewrite <- (js_incr_exact _ Hmax) in Hfresh.
  rewrite sendNativeMessage_eq, Hp. cbv zeta. rewrite He.
  cbv [world_of effects_of fst snd].
  rewrite settlements_connect_timer.
  split; [reflexivity|]. split; [reflexivity|].
  cbn [pendingCallbacks pending_has].
  rewrite (map_delete_set_absent Z.eqb Z.eqb_spec) by assumption.
  split; [reflexivity|]. split; [exact Hfresh|].
  intros t Ht. rewrite onTimeout_eq. cbn [pendingCallbacks]. rewrite Ht, Hfresh.
  reflexivity.
Qed.

Lemma C10_failed_write_witness :
  let w := fst (run true unanswered_test_run) in
  reachable w /\ messageId w < MAX_EXACT /\
  pendingCallbacks (world_of (sendNativeMessage env_post_throws "selectDirectory" []
                                (CallSelectDirectory 1) w)) =
    [(1, CallTest 0)].
Proof.
  cbv zeta.
  assert (Hr : reachable (fst (run true unanswered_test_run)))
    by (exists true, unanswered_test_run; reflexivity).
  assert (Hmax : messageId (fst (run true unanswered_test_run)) < MAX_EXACT)
    by reflexivity.
  split; [exact Hr|]. split; [exact Hmax|].
  exact (proj1 (proj2 (proj2
           (C10_failed_write_leaves_no_pending_entry
              (fst (run true unanswered_test_run)) env_post_throws
              "selectDirectory" [] (CallSelectDirectory 1)
              "Attempting to use a disconnected port object"
              Hr Hmax eq_refl eq_refl)))).
Defined.

(** * Further properties of the service worker *)

(** ** The job table only shrinks, except when a download is started *)

Lemma map_has_delete_incl {V : Type} (k k' : string) (m : JsMap string V) :
  map_has String.eqb k' (map_delete String.eqb k m) = true ->
  map_has String.eqb k' m = true.
Proof.
  intros H. apply (map_has_In String.eqb String.eqb_spec) in H.
  apply (map_has_In String.eqb String.eqb_spec).
  eapply map_keys_delete_incl; eassumption.
Qed.

Lemma download_delete_incl (v : JsVal) (d : string) (dc : JsMap string bool) :
  map_has String.eqb d (download_delete v dc) = true ->
  map_has String.eqb d dc = true.
Proof. destruct v; simpl; auto. apply map_has_delete_incl. Qed.

Lemma runMicrotask_jobs_incl (t : Microtask) (w : World) (d : string) :
  map_has String.eqb d (downloadCallbacks (world_of (runMicrotask t w))) = true ->
  map_has String.eqb d (downloadCallbacks w) = true.
Proof.
  destruct w as [np pc dc mid tm mt ck so].
  destruct t as [c o|req c|req r]; [|exact (fun H => H)..].
  destruct c as [req|d'|req d'|req|req]; destruct o as [m|msg]; jsimpl;
    first [ exact (fun H => H) | apply map_has_delete_incl | apply download_delete_incl ].
Qed.

Lemma drain_jobs_incl (fuel : nat) (w : World) (d : string) :
  map_has String.eqb d (downloadCallbacks (world_of (drain fuel w))) = true ->
  map_has String.eqb d (downloadCallbacks w) = true.
Proof.
  revert w. induction fuel as [|fuel IH]; intros w; [exact (fun H => H)|].
  simpl. rewrite world_of_bind. cbn [get value_of world_of fst snd].
  destruct (microtasks w) as [|t q] eqn:E; [exact (fun H => H)|].
  rewrite !world_of_bind. cbn [modify value_of world_of fst snd].
  intros H. apply IH, runMicrotask_jobs_incl in H. destruct w; exact H.
Qed.

Lemma runMicrotasks_jobs_incl (w : World) (d : string) :
  map_has String.eqb d (downloadCallbacks (world_of (runMicrotasks w))) = true ->
  map_has String.eqb d (downloadCallbacks w) = true.
Proof.
  unfold runMicrotasks. rewrite world_of_bind. cbn [get value_of world_of fst snd].
  apply drain_jobs_incl.
Qed.

Lemma table_after_event_incl (m : NativeMessage) (d : string) (dc : JsMap string bool) :
  map_has String.eqb d (table_after_event m dc) = true ->
  map_has String.eqb d dc = true.
Proof.
  unfold table_after_event.
  destruct (is_event m "complete"), (is_event m "error"); intros H;
    repeat apply download_delete_incl in H; exact H.
Qed.

Lemma map_has_set_inv {V : Type} (k k' : string) (v : V) (m : JsMap string V) :
  map_has String.eqb k' (map_set String.eqb k v m) = true ->
  k' = k \/ map_has String.eqb k' m = true.
Proof.
  intros H. apply (map_has_In String.eqb String.eqb_spec) in H.
  apply (map_keys_set String.eqb String.eqb_spec) in H as [->|H]; [now left|right].
  now apply (map_has_In String.eqb String.eqb_spec).
Qed.

Lemma dispatch_jobs_incl (e : Event) (w : World) (d : string) :
  map_has String.eqb d (downloadCallbacks (world_of (dispatch e w))) = true ->
  map_has String.eqb d (downloadCallbacks w) = true \/
  exists req options env,
    e = EvRequest req (ReqStartDownload options) env /\ d = make_downloadId env.
Proof.
  destruct e as [req r env|m| |id|ms| |req err]; cbn [dispatch].
  - rewrite handleRequest_downloadCallbacks. destruct r; auto.
    intros H. apply map_has_set_inv in H as [->|H]; [right; eauto | now left].
  - rewrite world_of_bind. cbn [get value_of world_of fst snd].
    destruct (nativePort w); [|now left].
    destruct (truthy (m_id m) && pending_has (m_id m) (pendingCallbacks w)) eqn:Hm.
    + destruct (pending_match _ _ Hm) as (n & c & Hid & Hn & Hg).
      rewrite (handleNativeMessage_response m w n c Hid Hn Hg).
      destruct w; now left.
    + rewrite (handleNativeMessage_event m w Hm).
      intros H. left. destruct w; eapply table_after_event_incl; exact H.
  - rewrite world_of_bind. cbn [get value_of world_of fst snd].
    destruct (nativePort w); [|now left].
    rewrite onDisconnect_eq. discriminate.
  - rewrite world_of_bind. cbn [get value_of world_of fst snd].
    destruct (take_due_timer id (clock w) (timers w)) as [[t rest]|]; [|now left].
    rewrite world_of_bind. cbn [modify value_of world_of fst snd].
    rewrite onTimeout_eq.
    destruct (map_has Z.eqb (t_id t) (pendingCallbacks (with_timers rest w)));
      destruct w; now left.
  - destruct w; now left.
  - rewrite keepAlive_eq. now left.
  - rewrite world_of_bind. cbn [get value_of world_of fst snd].
    destruct (remove_nat req (storageOps w)); destruct w; now left.
Qed.

(** X1.  No turn of the event loop puts a job into the job table except a
    start request, and then only the job it has just named: a job that has
    been retired is never brought back by a late message, a timeout, a
    disconnect or any other request. *)
Theorem jobs_are_registered_by_start_requests_only (e : Event) (w : World) (d : string) :
  map_has String.eqb d (downloadCallbacks (world_of (step e w))) = true ->
  map_has String.eqb d (downloadCallbacks w) = true \/
  exists req options env,
    e = EvRequest req (ReqStartDownload options) env /\ d = make_downloadId env.
Proof.
  unfold step. rewrite world_of_bind. intros H.
  apply runMicrotasks_jobs_incl in H. now apply dispatch_jobs_incl.
Qed.

Lemma jobs_are_registered_by_start_requests_only_witness :
  let w := fst (run true []) in
  let e := EvRequest 0 (ReqStartDownload options0) env0 in
  map_has String.eqb job0 (downloadCallbacks (world_of (step e w))) = true /\
  (map_has String.eqb job0 (downloadCallbacks w) = true \/
   exists req options env,
     e = EvRequest req (ReqStartDownload options) env /\ job0 = make_downloadId env).
Proof.
  cbv zeta. split; [reflexivity|].
  apply (jobs_are_registered_by_start_requests_only
           (EvRequest 0 (ReqStartDownload options0) env0) (fst (run true [])) job0).
  reflexivity.
Defined.

(** ** Job events *)

Lemma map_has_delete_other {V : Type} (k k' : string) (m : JsMap string V) :
  k' <> k ->
  map_has String.eqb k' (map_delete String.eqb k m) = map_has String.eqb k' m.
Proof.
  intros Hne. rewrite !(map_get_has String.eqb).
  now rewrite (map_get_delete_other String.eqb String.eqb_spec).
Qed.

(** X2.  A completion or error event that is not the response of a pending
    call retires the job it names and no other job; a progress event leaves
    the whole world as it is.  (The job identifier is a non-empty string: an
    event without one is no job event.) *)
Theorem terminal_event_retires_exactly_its_job (w : World) (m : NativeMessage) (d : string) :
  NoDup (map_keys (downloadCallbacks w)) ->
  truthy (m_id m) && pending_has (m_id m) (pendingCallbacks w) = false ->
  m_downloadId m = JStr d -> d <> "" ->
  (strict_eq_str (m_type m) "complete" = true \/ strict_eq_str (m_type m) "error" = true ->
   map_has String.eqb d (downloadCallbacks (world_of (handleNativeMessage m w))) = false /\
   (forall d', d' <> d ->
      map_has String.eqb d' (downloadCallbacks (world_of (handleNativeMessage m w))) =
      map_has String.eqb d' (downloadCallbacks w)) /\
   bridge_of (world_of (handleNativeMessage m w)) = bridge_of w) /\
  (strict_eq_str (m_type m) "progress" = true ->
   world_of (handleNativeMessage m w) = w).
Proof.
  intros Hnd Hm Hd Hne.
  rewrite (handleNativeMessage_event m w Hm). cbv [world_of fst snd].
  assert (Ht : truthy (m_downloadId m) = true).
  { rewrite Hd. simpl. destruct (String.eqb_spec d ""); [contradiction|reflexivity]. }
  unfold table_after_event, is_event. rewrite Ht, !andb_true_r, Hd.
  cbn [download_delete].
  split.
  - intros Hty.
    assert (Hone : forall dc : JsMap string bool, NoDup (map_keys dc) ->
              map_has String.eqb d (map_delete String.eqb d dc) = false)
      by (intros dc; apply (map_delete_removes String.eqb String.eqb_spec)).
    destruct w as [np pc dc mid tm mt ck so]. simpl in Hnd. jsimpl.
    destruct Hty as [Hty|Hty]; apply strict_eq_str_true in Hty; rewrite Hty;
      cbn [strict_eq_str String.eqb Ascii.eqb Bool.eqb andb];
      (split; [now apply Hone|]);
      (split; [intros d' Hd'; now apply map_has_delete_other | reflexivity]).
  - intros Hty. apply strict_eq_str_true in Hty. rewrite Hty.
    cbn [strict_eq_str String.eqb Ascii.eqb Bool.eqb andb].
    apply with_downloadCallbacks_same.
Qed.

Lemma terminal_event_retires_exactly_its_job_witness :
  let w := fst (run true two_jobs_run) in
  let m := terminal_event "complete" job0 (JStr "video.mp4") in
  map_keys (downloadCallbacks w) = [job0; job1] /\
  map_keys (downloadCallbacks (world_of (handleNativeMessage m w))) = [job1] /\
  map_has String.eqb job0 (downloadCallbacks (world_of (handleNativeMessage m w))) = false.
Proof.
  cbv zeta. split; [reflexivity|]. split; [reflexivity|].
  assert (Hnd : NoDup (map_keys (downloadCallbacks (fst (run true two_jobs_run))))).
  { change (NoDup [job0; job1]). constructor.
    - simpl. intros [H|[]]. discriminate.
    - constructor; [simpl; tauto | constructor]. }
  apply (proj1 (terminal_event_retires_exactly_its_job
                  (fst (run true two_jobs_run))
                  (terminal_event "complete" job0 (JStr "video.mp4")) job0
                  Hnd eq_refl eq_refl ltac:(discriminate))).
  left; reflexivity.
Defined.

(** X3.  A message that carries the id of a pending call is taken as the
    response of that call and as nothing else: even when it also has a [type]
    and a [downloadId], [handleNativeMessage] notifies no observer and leaves
    the job table alone; it settles that one call and removes its entry. *)
Theorem response_is_never_handled_as_job_event (w : World) (m : NativeMessage) :
  truthy (m_id m) && pending_has (m_id m) (pendingCallbacks w) = true ->
  observer_effects (effects_of (handleNativeMessage m w)) = [] /\
  downloadCallbacks (world_of (handleNativeMessage m w)) = downloadCallbacks w /\
  exists n c,
    m_id m = JNum n /\
    map_get Z.eqb n (pendingCallbacks w) = Some c /\
    effects_of (handleNativeMessage m w) = [settle_effect n m] /\
    pendingCallbacks (world_of (handleNativeMessage m w)) =
      map_delete Z.eqb n (pendingCallbacks w) /\
    microtasks (world_of (handleNativeMessage m w)) =
      microtasks w ++ [MtAwait c (settlement_of m)].
Proof.
  intros Hm. destruct (pending_match _ _ Hm) as (n & c & Hid & Hn & Hg).
  rewrite (handleNativeMessage_response m w n c Hid Hn Hg).
  cbv [world_of effects_of fst snd].
  split; [unfold settle_effect; destruct (truthy (m_error m)); reflexivity|].
  split; [destruct w; reflexivity|].
  exists n, c. repeat split; auto; destruct w; reflexivity.
Qed.

Lemma response_is_never_handled_as_job_event_witness :
  let w := fst (run true two_jobs_run) in
  let m := mkNativeMessage (JNum 1) JUndefined (JStr "complete") (JStr job0)
             JUndefined (JStr "video.mp4") JUndefined JUndefined JUndefined in
  observer_effects (effects_of (handleNativeMessage m w)) = [] /\
  downloadCallbacks (world_of (handleNativeMessage m w)) = downloadCallbacks w.
Proof.
  cbv zeta.
  pose proof (response_is_never_handled_as_job_event
                (fst (run true two_jobs_run))
                (mkNativeMessage (JNum 1) JUndefined (JStr "complete") (JStr job0)
                   JUndefined (JStr "video.mp4") JUndefined JUndefined JUndefined)
                eq_refl) as (H1 & H2 & _).
  split; assumption.
Defined.

(** ** Timeouts are never cancelled *)

Lemma take_due_timer_length (id now : Z) (l : list Timer) (t : Timer) (rest : list Timer) :
  take_due_timer id now l = Some (t, rest) -> List.length l = S (List.length rest).
Proof.
  revert rest. induction l as [|x l IH]; simpl; intros rest H; [discriminate|].
  destruct ((t_id x =? id) && (t_due x <=? now)).
  - inversion H; subst. reflexivity.
  - destruct (take_due_timer id now l) as [[t' r']|]; [|discriminate].
    inversion H; subst. simpl. now rewrite (IH r' eq_refl).
Qed.

(** X4.  A timeout is run once: running it takes it off the list of armed
    timeouts.  When its call has been settled in the meantime it rejects
    nothing and leaves the pending table as it is.  A timeout that is not due
    is not run, and the list stays as it is.  Nothing else ever disarms a
    timeout: across any other event, in any world, the armed timeouts stay
    as they are, or exactly one new timeout is put behind them. *)
Theorem timeout_runs_once_and_rejects_only_a_pending_call (w : World) :
  (forall id t rest,
     take_due_timer id (clock w) (timers w) = Some (t, rest) ->
     timers (world_of (step (EvTimer id) w)) = rest /\
     List.length (timers w) = S (List.length rest) /\
     (map_has Z.eqb (t_id t) (pendingCallbacks w) = false ->
      settlements (effects_of (step (EvTimer id) w)) = [] /\
      pendingCallbacks (world_of (step (EvTimer id) w)) = pendingCallbacks w)) /\
  (forall id,
     take_due_timer id (clock w) (timers w) = None ->
     timers (world_of (step (EvTimer id) w)) = timers w) /\
  (forall e,
     match e with EvTimer _ => false | _ => true end = true ->
     timers (world_of (step e w)) = timers w \/
     exists t, timers (world_of (step e w)) = timers w ++ [t]).
Proof.
  split; [|split].
  - intros id t rest Ht. split; [|split].
    + pose proof (step_bridge_trans (EvTimer id) w) as Hs. rewrite bridge_of_eta in Hs.
      inversion Hs as [e Hq| | | | | | |id' t' rest' Ht' Hh'|id' t' rest' Ht' Hh']; subst.
      * rewrite Ht in Hq. discriminate.
      * rewrite Ht in Ht'. now inversion Ht'.
      * rewrite Ht in Ht'. now inversion Ht'.
    + eapply take_due_timer_length; eassumption.
    + intros Hh. rewrite <- settlements_loud.
      pose proof (step_bridge_trans (EvTimer id) w) as Hs. rewrite bridge_of_eta in Hs.
      inversion Hs as [e Hq| | | | | | |id' t' rest' Ht' Hh'|id' t' rest' Ht' Hh']; subst.
      * rewrite Ht in Hq. discriminate.
      * rewrite Ht in Ht'. inversion Ht'; subst. congruence.
      * split; reflexivity.
  - intros id Hn.
    pose proof (step_bridge_trans (EvTimer id) w) as Hs. rewrite bridge_of_eta in Hs.
    inversion Hs as [e Hq| | | | | | |id' t' rest' Ht' Hh'|id' t' rest' Ht' Hh']; subst;
      congruence.
  - intros e Hne.
    pose proof (step_bridge_trans e w) as Hs. rewrite bridge_of_eta in Hs.
    inversion Hs as [e' Hq|ms|req r env Hb Hp Hok
                    |req r env action data k Hc Hk Hp He
                    |req r env action data k err Hc Hk Hp He
                    |m n c Hid Hn Hg| |id' t' rest' Ht' Hh'|id' t' rest' Ht' Hh']; subst;
      try (left; congruence);
      try discriminate Hne;
      unfold timers_after; destruct (String.eqb action "download"); eauto.
Qed.

Lemma timeout_runs_once_witness :
  let w := fst (run true answered_test_run) in
  take_due_timer 1 (clock w) (timers w) = Some (mkTimer 1 30000 (CallTest 0), []) /\
  timers (world_of (step (EvTimer 1) w)) = [] /\
  settlements (effects_of (step (EvTimer 1) w)) = [].
Proof.
  cbv zeta. split; [reflexivity|].
  pose proof (proj1 (timeout_runs_once_and_rejects_only_a_pending_call
                       (fst (run true answered_test_run)))
                1 (mkTimer 1 30000 (CallTest 0)) [] eq_refl) as (H1 & _ & H3).
  split; [exact H1 | exact (proj1 (H3 eq_refl))].
Defined.

(** ** The ledger of calls *)

Lemma posted_ids_app (a b : list Effect) :
  posted_ids (a ++ b) = posted_ids a ++ posted_ids b.
Proof. apply flat_map_app. Qed.

Lemma posted_ids_loud (t : list Effect) : posted_ids (loud t) = posted_ids t.
Proof.
  induction t as [|e t IH]; [reflexivity|].
  unfold loud in *; simpl. destruct e; simpl; now rewrite ?IH.
Qed.

Lemma posted_ids_connect_timer (w : World) (ok : bool) (action : string) (id : Z)
    (last : Effect) :
  posted_ids (connect_effects w ok ++ timer_effects action id ++ [last]) =
  posted_ids [last].
Proof.
  unfold connect_effects, timer_effects.
  destruct (port_absent w), (String.eqb action "download"); reflexivity.
Qed.

Lemma posted_ids_reject_all (pc : JsMap Z Caller) :
  posted_ids (reject_all_effects pc) = [].
Proof. induction pc as [|[k c] r IH]; [reflexivity | exact IH]. Qed.

Lemma posted_ids_settle_effect (n : Z) (m : NativeMessage) :
  posted_ids [settle_effect n m] = [].
Proof. unfold settle_effect. destruct (truthy (m_error m)); reflexivity. Qed.

Lemma StronglySorted_snoc (l : list Z) (a : Z) :
  StronglySorted Z.lt l -> (forall x, In x l -> x < a) ->
  StronglySorted Z.lt (l ++ [a]).
Proof.
  induction 1 as [|x l Hs IH Hf]; intros Hlt; simpl.
  - constructor; constructor.
  - constructor.
    + apply IH. intros y Hy. apply Hlt. now right.
    + apply Forall_app. split; [exact Hf|].
      constructor; [|constructor]. apply Hlt. now left.
Qed.

Lemma bridge_trans_ledger (w : World) np' pc' mid' tm' ck' e t eff :
  bridge_wf (bridge_of w) -> messageId w < MAX_EXACT ->
  trace_ok (pendingCallbacks w) (messageId w) t ->
  ledger_ok (pendingCallbacks w) (messageId w) t ->
  bridge_trans w (np', pc', mid', tm', ck') e (loud eff) ->
  ledger_ok pc' mid' (t ++ eff).
Proof.
  intros (Hnd & Hle & Htm) Hmax (_ & Hs & _) (L0 & Lsort & Lb & Liff) H.
  pose proof (fresh_id_absent _ _ Hle) as Hfresh.
  pose proof (js_incr_exact _ Hmax) as Hid.
  unfold ledger_ok.
  rewrite posted_ids_app, settled_ids_app,
    <- (posted_ids_loud eff), <- (settled_ids_loud eff).
  assert (Same : forall pc'' mid'',
            pc'' = pendingCallbacks w -> mid'' = messageId w ->
            0 <= mid'' /\
            StronglySorted Z.lt (posted_ids t ++ []) /\
            (forall id, In id (posted_ids t ++ []) -> 1 <= id <= mid'') /\
            (forall id, map_has Z.eqb id pc'' = true <->
                        In id (posted_ids t ++ []) /\ ~ In id (settled_ids t ++ []))).
  { intros pc'' mid'' -> ->. rewrite !app_nil_r. auto. }
  inversion H as [e' Hq|ms|req r env Hb Hp Hok
                 |req r env action data k Hc Hk Hp He
                 |req r env action data k err Hc Hk Hp He
                 |m n c Hidm Hn Hg| |id t0 rest Ht Hh|id t0 rest Ht Hh]; subst;
    rewrite ?Hid, ?posted_ids_connect_timer, ?settled_ids_connect_timer,
      ?posted_ids_settle_effect, ?settled_ids_settle_effect,
      ?posted_ids_reject_all, ?settled_ids_reject_all;
    try (apply Same; reflexivity).
  - (* sent *)
    cbn [posted_ids settled_ids flat_map settled_id o_id app]. rewrite app_nil_r.
    split; [lia|]. split; [|split].
    + apply StronglySorted_snoc; [assumption|]. intros x Hx. apply Lb in Hx. lia.
    + intros id Hin. apply in_app_or in Hin as [Hin|[<-|[]]]; [apply Lb in Hin|]; lia.
    + intros id. rewrite map_has_set_iff, in_app_iff, Liff. simpl. split.
      * intros [->|[Hp' Hn']]; [|tauto].
        split; [tauto|]. intros Hin. apply Hs in Hin. lia.
      * intros [[Hp'|[<-|[]]] Hn']; tauto.
  - (* threw *)
    rewrite (map_delete_set_absent Z.eqb Z.eqb_spec) by assumption.
    cbn [posted_ids settled_ids flat_map settled_id app]. rewrite app_nil_r.
    split; [lia|].
    split; [assumption|]. split; [intros id Hin; apply Lb in Hin; lia|].
    intros id. rewrite Liff, in_app_iff. simpl. split.
    + intros [Hp' Hn']. split; [assumption|].
      intros [Hin|[<-|[]]]; [contradiction|]. apply Lb in Hp'. lia.
    + tauto.
  - (* response *)
    rewrite !app_nil_r. split; [assumption|].
    split; [assumption|]. split; [assumption|].
    intros id. rewrite (map_has_delete_iff n id _ Hnd), Liff, in_app_iff. simpl.
    split; [intros (Hne & Hp' & Hn'); split; [assumption|]; intros [?|[?|[]]]; auto
           |intros (Hp' & Hn'); repeat split; auto; intros ->; apply Hn'; auto].
  - (* disconnect *)
    rewrite !app_nil_r. split; [assumption|].
    split; [assumption|]. split; [assumption|].
    intros id. simpl. split; [discriminate|].
    intros (Hp' & Hn'). exfalso. apply Hn'. apply in_or_app.
    destruct (in_dec Z.eq_dec id (settled_ids t)) as [Hin|Hout]; [now left|right].
    apply (map_has_In Z.eqb Z.eqb_spec). apply Liff. auto.
  - (* timeout *)
    cbn [settled_ids flat_map settled_id app posted_ids]. rewrite !app_nil_r.
    split; [assumption|].
    split; [assumption|]. split; [assumption|].
    intros id0. rewrite (map_has_delete_iff (t_id t0) id0 _ Hnd), Liff, in_app_iff. simpl.
    split; [intros (Hne & Hp' & Hn'); split; [assumption|]; intros [?|[?|[]]]; auto
           |intros (Hp' & Hn'); repeat split; auto; intros ->; apply Hn'; auto].
Qed.

Lemma step_ledger_ok (e : Event) (w : World) (t : list Effect) :
  wf w -> messageId w < MAX_EXACT ->
  trace_ok (pendingCallbacks w) (messageId w) t ->
  ledger_ok (pendingCallbacks w) (messageId w) t ->
  ledger_ok (pendingCallbacks (world_of (step e w))) (messageId (world_of (step e w)))
    (t ++ effects_of (step e w)).
Proof.
  intros (Hb & _) Hmax Ht Hl.
  pose proof (step_bridge_trans e w) as H. rewrite bridge_of_eta in H.
  eapply bridge_trans_ledger; eassumption.
Qed.

Lemma run_events_ledger (es : list Event) (w : World) (t : list Effect) :
  wf w -> trace_ok (pendingCallbacks w) (messageId w) t ->
  ledger_ok (pendingCallbacks w) (messageId w) t ->
  messageId (world_of (run_events es w)) < MAX_EXACT ->
  ledger_ok (pendingCallbacks (world_of (run_events es w)))
    (messageId (world_of (run_events es w))) (t ++ effects_of (run_events es w)).
Proof.
  revert w t. induction es as [|e r IH]; intros w t Hwf Ht Hl Hmax.
  - simpl. rewrite app_nil_r. auto.
  - cbn [run_events] in *. rewrite world_of_bind in *. rewrite effects_of_bind.
    assert (Hlt : messageId w < MAX_EXACT).
    { pose proof (step_messageId e w).
      pose proof (run_events_messageId r (world_of (step e w))). lia. }
    rewrite app_assoc. apply IH; auto using step_wf, step_trace_ok, step_ledger_ok.
Qed.

Lemma run_ledger (ok : bool) (es : list Event) :
  messageId (fst (run ok es)) < MAX_EXACT ->
  ledger_ok (pendingCallbacks (fst (run ok es))) (messageId (fst (run ok es)))
    (snd (run ok es)).
Proof.
  rewrite run_eq. cbn [fst snd]. intros Hmax.
  apply run_events_ledger; auto; rewrite startup_eq.
  - unfold wf, bridge_wf. jsimpl.
    split; [split; [constructor | split; intros ? []] | split; [constructor | reflexivity]].
  - unfold trace_ok. jsimpl.
    split; [constructor | split; [intros ? [] | intros id m [E|[]]; discriminate]].
  - unfold ledger_ok. jsimpl.
    split; [lia|]. split; [constructor | split; [intros ? [] |]].
    intros id. split; [discriminate | intros [[] _]].
Qed.

(** X5.  Along every run (below 2^53 calls) the ids written to the native
    host grow strictly, start at 1 or above and never exceed the counter: an
    id is never reused, not after a failed write, not after a timeout, not
    after a disconnect and reconnection. *)
Theorem posted_ids_are_strictly_increasing (ok : bool) (es : list Event) :
  messageId (fst (run ok es)) < MAX_EXACT ->
  StronglySorted Z.lt (posted_ids (snd (run ok es))) /\
  (forall id, In id (posted_ids (snd (run ok es))) ->
     1 <= id <= messageId (fst (run ok es))).
Proof.
  intros Hmax. destruct (run_ledger ok es Hmax) as (_ & Hs & Hb & _). auto.
Qed.

(** X6.  Along every run (below 2^53 calls) the pending table holds exactly
    the calls whose request was written to the port and that have not been
    settled: no entry without a written request, and no written request lost
    from the table before its call is settled. *)
Theorem pending_calls_are_the_unsettled_written_requests
    (ok : bool) (es : list Event) (id : Z) :
  messageId (fst (run ok es)) < MAX_EXACT ->
  (map_has Z.eqb id (pendingCallbacks (fst (run ok es))) = true <->
   In id (posted_ids (snd (run ok es))) /\ ~ In id (settled_ids (snd (run ok es)))).
Proof.
  intros Hmax. destruct (run_ledger ok es Hmax) as (_ & _ & _ & Hiff). apply Hiff.
Qed.

Lemma posted_ids_are_strictly_increasing_witness :
  messageId (fst (run true duplicate_response_run)) < MAX_EXACT /\
  posted_ids (snd (run true duplicate_response_run)) = [1; 2] /\
  StronglySorted Z.lt (posted_ids (snd (run true duplicate_response_run))).
Proof.
  split; [reflexivity|]. split; [reflexivity|].
  exact (proj1 (posted_ids_are_strictly_increasing true duplicate_response_run eq_refl)).
Defined.

Lemma pending_calls_are_the_unsettled_written_requests_witness :
  messageId (fst (run true refused_cancel_run)) < MAX_EXACT /\
  pendingCallbacks (fst (run true refused_cancel_run)) = [(1, CallDownload job0)] /\
  (map_has Z.eqb 2 (pendingCallbacks (fst (run true refused_cancel_run))) = true <->
   In 2 (posted_ids (snd (run true refused_cancel_run))) /\
   ~ In 2 (settled_ids (snd (run true refused_cancel_run)))).
Proof.
  split; [reflexivity|]. split; [reflexivity|].
  exact (pending_calls_are_the_unsettled_written_requests
           true refused_cancel_run 2 eq_refl).
Defined.

(** ** Disconnect, in general *)

Lemma jobs_empty (dc : JsMap string bool) :
  (forall d, map_has String.eqb d dc = false) -> dc = [].
Proof.
  destruct dc as [|[k v] r]; [reflexivity|]. intros H. specialize (H k).
  simpl in H. rewrite String.eqb_refl in H. discriminate.
Qed.

Lemma connection_lost_effects_In (d : string) (dc : JsMap string bool) :
  In d (map_keys dc) ->
  In (ERuntimeSend "downloadError" (JStr d) (JStr CONNECTION_LOST))
     (connection_lost_effects dc).
Proof.
  induction dc as [|[k v] r IH]; simpl; [tauto|].
  intros [->|Hin]; [now left | right; right; auto].
Qed.

(** X7.  When the port disconnects, whatever the tables hold: the port is
    forgotten, every pending call is rejected with "Native host disconnected",
    once and in the order of the table, every job in the job table is
    reported to the observers with "Native host connection lost", and both
    tables are empty afterwards.  The call counter and the armed timeouts are
    left as they are. *)
Theorem disconnect_fails_all_calls_and_jobs (w : World) :
  nativePort w <> None ->
  nativePort (world_of (step EvDisconnect w)) = None /\
  pendingCallbacks (world_of (step EvDisconnect w)) = [] /\
  downloadCallbacks (world_of (step EvDisconnect w)) = [] /\
  messageId (world_of (step EvDisconnect w)) = messageId w /\
  timers (world_of (step EvDisconnect w)) = timers w /\
  settlements (effects_of (step EvDisconnect w)) =
    reject_all_effects (pendingCallbacks w) /\
  (exists later,
     effects_of (step EvDisconnect w) =
       reject_all_effects (pendingCallbacks w)
         ++ connection_lost_effects (downloadCallbacks w) ++ later) /\
  (forall d, In d (map_keys (downloadCallbacks w)) ->
     In (ERuntimeSend "downloadError" (JStr d) (JStr CONNECTION_LOST))
        (effects_of (step EvDisconnect w))).
Proof.
  intros Hp.
  pose proof (step_bridge_trans EvDisconnect w) as Hs. rewrite bridge_of_eta in Hs.
  assert (Hd : dispatch EvDisconnect w = onDisconnect w).
  { cbn [dispatch]. unfold bind at 1. cbn [get].
    destruct (nativePort w); [|now elim Hp].
    destruct (onDisconnect w) as [[u w'] t']. reflexivity. }
  assert (He : effects_of (step EvDisconnect w) =
               reject_all_effects (pendingCallbacks w)
                 ++ connection_lost_effects (downloadCallbacks w)
                 ++ effects_of (runMicrotasks (world_of (dispatch EvDisconnect w)))).
  { unfold step. rewrite effects_of_bind, Hd, onDisconnect_eq.
    cbv [effects_of snd]. now rewrite <- app_assoc. }
  inversion Hs; subst; [contradiction|].
  repeat (split; [reflexivity|]).
  split.
  { apply jobs_empty. intros d.
    destruct (map_has String.eqb d
                (downloadCallbacks (world_of (step EvDisconnect w)))) eqn:E; [|reflexivity].
    unfold step in E. rewrite world_of_bind in E. apply runMicrotasks_jobs_incl in E.
    rewrite Hd, onDisconnect_eq in E. discriminate. }
  repeat (split; [reflexivity|]).
  split.
  { rewrite <- settlements_loud.
    match goal with H : reject_all_effects _ = loud _ |- _ => rewrite <- H end.
    apply settlements_reject_all. }
  split; [eexists; exact He|].
  intros d Hin. rewrite He. apply in_or_app. right. apply in_or_app. left.
  now apply connection_lost_effects_In.
Qed.

Lemma disconnect_fails_all_calls_and_jobs_witness :
  let w := fst (run true two_jobs_run) in
  nativePort w <> None /\
  pendingCallbacks (world_of (step EvDisconnect w)) = [] /\
  downloadCallbacks (world_of (step EvDisconnect w)) = [] /\
  settlements (effects_of (step EvDisconnect w)) =
    [EReject (Some 1) DISCONNECTED; EReject (Some 2) DISCONNECTED].
Proof.
  cbv zeta.
  assert (Hp : nativePort (fst (run true two_jobs_run)) <> None) by discriminate.
  split; [exact Hp|].
  pose proof (disconnect_fails_all_calls_and_jobs (fst (run true two_jobs_run)) Hp)
    as (_ & H2 & H3 & _ & _ & H6 & _).
  split; [exact H2|]. split; [exact H3|]. exact H6.
Defined.

(** ** The port is never torn down by the worker itself *)

Lemma step_never_disconnects_the_port (e : Event) (w : World) :
  ~ In EPortDisconnect (effects_of (step e w)).
Proof.
  intros Hin. apply In_loud in Hin; [|reflexivity].
  pose proof (step_bridge_trans e w) as Hs. rewrite bridge_of_eta in Hs.
  inversion Hs as [e' Hq|ms|req r env Hb Hp Hok
                  |req r env action data k Hc Hk Hp He
                  |req r env action data k err Hc Hk Hp He
                  |m n c Hidm Hn Hg| |id t0 rest Ht Hh|id t0 rest Ht Hh]; subst;
    match goal with H : _ = loud _ |- _ => rewrite <- H in Hin end;
    try (simpl in Hin; intuition discriminate).
  - unfold connect_effects, timer_effects in Hin.
    destruct (port_absent w), (String.eqb action "download"); simpl in Hin;
      intuition discriminate.
  - unfold connect_effects, timer_effects in Hin.
    destruct (port_absent w), (String.eqb action "download"); simpl in Hin;
      intuition discriminate.
  - unfold settle_effect in Hin. destruct (truthy (m_error m)); simpl in Hin;
      intuition discriminate.
  - unfold reject_all_effects in Hin. apply in_map_iff in Hin as (x & E & _).
    discriminate.
Qed.

Lemma run_events_never_disconnects_the_port (es : list Event) (w : World) :
  ~ In EPortDisconnect (effects_of (run_events es w)).
Proof.
  revert w. induction es as [|e r IH]; intros w; [exact (fun H => H)|].
  cbn [run_events]. rewrite effects_of_bind. intros Hin.
  apply in_app_or in Hin as [Hin|Hin];
    [eapply step_never_disconnects_the_port | eapply IH]; eassumption.
Qed.

Lemma port_teardowns_none (t : list Effect) :
  ~ In EPortDisconnect t -> port_teardowns t = 0%nat.
Proof.
  unfold port_teardowns. induction t as [|e t IH]; [reflexivity|].
  intros Hout. simpl.
  destruct e; simpl; try (apply IH; intros Hin; apply Hout; now right).
  exfalso. apply Hout. now left.
Qed.

(** X8.  In no run does the service worker call [nativePort.disconnect()]:
    [connectToNativeHost] is only ever entered without a port (at startup and
    from a call that found none), so its branch that tears an existing
    connection down is never taken, and a live port is never replaced. *)
Theorem the_port_is_never_torn_down (ok : bool) (es : list Event) :
  port_teardowns (snd (run ok es)) = 0%nat.
Proof.
  apply port_teardowns_none.
  rewrite run_eq. cbn [snd]. rewrite startup_eq. cbv [effects_of snd].
  intros [E|Hin]; [discriminate|].
  eapply run_events_never_disconnects_the_port; eassumption.
Qed.

(** ** Choosing a directory and opening a folder *)

(** X9.  The directory request: when the channel cannot be opened or the
    write throws, the caller is answered at once with [{ error }]; otherwise
    the request is written with action "selectDirectory" and no payload and
    the caller waits.  When the worker answers, the caller gets the [path] of
    the answer (or the worker's error as [{ error }]), when nothing answers
    in time it gets [{ error: "Request timed out" }], and whatever else
    settles the call is passed on the same way. *)
Theorem select_directory_answers_the_path_or_the_error
    (w : World) (req : nat) (env : Env) :
  microtasks w = [] ->
  (port_absent w && negb (env_connect_ok env) = true ->
   responses (effects_of (step (EvRequest req ReqSelectDirectory env) w)) =
     [ESendResponse req (RespError FAILED_TO_CONNECT)]) /\
  (forall message,
   port_absent w && negb (env_connect_ok env) = false ->
   env_post_error env = Some message ->
   responses (effects_of (step (EvRequest req ReqSelectDirectory env) w)) =
     [ESendResponse req (RespError message)]) /\
  (port_absent w && negb (env_connect_ok env) = false ->
   env_post_error env = None ->
   responses (effects_of (step (EvRequest req ReqSelectDirectory env) w)) = [] /\
   posted (effects_of (step (EvRequest req ReqSelectDirectory env) w)) =
     [EPostMessage (mkOutMessage (js_incr (messageId w)) "selectDirectory" [])] /\
   map_get Z.eqb (js_incr (messageId w))
     (pendingCallbacks (world_of (step (EvRequest req ReqSelectDirectory env) w))) =
     Some (CallSelectDirectory req)) /\
  (forall m n,
   nativePort w <> None -> m_id m = JNum n -> n <> 0 ->
   map_get Z.eqb n (pendingCallbacks w) = Some (CallSelectDirectory req) ->
   responses (effects_of (step (EvNativeMessage m) w)) =
     [ESendResponse req (select_answer (settlement_of m))]) /\
  (forall id t rest,
   take_due_timer id (clock w) (timers w) = Some (t, rest) ->
   map_has Z.eqb (t_id t) (pendingCallbacks w) = true ->
   t_callback t = CallSelectDirectory req ->
   responses (effects_of (step (EvTimer id) w)) =
     [ESendResponse req (RespError TIMED_OUT)]) /\
  (forall w' o,
   microtasks w' = [MtAwait (CallSelectDirectory req) o] ->
   effects_of (runMicrotasks w') = [ESendResponse req (select_answer o)]).
Proof.
  intros Hmt. destruct w as [np pc dc mid tm mt ck so]. simpl in Hmt. subst mt.
  destruct env as [cok perr now rnd].
  split; [|split; [|split; [|split; [|split]]]].
  - unfold step, dispatch, handleRequest, handleSelectDirectory, runMicrotasks,
      queue_weight, port_absent.
    intros Hp. destruct np; [discriminate|destruct cok; [discriminate|]]. reflexivity.
  - unfold step, dispatch, handleRequest, handleSelectDirectory, runMicrotasks,
      queue_weight, port_absent.
    intros message Hp He. simpl in He. subst perr.
    destruct np; [|destruct cok; [|discriminate]]; reflexivity.
  - unfold step, dispatch, handleRequest, handleSelectDirectory, runMicrotasks,
      queue_weight, port_absent.
    intros Hp He. simpl in He. subst perr.
    destruct np; [|destruct cok; [|discriminate]];
      (split; [reflexivity|]; split; [reflexivity|];
       jsimpl; apply (map_get_set_same Z.eqb Z.eqb_spec)).
  - intros m n Hp Hid Hn Hg. destruct np as [p|]; [|now elim Hp].
    unfold step. cbn [dispatch].
    rewrite effects_of_bind, world_of_bind, effects_of_bind.
    cbn [get value_of world_of effects_of fst snd nativePort app].
    rewrite (handleNativeMessage_response m _ n _ Hid Hn Hg).
    unfold settle_effect, settlement_of, runMicrotasks, queue_weight.
    destruct (truthy (m_error m)); reflexivity.
  - intros id t rest Ht Hh Hc.
    unfold step. cbn [dispatch].
    rewrite effects_of_bind, world_of_bind, effects_of_bind.
    cbn [get value_of world_of effects_of fst snd clock timers app].
    cbn [clock timers] in Ht. rewrite Ht.
    rewrite effects_of_bind, world_of_bind.
    cbn [modify value_of world_of effects_of fst snd app].
    rewrite onTimeout_eq. unfold_with. cbn [pendingCallbacks].
    cbn [pendingCallbacks] in Hh. rewrite Hh, Hc. reflexivity.
  - intros w' o Hq. destruct w' as [np' pc' dc' mid' tm' mt' ck' so'].
    simpl in Hq. subst mt'. destruct o as [m|message]; reflexivity.
Qed.

Lemma select_directory_answers_witness :
  let w := fst (run true [EvRequest 0 ReqSelectDirectory env0]) in
  microtasks w = [] /\
  responses (effects_of (step (EvNativeMessage (path_response 1 "/Users/me/Movies")) w)) =
    [ESendResponse 0 (RespPath (JStr "/Users/me/Movies"))].
Proof.
  cbv zeta. split; [reflexivity|].
  pose proof (select_directory_answers_the_path_or_the_error
                (fst (run true [EvRequest 0 ReqSelectDirectory env0])) 0%nat env0
                eq_refl) as (_ & _ & _ & H & _).
  apply (H (path_response 1 "/Users/me/Movies") 1);
    [discriminate | reflexivity | discriminate | reflexivity].
Defined.

(** X10.  The open-folder request hands the path to the worker as it is, in
    a message with action "openFolder".  The caller is answered with success
    as soon as the call resolves, whatever the answer contains, and with
    [{ error }] when the channel cannot be opened, the write throws, the
    worker reports an error or the call is rejected in any other way. *)
Theorem open_folder_forwards_the_path_and_answers_success_or_error
    (w : World) (req : nat) (path : JsVal) (env : Env) :
  microtasks w = [] ->
  (port_absent w && negb (env_connect_ok env) = true ->
   responses (effects_of (step (EvRequest req (ReqOpenFolder path) env) w)) =
     [ESendResponse req (RespError FAILED_TO_CONNECT)] /\
   posted (effects_of (step (EvRequest req (ReqOpenFolder path) env) w)) = []) /\
  (forall message,
   port_absent w && negb (env_connect_ok env) = false ->
   env_post_error env = Some message ->
   responses (effects_of (step (EvRequest req (ReqOpenFolder path) env) w)) =
     [ESendResponse req (RespError message)]) /\
  (port_absent w && negb (env_connect_ok env) = false ->
   env_post_error env = None ->
   responses (effects_of (step (EvRequest req (ReqOpenFolder path) env) w)) = [] /\
   posted (effects_of (step (EvRequest req (ReqOpenFolder path) env) w)) =
     [EPostMessage (mkOutMessage (js_incr (messageId w)) "openFolder" [("path", path)])] /\
   map_get Z.eqb (js_incr (messageId w))
     (pendingCallbacks (world_of (step (EvRequest req (ReqOpenFolder path) env) w))) =
     Some (CallOpenFolder req)) /\
  (forall m n,
   nativePort w <> None -> m_id m = JNum n -> n <> 0 ->
   map_get Z.eqb n (pendingCallbacks w) = Some (CallOpenFolder req) ->
   responses (effects_of (step (EvNativeMessage m) w)) =
     [ESendResponse req (open_answer (settlement_of m))]) /\
  (forall w' o,
   microtasks w' = [MtAwait (CallOpenFolder req) o] ->
   effects_of (runMicrotasks w') = [ESendResponse req (open_answer o)]).
Proof.
  intros Hmt. destruct w as [np pc dc mid tm mt ck so]. simpl in Hmt. subst mt.
  destruct env as [cok perr now rnd].
  split; [|split; [|split; [|split]]].
  - unfold step, dispatch, handleRequest, handleOpenFolder, runMicrotasks,
      queue_weight, port_absent.
    intros Hp. destruct np; [discriminate|destruct cok; [discriminate|]].
    split; reflexivity.
  - unfold step, dispatch, handleRequest, handleOpenFolder, runMicrotasks,
      queue_weight, port_absent.
    intros message Hp He. simpl in He. subst perr.
    destruct np; [|destruct cok; [|discriminate]]; reflexivity.
  - unfold step, dispatch, handleRequest, handleOpenFolder, runMicrotasks,
      queue_weight, port_absent.
    intros Hp He. simpl in He. subst perr.
    destruct np; [|destruct cok; [|discriminate]];
      (split; [reflexivity|]; split; [reflexivity|];
       jsimpl; apply (map_get_set_same Z.eqb Z.eqb_spec)).
  - intros m n Hp Hid Hn Hg. destruct np as [p|]; [|now elim Hp].
    unfold step. cbn [dispatch].
    rewrite effects_of_bind, world_of_bind, effects_of_bind.
    cbn [get value_of world_of effects_of fst snd nativePort app].
    rewrite (handleNativeMessage_response m _ n _ Hid Hn Hg).
    unfold settle_effect, settlement_of, runMicrotasks, queue_weight.
    destruct (truthy (m_error m)); reflexivity.
  - intros w' o Hq. destruct w' as [np' pc' dc' mid' tm' mt' ck' so'].
    simpl in Hq. subst mt'. destruct o as [m|message]; reflexivity.
Qed.

Lemma open_folder_witness :
  let w := fst (run true []) in
  microtasks w = [] /\
  posted (effects_of (step (EvRequest 0 (ReqOpenFolder (JStr "~/Downloads")) env0) w)) =
    [EPostMessage (mkOutMessage (js_incr (messageId w)) "openFolder"
                     [("path", JStr "~/Downloads")])].
Proof.
  cbv zeta. split; [reflexivity|].
  pose proof (open_folder_forwards_the_path_and_answers_success_or_error
                (fst (run true [])) 0%nat (JStr "~/Downloads") env0 eq_refl)
    as (_ & _ & H & _).
  exact (proj1 (proj2 (H eq_refl eq_refl))).
Defined.

(** ** Requests that do not concern the native host *)

Lemma remove_nat_app_self (l : list nat) (n : nat) :
  exists rest, remove_nat n (l ++ [n]) = Some rest.
Proof.
  induction l as [|x l [rest IH]]; simpl.
  - rewrite Nat.eqb_refl. eauto.
  - destruct (Nat.eqb x n); [eauto|]. rewrite IH. simpl. eauto.
Qed.

(** X11.  A request with an unknown action is answered at once with
    [{ error: "Unknown action" }], and the popup request without video
    information with success; with video information it is stored first and
    the caller is answered when the store has settled: with success, or with
    the error of the store.  None of this touches the port, the call counter,
    the two tables or the timeouts. *)
Theorem other_requests_leave_the_bridge_alone
    (w : World) (req : nat) (r : Request) (env : Env) :
  microtasks w = [] ->
  is_bridge_request r = false ->
  bridge_of (world_of (step (EvRequest req r env) w)) = bridge_of w /\
  downloadCallbacks (world_of (step (EvRequest req r env) w)) = downloadCallbacks w /\
  match r with
  | ReqOpenPopup videoInfo =>
      if truthy videoInfo then
        effects_of (step (EvRequest req r env) w) = [EStorageSet videoInfo] /\
        storageOps (world_of (step (EvRequest req r env) w)) = storageOps w ++ [req] /\
        (forall error,
           effects_of (step (EvStorageDone req error)
                         (world_of (step (EvRequest req r env) w))) =
           [ESendResponse req
              (match error with None => RespSuccess | Some message => RespError message end)])
      else
        effects_of (step (EvRequest req r env) w) = [ESendResponse req RespSuccess] /\
        storageOps (world_of (step (EvRequest req r env) w)) = storageOps w
  | _ =>
      effects_of (step (EvRequest req r env) w) =
        [ESendResponse req (RespError "Unknown action")] /\
      storageOps (world_of (step (EvRequest req r env) w)) = storageOps w
  end.
Proof.
  intros Hmt Hr. destruct w as [np pc dc mid tm mt ck so]. simpl in Hmt. subst mt.
  destruct r; try discriminate;
    unfold step, dispatch, handleRequest, runMicrotasks, queue_weight.
  - destruct (truthy videoInfo).
    + repeat (split; [reflexivity|]). intros error. jsimpl.
      destruct (remove_nat_app_self so req) as [rest E].
      unfold bind, get. cbn [storageOps]. rewrite E.
      destruct error; reflexivity.
    + repeat split; reflexivity.
  - repeat split; reflexivity.
Qed.

Lemma other_requests_witness :
  let w := fst (run true two_jobs_run) in
  microtasks w = [] /\
  bridge_of (world_of (step (EvRequest 7 ReqUnknown env0) w)) = bridge_of w /\
  effects_of (step (EvRequest 7 ReqUnknown env0) w) =
    [ESendResponse 7 (RespError "Unknown action")].
Proof.
  cbv zeta. split; [reflexivity|].
  pose proof (other_requests_leave_the_bridge_alone
                (fst (run true two_jobs_run)) 7%nat ReqUnknown env0 eq_refl eq_refl)
    as (H1 & _ & H3 & _).
  split; assumption.
Defined.

(** * The pages that use the service worker *)

(** ** Testing the connection from the popup and from the options page *)

(** X12.  Both pages report "Connected" exactly when the test call of the
    service worker resolved.  The popup gets there by two ways: a negative
    answer with an error text makes [sendToServiceWorker] reject, which the
    catch branch turns into "Disconnected" and [false]; a negative answer
    without a text goes through the regular branch with the same result.  On
    success both pages show the versions of the answer. *)
Theorem pages_report_connected_iff_the_test_call_resolved
    (o : Settlement) (v : StatusView) (ov : OptionsView) :
  let answer := test_answer o in
  fst (testNativeConnection None (Some answer) v) = JBool (is_resolved o) /\
  statusText (snd (testNativeConnection None (Some answer) v)) =
    (if is_resolved o then "Connected" else "Disconnected") /\
  class_connected (snd (testNativeConnection None (Some answer) v)) = is_resolved o /\
  class_disconnected (snd (testNativeConnection None (Some answer) v)) =
    negb (is_resolved o) /\
  fst (testConnection (inr (Some answer)) ov) = is_resolved o /\
  hostStatusText (snd (testConnection (inr (Some answer)) ov)) =
    (if is_resolved o then "Connected" else "Disconnected") /\
  (forall response, o = Resolved response ->
     truthy (m_ytdlpVersion response) = true ->
     ytdlpVersionText (snd (testNativeConnection None (Some answer) v)) =
       m_ytdlpVersion response /\
     optionsYtdlpText (snd (testConnection (inr (Some answer)) ov)) =
       m_ytdlpVersion response) /\
  (forall response, o = Resolved response ->
     truthy (m_ffmpegVersion response) = true ->
     ffmpegVersionText (snd (testNativeConnection None (Some answer) v)) =
       m_ffmpegVersion response /\
     optionsFfmpegText (snd (testConnection (inr (Some answer)) ov)) =
       m_ffmpegVersion response).
Proof.
  cbv zeta. destruct o as [m|message].
  - do 6 (split; [reflexivity|]).
    split; intros response E Ht; inversion E; subst; cbn; unfold js_or; rewrite Ht;
      split; reflexivity.
  - unfold testNativeConnection, sendToServiceWorker, test_answer.
    cbn [response_error truthy].
    destruct (negb (String.eqb message ""));
      (do 6 (split; [reflexivity|])); split; intros response E; discriminate.
Qed.

(** ** Cancelling from the popup *)

Lemma showState_spec (name : string) (h : string -> bool) :
  (forall s, In s popup_states -> showState name h s = negb (String.eqb s name)) /\
  (forall x, ~ In x popup_states -> showState name h x = h x).
Proof.
  split.
  - intros s Hin. simpl in Hin.
    repeat (destruct Hin as [<-|Hin]; [reflexivity|]). contradiction.
  - intros x Hout. unfold showState, popup_states. cbn [fold_left].
    repeat match goal with
           | |- context [String.eqb x ?s] =>
               destruct (String.eqb_spec x s) as [->|_];
               [exfalso; apply Hout; simpl; tauto|]
           end.
    reflexivity.
Qed.

Lemma showState_named (name : string) (h : string -> bool) :
  In name popup_states ->
  showState name h name = false /\
  (forall s, In s popup_states -> s <> name -> showState name h s = true).
Proof.
  intros Hin. destruct (showState_spec name h) as [Hs _].
  split; [rewrite (Hs name Hin), String.eqb_refl; reflexivity|].
  intros s Hs' Hne. rewrite (Hs s Hs').
  destruct (String.eqb_spec s name); [contradiction|reflexivity].
Qed.

(** X13.  [showState]: for each of the six views of the popup, showing it
    leaves that view visible and the other five hidden, and touches the
    [hidden] class of no other element (the dialogs stay as they are). *)
Theorem showState_leaves_exactly_the_named_view_visible
    (name : string) (h : string -> bool) :
  In name popup_states ->
  showState name h name = false /\
  (forall s, In s popup_states -> s <> name -> showState name h s = true) /\
  (forall x, ~ In x popup_states -> showState name h x = h x).
Proof.
  intros Hin. destruct (showState_spec name h) as [Hs Ho].
  split; [rewrite (Hs name Hin), String.eqb_refl; reflexivity|].
  split; [|exact Ho].
  intros s Hs' Hne. rewrite (Hs s Hs').
  destruct (String.eqb_spec s name); [contradiction|reflexivity].
Qed.

Lemma showState_witness :
  In "errorState" popup_states /\
  showState "errorState" (fun _ => false) "errorState" = false /\
  showState "errorState" (fun _ => false) "progressState" = true.
Proof.
  assert (Hin : In "errorState" popup_states) by (simpl; tauto).
  split; [exact Hin|].
  pose proof (showState_leaves_exactly_the_named_view_visible
                "errorState" (fun _ => false) Hin) as (H1 & H2 & _).
  split; [exact H1|].
  apply H2; [simpl; tauto | discriminate].
Defined.

(** X14.  The popup's [cancelDownload] forgets the download it tracks in
    every case: after it has finished, whether the cancel was acknowledged,
    failed or was not even sent, [currentDownloadId] is null and a further
    click on cancel sends nothing.  The popup returns to the video view only
    when the cancel request resolved.  Fed with the service worker's answer to
    a cancel call, the request resolves when the call resolved and rejects
    with the error text when it was rejected with a non-empty one. *)
Theorem popup_cancel_forgets_the_download
    (st : PopupState) (result : option UiResult) :
  currentDownloadId (cancelDownload_finish result st) = JNull /\
  cancelDownload_request (cancelDownload_finish result st) = None /\
  (truthy (currentDownloadId st) = false -> cancelDownload_request st = None) /\
  match result with
  | Some (UiResolved _) =>
      hidden (cancelDownload_finish result st) "videoInfoState" = false /\
      (forall s, In s popup_states -> s <> "videoInfoState" ->
         hidden (cancelDownload_finish result st) s = true)
  | _ => hidden (cancelDownload_finish result st) = hidden st
  end /\
  (forall (w : World) (d : JsVal) (o : Settlement),
     sendToServiceWorker None
       (Some (handleRequest_resume (value_of (handleCancelDownload_resume d o w)))) =
     match o with
     | Resolved _ => UiResolved (Some RespSuccess)
     | Rejected message =>
         if String.eqb message "" then UiResolved (Some (RespError ""))
         else UiRejected message
     end).
Proof.
  split; [destruct result as [[r|m]|]; reflexivity|].
  split; [destruct result as [[r|m]|]; reflexivity|].
  split; [intros H; unfold cancelDownload_request; now rewrite H|].
  split.
  - destruct result as [[r|m]|]; try reflexivity.
    assert (Hin : In "videoInfoState" popup_states) by (simpl; tauto).
    destruct (showState_named "videoInfoState" (hidden st) Hin) as (H1 & H2).
    split; [exact H1 | exact H2].
  - intros w d [m|message]; destruct w; [reflexivity|].
    unfold sendToServiceWorker. cbn.
    destruct (String.eqb_spec message "") as [->|_]; reflexivity.
Qed.

(** ** Job notifications in the popup *)

(** X15.  The popup's message listener never looks at the [downloadId] of a
    notification.  A completion notification of any job shows the success
    view (and only it), displays the file name, clears the tracked download
    and asks for a history entry when a video is known; an error
    notification of any job shows the error view with the reason and clears
    the tracked download; a progress notification changes neither the view
    nor the tracked download. *)
Theorem popup_reacts_to_notifications_of_any_job
    (st : PopupState) (d payload : JsVal) :
  (forall action d', popupOnMessage action d payload st = popupOnMessage action d' payload st) /\
  (let r := popupOnMessage "downloadComplete" d payload st in
   currentDownloadId (fst r) = JNull /\
   successFilenameText (fst r) = payload /\
   hidden (fst r) "successState" = false /\
   (forall s, In s popup_states -> s <> "successState" -> hidden (fst r) s = true) /\
   snd r = if truthy (currentVideoInfo st) then [PAddToHistory payload] else []) /\
  (let r := popupOnMessage "downloadError" d payload st in
   currentDownloadId (fst r) = JNull /\
   errorMessageText (fst r) = payload /\
   hidden (fst r) "errorState" = false /\
   (forall s, In s popup_states -> s <> "errorState" -> hidden (fst r) s = true) /\
   snd r = []) /\
  (let r := popupOnMessage "downloadProgress" d payload st in
   fst r = st /\ snd r = [PUpdateProgress payload]).
Proof.
  split; [reflexivity|]. cbv zeta.
  assert (Hs : In "successState" popup_states) by (simpl; tauto).
  assert (He : In "errorState" popup_states) by (simpl; tauto).
  destruct (showState_named "successState" (hidden st) Hs) as (S1 & S2).
  destruct (showState_named "errorState" (hidden st) He) as (E1 & E2).
  repeat split; try reflexivity; assumption.
Qed.

(** ** The download history *)

(** X16.  [addToHistory] puts the new entry first and keeps at most 50
    entries, whatever was stored: the list written back is the new entry
    followed by the stored ones, cut after the fiftieth, so only the oldest
    entries are ever dropped. *)
Theorem addToHistory_keeps_the_newest_fifty
    {A : Type} (item : A) (stored : option (list A)) :
  let old := match stored with Some h => h | None => [] end in
  addToHistory item stored = firstn 50 (item :: old) /\
  List.length (addToHistory item stored) = Nat.min 50 (S (List.length old)) /\
  (List.length (addToHistory item stored) <= 50)%nat /\
  hd_error (addToHistory item stored) = Some item /\
  (exists dropped, item :: old = addToHistory item stored ++ dropped).
Proof.
  cbv zeta. set (old := match stored with Some h => h | None => [] end).
  assert (E : addToHistory item stored = firstn 50 (item :: old)).
  { unfold addToHistory. fold old.
    destruct (Nat.ltb_spec 50 (List.length (item :: old))) as [Hlt|Hge];
      [reflexivity|].
    symmetry. apply firstn_all2. exact Hge. }
  rewrite E. split; [reflexivity|].
  split; [apply length_firstn|].
  split; [rewrite length_firstn; apply Nat.le_min_l|].
  split; [reflexivity|].
  exists (skipn 50 (item :: old)). symmetry. apply firstn_skipn.
Qed.

(** * The storage module *)

Lemma STORAGE_KEYS_inj (key key' : Storage.Key) :
  Storage.STORAGE_KEYS key = Storage.STORAGE_KEYS key' -> key = key'.
Proof. destruct key, key'; intros E; first [reflexivity | discriminate E]. Qed.

Lemma storage_default_defined (key : Storage.Key) (s : Storage.Store) :
  exists v, map_get String.eqb (Storage.STORAGE_KEYS key) (Storage.DEFAULT_SETTINGS s) = Some v.
Proof. destruct key; eexists; reflexivity. Qed.

(** X17.  A successful [set] is read back by [get] as a stored value and
    changes the reading of no other key; no key of [STORAGE_KEYS] ever reads
    as undefined, whether the store holds it, lacks it or fails; and when the
    store fails, [get] answers with the default even if a value is stored. *)
Theorem stored_value_is_read_back_and_defaults_fill_the_gaps
    (key : Storage.Key) (value : Storage.Value) (s : Storage.Store) :
  Storage.get key true (snd (Storage.set key value true s)) = Storage.GotStored value /\
  (forall key' ok, key' <> key ->
     Storage.get key' ok (snd (Storage.set key value true s)) = Storage.get key' ok s) /\
  (forall key' ok, exists v, Storage.got_value (Storage.get key' ok s) = Some v) /\
  (exists v,
     map_get String.eqb (Storage.STORAGE_KEYS key) (Storage.DEFAULT_SETTINGS s) = Some v /\
     Storage.get key false (snd (Storage.set key value true s)) =
       Storage.GotDefault (Some v)).
Proof.
  split; [|split; [|split]].
  - unfold Storage.get, Storage.set, Storage.local_set. cbn.
    rewrite (map_get_set_same String.eqb String.eqb_spec). reflexivity.
  - intros key' ok ne. unfold Storage.get, Storage.set, Storage.local_set. cbn.
    rewrite (map_get_set_other String.eqb String.eqb_spec); [reflexivity|].
    intros E. apply ne. now apply STORAGE_KEYS_inj.
  - intros key' ok. destruct (storage_default_defined key' s) as [v Hv].
    unfold Storage.get.
    destruct ok;
      [destruct (map_get String.eqb (Storage.STORAGE_KEYS key') (Storage.local s)) as [v'|]|];
      cbn [Storage.got_value]; eauto.
  - destruct (storage_default_defined key s) as [v Hv]. exists v.
    split; [exact Hv|]. unfold Storage.get, Storage.set. cbn [snd].
    unfold Storage.DEFAULT_SETTINGS in *. cbn [Storage.defaultHistory]. rewrite Hv.
    reflexivity.
Qed.

(** X18.  [getAll] returns an object with exactly the ten keys of
    [STORAGE_KEYS], in their order, and under each key the value that [get]
    returns for it: the stored value when the store answers and holds one,
    the default otherwise. *)
Theorem getAll_agrees_with_get (ok : bool) (s : Storage.Store) :
  map_keys (Storage.getAll ok s) = map Storage.STORAGE_KEYS Storage.all_keys /\
  (forall key,
     map_get String.eqb (Storage.STORAGE_KEYS key) (Storage.getAll ok s) =
       Some (Storage.got_value (Storage.get key ok s))) /\
  (forall name, ~ In name (map Storage.STORAGE_KEYS Storage.all_keys) ->
     map_get String.eqb name (Storage.getAll ok s) = None).
Proof.
  split; [destruct ok; reflexivity|]. split.
  - intros key. unfold Storage.get.
    destruct key; destruct ok; cbn;
      repeat match goal with
             | |- context [map_get String.eqb ?k (Storage.local s)] =>
                 destruct (map_get String.eqb k (Storage.local s))
             end; reflexivity.
  - intros name Hout.
    assert (Hne : forall k, In k (map Storage.STORAGE_KEYS Storage.all_keys) ->
                            String.eqb name k = false).
    { intros k Hk. destruct (String.eqb_spec name k) as [->|_]; [contradiction|reflexivity]. }
    unfold Storage.getAll, Storage.getMultiple, Storage.all_keys in *.
    cbn [map Storage.STORAGE_KEYS] in Hne.
    destruct ok; cbn [fold_left map_set String.eqb Ascii.eqb Bool.eqb Storage.STORAGE_KEYS];
      cbn [map_get];
      rewrite !Hne by (simpl; tauto); reflexivity.
Qed.

(** X19.  [addToHistory] answers [true] exactly when what [get] returned for
    the history is an array, and then regardless of the write: when the store
    rejects the write, the answer is still [true] and the store holds what it
    held before.  When the write goes through, the stored history is the new
    entry followed by the previous entries, cut after the fiftieth. *)
Theorem addToHistory_reports_success_without_checking_the_write
    (item : JsVal) (now : Z) (ok_get ok_set : bool) (s : Storage.Store) :
  (fst (Storage.addToHistory item now ok_get ok_set s) = true <->
   exists history,
     Storage.got_value (Storage.getHistory ok_get s) = Some (Storage.VArray history)) /\
  Storage.local (snd (Storage.addToHistory item now ok_get false s)) = Storage.local s /\
  (forall history,
     Storage.got_value (Storage.getHistory ok_get s) = Some (Storage.VArray history) ->
     Storage.getHistory true (snd (Storage.addToHistory item now ok_get true s)) =
       Storage.GotStored
         (Storage.VArray (firstn 50 (Storage.mkHistoryEntry item now :: history)))).
Proof.
  assert (Hcap : forall e h, Storage.unshift_capped e h = firstn 50 (e :: h)).
  { intros e h. unfold Storage.unshift_capped.
    destruct (Nat.ltb_spec 50 (List.length (e :: h))) as [Hlt|Hge]; [reflexivity|].
    symmetry. apply firstn_all2. exact Hge. }
  unfold Storage.addToHistory, Storage.getHistory.
  destruct (Storage.get Storage.DOWNLOAD_HISTORY ok_get s) as [[b|str|h]|[[b|str|h]|]];
    cbn [Storage.got_value fst snd].
  all: split; [split; [intros E; try discriminate E; eauto
                      | intros [h' E]; try discriminate E; reflexivity]|].
  all: split; [reflexivity|].
  all: intros history E; try discriminate E.
  all: injection E as <-.
  all: unfold Storage.get, Storage.set, Storage.local_set; cbn.
  all: rewrite (map_get_set_same String.eqb String.eqb_spec), Hcap; reflexivity.
Qed.

(** X20.  The default history is one array, and [get] hands out that array
    itself.  When the store has no history (or cannot be read),
    [addToHistory] therefore puts the entry into the default as well,
    whether or not the write succeeds.  From then on the default is not
    empty: a read of a failing store shows the entry, and [resetToDefaults]
    writes it back, so the history read after a reset holds the entry, while
    every other setting reads as its default.  [clearHistory] does empty the
    stored history.  When the store holds a history, the default is left
    alone. *)
Theorem entries_added_to_an_empty_store_survive_a_reset
    (content : JsMap string Storage.Value) (item : JsVal) (now : Z)
    (ok_get ok_set : bool) :
  ok_get = false \/
  map_get String.eqb (Storage.STORAGE_KEYS Storage.DOWNLOAD_HISTORY) content = None ->
  let entry := Storage.mkHistoryEntry item now in
  let s1 := snd (Storage.addToHistory item now ok_get ok_set (Storage.loaded content)) in
  Storage.defaultHistory s1 = [entry] /\
  Storage.getHistory false s1 = Storage.GotDefault (Some (Storage.VArray [entry])) /\
  Storage.getHistory true (snd (Storage.resetToDefaults true s1)) =
    Storage.GotStored (Storage.VArray [entry]) /\
  (forall key, key <> Storage.DOWNLOAD_HISTORY ->
     Storage.got_value (Storage.get key true (snd (Storage.resetToDefaults true s1))) =
     map_get String.eqb (Storage.STORAGE_KEYS key)
       (Storage.DEFAULT_SETTINGS (Storage.loaded content))) /\
  Storage.getHistory true (snd (Storage.clearHistory true s1)) =
    Storage.GotStored (Storage.VArray []) /\
  (forall (s : Storage.Store) (h : list Storage.HistoryEntry) (ok : bool),
     map_get String.eqb (Storage.STORAGE_KEYS Storage.DOWNLOAD_HISTORY) (Storage.local s) =
       Some (Storage.VArray h) ->
     Storage.defaultHistory (snd (Storage.addToHistory item now true ok s)) =
       Storage.defaultHistory s).
Proof.
  intros Hempty. cbv zeta.
  assert (E : Storage.get Storage.DOWNLOAD_HISTORY ok_get (Storage.loaded content) =
              Storage.GotDefault (Some (Storage.VArray []))).
  { unfold Storage.get. destruct Hempty as [->|Hnone]; [reflexivity|].
    cbn [Storage.local Storage.loaded]. rewrite Hnone. destruct ok_get; reflexivity. }
  unfold Storage.addToHistory. rewrite E.
  change (Storage.unshift_capped (Storage.mkHistoryEntry item now) [])
    with [Storage.mkHistoryEntry item now].
  set (entry := Storage.mkHistoryEntry item now).
  cbn [snd]. set (s1 := snd (Storage.set _ _ _ _)).
  assert (Hd : Storage.defaultHistory s1 = [entry]) by (destruct ok_set; reflexivity).
  split; [exact Hd|].
  split; [unfold Storage.getHistory, Storage.get, Storage.DEFAULT_SETTINGS;
          rewrite Hd; reflexivity|].
  split; [|split; [|split]].
  - unfold Storage.getHistory, Storage.get, Storage.resetToDefaults,
      Storage.local_set, Storage.DEFAULT_SETTINGS.
    cbn [snd Storage.local fold_left fst]. rewrite Hd.
    rewrite (map_get_set_same String.eqb String.eqb_spec). reflexivity.
  - intros key Hne.
    unfold Storage.get, Storage.resetToDefaults, Storage.local_set,
      Storage.DEFAULT_SETTINGS.
    cbn [snd Storage.local fold_left fst].
    destruct key;
      first
        [ contradiction Hne; reflexivity
        | rewrite !(map_get_set_other String.eqb String.eqb_spec) by discriminate;
          rewrite (map_get_set_same String.eqb String.eqb_spec); reflexivity ].
  - unfold Storage.getHistory, Storage.get, Storage.clearHistory, Storage.set,
      Storage.local_set.
    cbn [snd Storage.local fold_left fst].
    rewrite (map_get_set_same String.eqb String.eqb_spec). reflexivity.
  - intros s h ok Hs. unfold Storage.get. rewrite Hs.
    destruct ok; reflexivity.
Qed.

Lemma entries_survive_a_reset_witness :
  map_get String.eqb (Storage.STORAGE_KEYS Storage.DOWNLOAD_HISTORY)
    ([] : JsMap string Storage.Value) = None /\
  Storage.getHistory true
    (snd (Storage.resetToDefaults true
            (snd (Storage.addToHistory (JStr "clip") 7 true false (Storage.loaded []))))) =
  Storage.GotStored (Storage.VArray [Storage.mkHistoryEntry (JStr "clip") 7]).
Proof.
  split; [reflexivity|].
  exact (proj1 (proj2 (proj2
           (entries_added_to_an_empty_store_survive_a_reset
              [] (JStr "clip") 7 true false (or_intror eq_refl))))).
Defined.

(** * Starting a download from the popup *)

(** X21.  [startDownload] does nothing while a start is in flight or while
    no video is known.  Otherwise it shows the progress view and sends the
    request, and a second click before the answer is ignored; when reading
    the selected format throws, nothing is sent and the error is shown.  The
    service worker answers every start request with the identifier of the
    job it built, and the popup, in whatever state the answer finds it,
    stores exactly that identifier, stops being busy and keeps its view, so
    a later cancel asks for that job.  When the call was sent, that job is
    active in the service worker and the answer is all the popup receives.
    When the call failed at once (no connection, failed write), the service
    worker has retired the job and sends the error notification before the
    answer: the popup then shows the error and is not busy, but tracks the
    identifier of the retired job.  Whatever the answer is, the popup is not
    busy afterwards, and a rejected request shows the error view with the
    reason and keeps the tracked identifier. *)
Theorem popup_tracks_the_job_it_started
    (w : World) (req : nat) (options : DownloadOptions) (env : Env) (st : PopupState) :
  (forall built,
     isDownloading st = true \/ truthy (currentVideoInfo st) = false ->
     startDownload_begin built st = None) /\
  (isDownloading st = false -> truthy (currentVideoInfo st) = true ->
   (exists st1,
      startDownload_begin (inr options) st = Some (st1, Some options) /\
      isDownloading st1 = true /\
      hidden st1 "progressState" = false /\
      currentDownloadId st1 = currentDownloadId st /\
      (forall built, startDownload_begin built st1 = None)) /\
   (forall message,
    exists st1,
      startDownload_begin (inl message) st = Some (st1, None) /\
      isDownloading st1 = false /\
      hidden st1 "errorState" = false /\
      errorMessageText st1 = JStr message)) /\
  (microtasks w = [] ->
   let id := make_downloadId env in
   let s := step (EvRequest req (ReqStartDownload options) env) w in
   (port_absent w && negb (env_connect_ok env) = false ->
    env_post_error env = None ->
    sent_to_popup (effects_of s) = [ESendResponse req (RespDownloadId id)] /\
    download_has (JStr id) (downloadCallbacks (world_of s)) = true) /\
   (port_absent w && negb (env_connect_ok env) = true ->
    NoDup (map_keys (downloadCallbacks w)) ->
    sent_to_popup (effects_of s) =
      [ERuntimeSend "downloadError" (JStr id) (JStr FAILED_TO_CONNECT);
       ESendResponse req (RespDownloadId id)] /\
    download_has (JStr id) (downloadCallbacks (world_of s)) = false) /\
   (forall message,
    port_absent w && negb (env_connect_ok env) = false ->
    env_post_error env = Some message ->
    NoDup (map_keys (downloadCallbacks w)) ->
    sent_to_popup (effects_of s) =
      [ERuntimeSend "downloadError" (JStr id) (JStr message);
       ESendResponse req (RespDownloadId id)] /\
    download_has (JStr id) (downloadCallbacks (world_of s)) = false)) /\
  (forall st',
   let id := make_downloadId env in
   let st2 := startDownload_finish
                (sendToServiceWorker None (Some (RespDownloadId id))) st' in
   currentDownloadId st2 = JStr id /\
   isDownloading st2 = false /\
   hidden st2 = hidden st' /\
   errorMessageText st2 = errorMessageText st' /\
   cancelDownload_request st2 = Some (JStr id)) /\
  (forall st' message,
   let id := make_downloadId env in
   let st2 := startDownload_finish
                (sendToServiceWorker None (Some (RespDownloadId id)))
                (fst (popupOnMessage "downloadError" (JStr id) (JStr message) st')) in
   hidden st2 "errorState" = false /\
   errorMessageText st2 = JStr message /\
   isDownloading st2 = false /\
   currentDownloadId st2 = JStr id) /\
  (forall result st', isDownloading (startDownload_finish result st') = false) /\
  (forall message st',
   let st2 := startDownload_finish (UiRejected message) st' in
   errorMessageText st2 = JStr message /\
   hidden st2 "errorState" = false /\
   currentDownloadId st2 = currentDownloadId st').
Proof.
  assert (Hp : In "progressState" popup_states) by (simpl; tauto).
  assert (He : In "errorState" popup_states) by (simpl; tauto).
  split; [|split; [|split; [|split; [|split; [|split]]]]].
  - intros built [Hb|Hv]; unfold startDownload_begin.
    + rewrite Hb. reflexivity.
    + rewrite Hv. now rewrite orb_true_r.
  - intros Hbusy Hvideo. split.
    + eexists. split.
      { unfold startDownload_begin. rewrite Hbusy, Hvideo. reflexivity. }
      split; [reflexivity|].
      split; [exact (proj1 (showState_named "progressState" (hidden st) Hp))|].
      split; [reflexivity|]. intros built; reflexivity.
    + intros message. eexists. split.
      { unfold startDownload_begin. rewrite Hbusy, Hvideo. reflexivity. }
      split; [reflexivity|]. split; [|reflexivity].
      exact (proj1 (showState_named "errorState" _ He)).
  - intros Hmt. cbv zeta.
    destruct w as [np pc dc mid tm mt ck so]. simpl in Hmt. subst mt.
    destruct env as [cok perr now rnd].
    unfold step, dispatch, handleRequest, handleStartDownload, runMicrotasks,
      queue_weight, port_absent.
    cbv zeta. set (id := make_downloadId _). clearbody id.
    pose proof (map_has_set_same String.eqb String.eqb_spec id true dc) as Hset.
    assert (Hdel : NoDup (map_keys dc) ->
                   map_has String.eqb id
                     (map_delete String.eqb id (map_set String.eqb id true dc)) = false).
    { intros Hnd. apply (map_delete_removes String.eqb String.eqb_spec).
      apply (map_set_NoDup String.eqb String.eqb_spec). assumption. }
    split; [|split].
    + intros Hport Herr. simpl in Herr. subst perr.
      destruct np; [|destruct cok; [|discriminate]];
        (split; [reflexivity | exact Hset]).
    + intros Hport Hnd. destruct np; [discriminate|destruct cok; [discriminate|]].
      split; [reflexivity | exact (Hdel Hnd)].
    + intros message Hport Herr Hnd. simpl in Herr. subst perr.
      destruct np; [|destruct cok; [|discriminate]];
        (split; [reflexivity | exact (Hdel Hnd)]).
  - intros st'. cbv zeta. repeat split.
  - intros st' message. cbv zeta.
    split; [exact (proj1 (showState_named "errorState" _ He))|].
    repeat split.
  - intros [[r|]|m] st'; reflexivity.
  - intros message st'. cbv zeta. split; [reflexivity|]. split; [|reflexivity].
    exact (proj1 (showState_named "errorState" _ He)).
Qed.

Lemma popup_tracks_the_job_witness :
  let w := fst (run true []) in
  microtasks w = [] /\
  sent_to_popup (effects_of (step (EvRequest 0 (ReqStartDownload options0) env0) w)) =
    [ESendResponse 0 (RespDownloadId job0)] /\
  download_has (JStr job0)
    (downloadCallbacks (world_of (step (EvRequest 0 (ReqStartDownload options0) env0) w)))
    = true.
Proof.
  cbv zeta. split; [reflexivity|].
  pose proof (popup_tracks_the_job_it_started (fst (run true [])) 0%nat options0 env0 popup0)
    as (_ & _ & H & _).
  exact (proj1 (H eq_refl) eq_refl eq_refl).
Defined.

(** * Choosing the download directory *)

(** X22.  The options page changes the download path only on a directory
    that was really chosen.  Fed with the service worker's answer to the
    select call, [selectDirectory] shows and saves the path exactly when the
    call resolved with a path that is not empty (or otherwise falsy), and
    what it saves is what it shows; a rejected call (dialog failed, timeout,
    disconnect), a response without a path, no response at all and a failed
    request all leave the field as it is and save nothing. *)
Theorem options_page_saves_only_a_chosen_directory
    (o : Settlement) (shown : JsVal) :
  selectDirectory (inr (Some (select_answer o))) shown =
    match o with
    | Resolved response =>
        if truthy (m_path response)
        then (m_path response, [("downloadPath", m_path response)])
        else (shown, [])
    | Rejected _ => (shown, [])
    end /\
  (forall answer,
     snd (selectDirectory answer shown) = [] ->
     fst (selectDirectory answer shown) = shown) /\
  (forall answer key value,
     In (key, value) (snd (selectDirectory answer shown)) ->
     key = "downloadPath" /\ truthy value = true /\
     fst (selectDirectory answer shown) = value) /\
  selectDirectory (inr None) shown = (shown, []) /\
  (forall message, selectDirectory (inl message) shown = (shown, [])).
Proof.
  split; [destruct o; reflexivity|].
  split.
  { intros [m|[r|]]; try reflexivity. unfold selectDirectory.
    destruct (truthy (response_path r)); [discriminate|reflexivity]. }
  split.
  { intros [m|[r|]] key value; try (intros []). unfold selectDirectory.
    destruct (truthy (response_path r)) eqn:Ht; [|intros []].
    intros [E|[]]. inversion E; subst. repeat split. exact Ht. }
  split; [reflexivity|]. intros message; reflexivity.
Qed.
